(** * Fashion generation service: retry, polling and dispatch

    A shallow embedding of [services/geminiService.ts] (the orchestration
    routine behind the "Generate" button) together with the properties the
    design document states about it.

    Asynchronous code is modelled by explicit state passing.  An [await] is a
    step of a state-and-exception monad over a world that holds what the
    routine can observe of its environment: the answers the remote service
    is going to give, and a trace of the calls and timers issued so far.
    What the JavaScript host decides is a parameter: the text it prints for
    the members of [Object.prototype], which the lookups of the prompt
    builder can run into, and its [atob]. *)

From Stdlib Require Import String Ascii List ZArith Lia Bool Arith DecimalString.
Import ListNotations.
Open Scope string_scope.

(** ** JavaScript values used by the service *)

(** [String.prototype.includes]: [includes s needle] is [s.includes(needle)]. *)
Fixpoint includes (s needle : string) : bool :=
  prefix needle s ||
  match s with
  | EmptyString => false
  | String _ s' => includes s' needle
  end.

(** A thrown value.  The service only ever looks at [message] and [status];
    [name] is the standard [Error.prototype.name] ("Error" for [new Error]). *)
Record JsError := mkJsError {
  name : option string;
  message : option string;
  status : option Z
}.

(** [new Error(msg)] *)
Definition newError (msg : string) : JsError :=
  {| name := Some "Error"; message := Some msg; status := None |}.

(** [error.message || ''] *)
Definition messageOrEmpty (error : JsError) : string :=
  match message error with
  | Some m => m
  | None => ""
  end.

(** [error.status === code] *)
Definition statusIs (error : JsError) (code : Z) : bool :=
  match status error with
  | Some s => (s =? code)%Z
  | None => false
  end.

(** ** Promises as a state-and-exception monad *)

(** How an awaited promise ends.  [Pending] stands for a promise that has
    not settled within the answers the world holds. *)
Inductive Completion (A : Type) : Type :=
| Resolved (a : A)
| Rejected (error : JsError)
| Pending.
Arguments Resolved {A} a.
Arguments Rejected {A} error.
Arguments Pending {A}.

(** What the environment answers to one call. *)
Inductive Outcome (A : Type) : Type :=
| Ok (a : A)
| Fail (error : JsError).
Arguments Ok {A} a.
Arguments Fail {A} error.

Definition settle {A} (o : Outcome A) : Completion A :=
  match o with
  | Ok a => Resolved a
  | Fail e => Rejected e
  end.

Definition M (W A : Type) : Type := W -> Completion A * W.

Definition ret {W A} (a : A) : M W A := fun w => (Resolved a, w).

Definition throw {W A} (error : JsError) : M W A := fun w => (Rejected error, w).

Definition bind {W A B} (m : M W A) (k : A -> M W B) : M W B :=
  fun w =>
    match m w with
    | (Resolved a, w') => k a w'
    | (Rejected e, w') => (Rejected e, w')
    | (Pending, w') => (Pending, w')
    end.

(** [try { m } catch (error) { handler }] *)
Definition tryCatch {W A} (m : M W A) (handler : JsError -> M W A) : M W A :=
  fun w =>
    match m w with
    | (Rejected e, w') => handler e w'
    | settled => settled
    end.

Notation "x <- m ;; k" := (bind m (fun x => k))
  (at level 61, m at next level, right associativity).
Notation "m ;;; k" := (bind m (fun _ => k))
  (at level 61, right associativity).

(** The timer of the host: what [setTimeout] does to the world. *)
Class Clock (W : Type) := setTimeout : Z -> W -> W.

(** [const sleep = (ms) => new Promise(resolve => setTimeout(resolve, ms))] *)
Definition sleep {W} `{Clock W} (ms : Z) : M W unit :=
  fun w => (Resolved tt, setTimeout ms w).

(** ** Retry with exponential backoff *)

(** The classification inside [retryOperation]. *)
Definition isRetryable (error : JsError) : bool :=
  let msg := messageOrEmpty error in
  includes msg "overloaded" ||
  includes msg "internal server issue" ||
  includes msg "429" ||
  includes msg "503" ||
  includes msg "500" ||
  statusIs error 429 ||
  statusIs error 503 ||
  statusIs error 500.

(** The [for (let i = 0; i < retries; i++)] loop, entered at index [i] with
    [remaining = retries - i] iterations left. *)
Fixpoint retryLoop {W T} `{Clock W} (fn : M W T) (retries : nat) (baseDelay : Z)
    (i remaining : nat) : M W T :=
  match remaining with
  | O => throw (newError "Failed after max retries")
  | S remaining' =>
      tryCatch fn (fun error =>
        if negb (isRetryable error) || (i =? retries - 1)%nat
        then throw error
        else
          let delay := (baseDelay * 2 ^ Z.of_nat i)%Z in
          sleep delay ;;;
          retryLoop fn retries baseDelay (S i) remaining')
  end.

Definition retryOperation {W T} `{Clock W} (fn : M W T) (retries : nat)
    (baseDelay : Z) : M W T :=
  retryLoop fn retries baseDelay 0 retries.

(** ** A probe for wrapped operations

    To observe how [retryOperation] drives the operation it wraps, the
    operation is played from a script of outcomes; the probe counts the
    invocations and records the delays slept in between. *)
Record Probe (T : Type) := mkProbe {
  script : list (Outcome T);
  calls : nat;
  delays : list Z
}.
Arguments mkProbe {T} script calls delays.
Arguments script {T} p.
Arguments calls {T} p.
Arguments delays {T} p.

#[global] Instance Probe_clock {T} : Clock (Probe T) :=
  fun ms p => mkProbe (script p) (calls p) (delays p ++ [ms]).

(** One invocation of the scripted operation. *)
Definition invoke {T} : M (Probe T) T :=
  fun p =>
    match script p with
    | [] => (Pending, mkProbe [] (S (calls p)) (delays p))
    | o :: rest => (settle o, mkProbe rest (S (calls p)) (delays p))
    end.

Definition fresh {T} (outcomes : list (Outcome T)) : Probe T :=
  mkProbe outcomes 0 [].

(** The delays slept before attempts [1 .. k]: base, 2 base, 4 base, ... *)
Definition backoff (baseDelay : Z) (k : nat) : list Z :=
  map (fun i => (baseDelay * 2 ^ Z.of_nat i)%Z) (seq 0 k).

(** ** Data model ([types.ts]) *)

Inductive Gender := female | male.

Definition genderText (g : Gender) : string :=
  match g with
  | female => "female"
  | male => "male"
  end.

(** [VideoAspectRatio = '9:16' | '16:9'] *)
Inductive VideoAspectRatio := ratio_9_16 | ratio_16_9.

Inductive GenerationMode := video | image.

(** [modelId] and [bodyType] stay strings: both are keys into
    [Record<string, string>] tables that have a fallback. *)
Record GenerationConfig := mkConfig {
  mode : GenerationMode;
  prompt : string;
  gender : Gender;
  modelId : string;
  bodyType : string;
  cameraAngle : string;
  style : string;
  aspectRatio : VideoAspectRatio;
  materialDesc : string
}.

(** A [File] as the service uses it: its declared media type and what
    [FileReader.readAsDataURL] yields for it ([None]: the read fails). *)
Record File := mkFile {
  fileType : string;
  dataURL : option string
}.

Record UploadedAssets := mkAssets {
  top : option File;
  bottom : option File;
  shoes : option File;
  accessories : option File
}.

(** ** Prompt builder *)

Definition lookup (table : list (string * string)) (key : string) : option string :=
  match find (fun kv => String.eqb (fst kv) key) table with
  | Some kv => Some (snd kv)
  | None => None
  end.

Definition MODEL_DESCRIPTIONS : list (string * string) :=
  [ ("sofia", "a Caucasian female model with blonde hair");
    ("li", "an East Asian female model with black straight hair");
    ("zara", "a Black female model with curly hair");
    ("david", "a Caucasian male model with short brown hair");
    ("ken", "an Asian male model with stylish short hair");
    ("marcus", "a Black male model with athletic build") ].

Definition BODY_TYPE_PROMPTS : list (string * string) :=
  [ ("slim", "slender and thin");
    ("athletic", "muscular and athletic");
    ("curvy", "curvy and voluptuous");
    ("plus", "plus-size and full-figured");
    ("tall", "very tall and statuesque");
    ("petite", "petite and short") ].

(** The tables are plain objects, so [table[key]] also finds what they
    inherit from [Object.prototype]: ['constructor'], ['toString'],
    ['__proto__'] and the like.  Those members are functions or objects,
    hence truthy, and a template literal embeds the text the engine prints
    for them, which differs from engine to engine.  [inherited key] is that
    text when [Object.prototype] has a member [key], and [None] when it has
    none. *)
Class Host := inherited : string -> option string.

Section Prompt.

Context {host : Host}.

(** [table[key] || fallback]: an own entry shadows an inherited member; the
    empty string is falsy. *)
Definition lookupOr (table : list (string * string)) (key fallback : string) : string :=
  match lookup table key with
  | Some EmptyString => fallback
  | Some v => v
  | None =>
      match inherited key with
      | Some text => text
      | None => fallback
      end
  end.

Definition completeOutfit : string :=
  "The model is wearing the complete outfit composed of the provided clothing items (Top, Bottom, Shoes, and/or Accessories). ".

Definition exactOutfit : string :=
  "The model is wearing the exact outfit shown in the input image. ".

Definition materialInstruction (config : GenerationConfig) : string :=
  match materialDesc config with
  | EmptyString =>
      "Preserve the exact fabric texture, material weight, and reflectivity of the original clothing. "
  | desc =>
      "The clothing is made of " ++ desc ++
      ". Accurately render the physical properties, weight, and texture of this material. "
  end.

Definition fidelityBoilerplate : string :=
  ". 
  CRITICAL: Maintain high fidelity to the original clothing's texture and patterns. 
  Lighting should highlight the fabric details. High resolution, photorealistic, highly detailed texture.".

Definition buildCommonPrompt (config : GenerationConfig) (assetCount : nat) : string :=
  let baseModelDesc :=
    lookupOr MODEL_DESCRIPTIONS (modelId config)
      ("a " ++ genderText (gender config) ++ " model") in
  let bodyAdjective := lookupOr BODY_TYPE_PROMPTS (bodyType config) "slender" in
  let fullModelDesc := baseModelDesc ++ " with a " ++ bodyAdjective ++ " body type" in
  let fullPrompt := "Fashion content. " ++ fullModelDesc ++ " in a " ++ style config ++ " setting. " in
  let fullPrompt :=
    if (1 <? assetCount)%nat
    then fullPrompt ++ completeOutfit ++ materialInstruction config
    else fullPrompt ++ exactOutfit ++ materialInstruction config in
  fullPrompt ++ "Camera Angle: " ++ cameraAngle config ++ fidelityBoilerplate.

End Prompt.

(** ** The remote service: requests, answers and the long-running operation *)

Record Blob := mkBlob {
  bytes : list nat;
  blobType : string
}.

Definition printable (c : ascii) : bool :=
  (32 <=? nat_of_ascii c)%nat && (nat_of_ascii c <=? 126)%nat.

Definition toAsciiLowercase (c : ascii) : ascii :=
  if (65 <=? nat_of_ascii c)%nat && (nat_of_ascii c <=? 90)%nat
  then ascii_of_nat (nat_of_ascii c + 32)
  else c.

Fixpoint lowercase (s : string) : string :=
  match s with
  | EmptyString => EmptyString
  | String c rest => String (toAsciiLowercase c) (lowercase rest)
  end.

(** [new Blob([new Uint8Array(array)], {type})]: the constructor keeps a
    type made of characters from U+0020 to U+007E, in ASCII lower case, and
    blanks any other. *)
Definition newBlob (array : list nat) (type : string) : Blob :=
  mkBlob array
    (if forallb printable (list_ascii_of_string type) then lowercase type else "").

(** The handle [URL.createObjectURL] hands out for a blob. *)
Inductive ObjectURL := createObjectURL (blob : Blob).

Record Video := mkVideo { uri : option string }.
Record GeneratedVideo := mkGeneratedVideo { videoOf : option Video }.
Record GenerateVideosResponse := mkVideosResponse {
  generatedVideos : option (list GeneratedVideo)
}.

(** [operation.error], a [Record<string, unknown>] of which only [message]
    is read. *)
Record OperationError := mkOperationError { errorMessage : option string }.

(** [done] is optional in the SDK; absent counts as not done. *)
Record Operation := mkOperation {
  done : bool;
  error : option OperationError;
  response : option GenerateVideosResponse;
  metadata : string
}.

Record Image := mkImage {
  imageBytes : option string;
  mimeType : string
}.

Inductive VideoGenerationReferenceType := ASSET.

Record ReferenceImage := mkReferenceImage {
  refImage : Image;
  referenceType : VideoGenerationReferenceType
}.

Module VideosRequest.
Record Config := mkConfig {
  numberOfVideos : Z;
  referenceImages : option (list ReferenceImage);
  resolution : string;
  aspectRatio : VideoAspectRatio
}.
Record t := mk {
  model : string;
  prompt : string;
  image : option Image;
  config : Config
}.
End VideosRequest.

(** [inlineData] of a content part, in requests and in responses. *)
Record InlineData := mkInlineData {
  data : option string;
  inlineMimeType : option string
}.

Record Part := mkPart {
  inlineData : option InlineData;
  text : option string
}.

Record Content := mkContent { parts : option (list Part) }.
Record Candidate := mkCandidate { content : option Content }.
Record GenerateContentResponse := mkContentResponse {
  candidates : option (list Candidate)
}.

Module ContentRequest.
Record t := mk {
  model : string;
  contents : list Part;
  aspectRatio : VideoAspectRatio;
  imageSize : string
}.
End ContentRequest.

(** What [fetch] resolves to; [blob] is the outcome of [response.blob()]. *)
Record FetchResponse := mkFetchResponse {
  ok : bool;
  httpStatus : Z;
  blob : Outcome Blob
}.

(** What leaves the browser, and the timers set. *)
Inductive Event :=
| CallGenerateVideos (request : VideosRequest.t)
| CallGetVideosOperation (operation : Operation)
| CallGenerateContent (request : ContentRequest.t)
| CallFetch (url : string)
| Timer (ms : Z).

(** The world of the service: the trace so far and the answers the remote
    side has in store for the calls wrapped by [retryOperation]. *)
Record World := mkWorld {
  trace : list Event;
  videoAnswers : list (Outcome Operation);
  contentAnswers : list (Outcome GenerateContentResponse);
  fetchAnswers : list (Outcome FetchResponse)
}.

Definition record (ev : Event) (w : World) : World :=
  mkWorld (trace w ++ [ev]) (videoAnswers w) (contentAnswers w) (fetchAnswers w).

#[global] Instance World_clock : Clock World := fun ms => record (Timer ms).

Section Service.

Context {host : Host}.

(** [ai.models.generateVideos(request)] *)
Definition generateVideos (request : VideosRequest.t) : M World Operation :=
  fun w =>
    let w := record (CallGenerateVideos request) w in
    match videoAnswers w with
    | [] => (Pending, w)
    | answer :: rest =>
        (settle answer, mkWorld (trace w) rest (contentAnswers w) (fetchAnswers w))
    end.

(** [ai.models.generateContent(request)] *)
Definition generateContent (request : ContentRequest.t) : M World GenerateContentResponse :=
  fun w =>
    let w := record (CallGenerateContent request) w in
    match contentAnswers w with
    | [] => (Pending, w)
    | answer :: rest =>
        (settle answer, mkWorld (trace w) (videoAnswers w) rest (fetchAnswers w))
    end.

(** [fetch(url)] *)
Definition fetch (url : string) : M World FetchResponse :=
  fun w =>
    let w := record (CallFetch url) w in
    match fetchAnswers w with
    | [] => (Pending, w)
    | answer :: rest =>
        (settle answer, mkWorld (trace w) (videoAnswers w) (contentAnswers w) rest)
    end.

(** ** Credential gate *)

(** The host capability [window.aistudio]; each member, when present, is
    given by how the promise it returns ends. *)
Record AIStudio := mkAIStudio {
  hasSelectedApiKey : option (Completion bool);
  openSelectKey : option (Completion unit)
}.

Record Window := mkWindow { aistudio : option AIStudio }.

Definition checkApiKeySelection (window : Window) : Completion bool :=
  match aistudio window with
  | Some studio =>
      match hasSelectedApiKey studio with
      | Some answer => answer
      | None => Resolved true
      end
  | None => Resolved true
  end.

Definition promptSelectApiKey (window : Window) : Completion unit :=
  match aistudio window with
  | Some studio =>
      match openSelectKey studio with
      | Some answer => answer
      | None => Resolved tt
      end
  | None => Resolved tt
  end.

(** ** Asset encoding *)

(** [s.split(sep)] for a one-character separator. *)
Fixpoint split (sep : ascii) (s : string) : list string :=
  match s with
  | EmptyString => [EmptyString]
  | String c s' =>
      if Ascii.eqb c sep then EmptyString :: split sep s'
      else
        match split sep s' with
        | piece :: pieces => String c piece :: pieces
        | [] => [String c EmptyString]
        end
  end.

(** The value the reader rejects with: an event, not an [Error]. *)
Definition readerErrorEvent : JsError :=
  {| name := None; message := None; status := None |}.

(** [blobToBase64]: the text after the first comma of the data URL
    ([None] is [undefined], when there is no comma). *)
Definition blobToBase64 {W} (file : File) : M W (option string) :=
  match dataURL file with
  | Some base64String => ret (nth_error (split "," base64String) 1)
  | None => throw readerErrorEvent
  end.

(** ** Video generation *)

(** [[...].filter(f => f !== undefined)] *)
Fixpoint definedOnly {A} (slots : list (option A)) : list A :=
  match slots with
  | [] => []
  | Some a :: rest => a :: definedOnly rest
  | None :: rest => definedOnly rest
  end.

(** The slots in canonical priority order. *)
Definition orderedFiles (assets : UploadedAssets) : list File :=
  definedOnly [top assets; bottom assets; shoes assets; accessories assets].

(** [process.env.API_KEY] passes [if (!apiKey)] when it is a non-empty string. *)
Definition truthy (value : option string) : option string :=
  match value with
  | Some EmptyString | None => None
  | Some s => Some s
  end.

(** The body of [for (const file of referenceFiles)]. *)
Fixpoint referenceImagesPayload {W} (referenceFiles : list File)
    : M W (list ReferenceImage) :=
  match referenceFiles with
  | [] => ret []
  | file :: rest =>
      b64 <- blobToBase64 file ;;
      payload <- referenceImagesPayload rest ;;
      ret (mkReferenceImage (mkImage b64 (fileType file)) ASSET :: payload)
  end.

Definition singleImageRequest (fullPrompt : string) (imageBase64 : option string)
    (file : File) (config : GenerationConfig) : VideosRequest.t :=
  VideosRequest.mk "veo-3.1-fast-generate-preview" fullPrompt
    (Some (mkImage imageBase64 (fileType file)))
    (VideosRequest.mkConfig 1 None "720p" (aspectRatio config)).

Definition multiImageRequest (fullPrompt : string) (payload : list ReferenceImage)
    : VideosRequest.t :=
  VideosRequest.mk "veo-3.1-generate-preview" fullPrompt None
    (VideosRequest.mkConfig 1 (Some payload) "720p" ratio_16_9).

(** The test in the [catch] of the polling loop. *)
Definition pollTolerates (error : JsError) : bool :=
  let msg := messageOrEmpty error in
  includes msg "overloaded" ||
  includes msg "internal server issue" ||
  includes msg "500" ||
  includes msg "503".

(** [while (!operation.done) { ... }].  [refreshes] holds the answers the
    service gives to the successive [getVideosOperation] calls; every turn
    of the loop takes one. *)
Fixpoint pollLoop (refreshes : list (Outcome Operation)) (operation : Operation)
    : M World Operation :=
  if done operation then ret operation
  else
    sleep 5000 ;;;
    fun w =>
      let w := record (CallGetVideosOperation operation) w in
      match refreshes with
      | [] => (Pending, w)
      | Ok refreshed :: refreshes' => pollLoop refreshes' refreshed w
      | Fail error :: refreshes' =>
          if pollTolerates error then pollLoop refreshes' operation w
          else (Rejected error, w)
      end.

(** [`${value}`] for a value that may be [undefined]. *)
Definition interpolate (value : option string) : string :=
  match value with
  | Some s => s
  | None => "undefined"
  end.

(** [operation.response?.generatedVideos?.[0]?.video?.uri] *)
Definition videoUriOf (operation : Operation) : option string :=
  match response operation with
  | Some r =>
      match generatedVideos r with
      | Some (first :: _) =>
          match videoOf first with
          | Some v => uri v
          | None => None
          end
      | _ => None
      end
  | None => None
  end.

(** [`${n}`] for an integer. *)
Definition numberText (n : Z) : string := NilZero.string_of_int (Z.to_int n).

Definition fetchVideo (videoUri apiKey : string) : M World Blob :=
  videoResponse <- fetch (videoUri ++ "&key=" ++ apiKey) ;;
  if negb (ok videoResponse)
  then throw (newError ("Download failed: " ++ numberText (httpStatus videoResponse)))
  else fun w => (settle (blob videoResponse), w).

Definition authErrorMessage : string :=
  "API Key session expired or invalid. Please re-select your key.".

(** [error.message?.includes(needle)] *)
Definition messageIncludes (error : JsError) (needle : string) : bool :=
  match message error with
  | Some m => includes m needle
  | None => false
  end.

(** The [catch] block that closes [generateFashionVideo]. *)
Definition normalizeAuth {A} (error : JsError) : M World A :=
  if messageIncludes error "Requested entity was not found" || messageIncludes error "404"
  then throw (newError authErrorMessage)
  else throw error.

(** The two branches that start the job: one image, or up to three
    reference images. *)
Definition createVideoOperation (fullPrompt : string) (file0 : File)
    (others : list File) (config : GenerationConfig) : M World Operation :=
  let orderedFiles := file0 :: others in
  if (length orderedFiles =? 1)%nat then
    imageBase64 <- blobToBase64 file0 ;;
    retryOperation
      (generateVideos (singleImageRequest fullPrompt imageBase64 file0 config))
      5 2000
  else
    let referenceFiles := firstn 3 orderedFiles in
    payload <- referenceImagesPayload referenceFiles ;;
    retryOperation (generateVideos (multiImageRequest fullPrompt payload)) 5 2000.

(** From the started job to the local URL: poll, check, download. *)
Definition awaitVideo (refreshes : list (Outcome Operation)) (apiKey : string)
    (operation : Operation) : M World ObjectURL :=
  operation <- pollLoop refreshes operation ;;
  match error operation with
  | Some failure =>
      throw (newError ("Video generation failed: " ++ interpolate (errorMessage failure)))
  | None =>
      match truthy (videoUriOf operation) with
      | None => throw (newError "No video URI returned.")
      | Some videoUri =>
          videoBlob <- retryOperation (fetchVideo videoUri apiKey) 3 1000 ;;
          ret (createObjectURL videoBlob)
      end
  end.

Definition videoPrompt (config : GenerationConfig) (assetCount : nat) : string :=
  buildCommonPrompt config assetCount ++ " Generate a cinematic video.".

Definition generateFashionVideo (apiKey : option string)
    (refreshes : list (Outcome Operation))
    (assets : UploadedAssets) (config : GenerationConfig) : M World ObjectURL :=
  match truthy apiKey with
  | None => throw (newError "API Key not found.")
  | Some apiKey =>
      match orderedFiles assets with
      | [] => throw (newError "Please upload at least one image.")
      | file0 :: others =>
          let fullPrompt := videoPrompt config (length (file0 :: others)) in
          tryCatch
            (operation <- createVideoOperation fullPrompt file0 others config ;;
             awaitVideo refreshes apiKey operation)
            normalizeAuth
      end
  end.

(** ** Image generation *)

Section ImageGeneration.

(** [atob] of the host: the decoded binary string, or (left) the message
    of the [InvalidCharacterError] it throws. *)
Variable atob : string -> string + string.

Definition invalidCharacterError (msg : string) : JsError :=
  {| name := Some "InvalidCharacterError"; message := Some msg; status := None |}.

(** The body of [for (const file of files)]. *)
Fixpoint inlineParts {W} (files : list File) : M W (list Part) :=
  match files with
  | [] => ret []
  | file :: rest =>
      b64 <- blobToBase64 file ;;
      more <- inlineParts rest ;;
      ret (mkPart (Some (mkInlineData b64 (Some (fileType file)))) None :: more)
  end.

(** [for (const part of candidate.content.parts) if (part.inlineData) ...] *)
Fixpoint firstInlineOfParts (ps : list Part) : option InlineData :=
  match ps with
  | [] => None
  | part :: rest =>
      match inlineData part with
      | Some found => Some found
      | None => firstInlineOfParts rest
      end
  end.

(** [candidate.content && candidate.content.parts] *)
Definition partsOf (candidate : Candidate) : option (list Part) :=
  match content candidate with
  | Some c => parts c
  | None => None
  end.

(** [for (const candidate of response.candidates) ...] *)
Fixpoint firstInlineOfCandidates (cs : list Candidate) : option InlineData :=
  match cs with
  | [] => None
  | candidate :: rest =>
      match partsOf candidate with
      | Some ps =>
          match firstInlineOfParts ps with
          | Some found => Some found
          | None => firstInlineOfCandidates rest
          end
      | None => firstInlineOfCandidates rest
      end
  end.

(** [binary.charCodeAt(i)] for [i] from 0 to [binary.length - 1]. *)
Definition charCodes (binary : string) : list nat :=
  map nat_of_ascii (list_ascii_of_string binary).

(** What the loop does with the inline payload it stops at. *)
Definition materialize {W} (found : InlineData) : M W ObjectURL :=
  let base64Data := data found in
  let mimeType :=
    match inlineMimeType found with
    | Some EmptyString | None => "image/png"
    | Some t => t
    end in
  match atob (interpolate base64Data) with
  | inl msg => throw (invalidCharacterError msg)
  | inr binary => ret (createObjectURL (newBlob (charCodes binary) mimeType))
  end.

Definition noImageData : JsError := newError "No image data found in response.".

Definition extractImage {W} (response : GenerateContentResponse) : M W ObjectURL :=
  match candidates response with
  | Some cs =>
      match firstInlineOfCandidates cs with
      | Some found => materialize found
      | None => throw noImageData
      end
  | None => throw noImageData
  end.

Definition imageRequest (config : GenerationConfig) (parts : list Part)
    : ContentRequest.t :=
  ContentRequest.mk "gemini-3-pro-image-preview" parts
    (match aspectRatio config with
     | ratio_16_9 => ratio_16_9
     | _ => ratio_9_16
     end)
    "2K".

Definition generateFashionImage (apiKey : option string)
    (assets : UploadedAssets) (config : GenerationConfig) : M World ObjectURL :=
  match truthy apiKey with
  | None => throw (newError "API Key not found.")
  | Some apiKey =>
      let files := orderedFiles assets in
      match files with
      | [] => throw (newError "Please upload at least one image.")
      | _ =>
          let fullPrompt :=
            buildCommonPrompt config (length files)
            ++ " Generate a high-quality fashion photograph." in
          imageParts <- inlineParts files ;;
          let parts := (imageParts ++ [mkPart None (Some fullPrompt)])%list in
          tryCatch
            (response <- retryOperation (generateContent (imageRequest config parts))
                           5 2000 ;;
             extractImage response)
            (fun error => throw error)
      end
  end.

End ImageGeneration.

End Service.

(** ** The application shell ([App.tsx]) *)

Inductive AssetType := Top | Bottom | Shoes | Accessories.

(** [assets[type]] *)
Definition slot (type : AssetType) (assets : UploadedAssets) : option File :=
  match type with
  | Top => top assets
  | Bottom => bottom assets
  | Shoes => shoes assets
  | Accessories => accessories assets
  end.

(** [newAssets[type] = file] and [delete newAssets[type]] on a copy. *)
Definition assign (type : AssetType) (value : option File) (prev : UploadedAssets)
    : UploadedAssets :=
  match type with
  | Top => mkAssets value (bottom prev) (shoes prev) (accessories prev)
  | Bottom => mkAssets (top prev) value (shoes prev) (accessories prev)
  | Shoes => mkAssets (top prev) (bottom prev) value (accessories prev)
  | Accessories => mkAssets (top prev) (bottom prev) (shoes prev) value
  end.

(** The updater [handleAssetChange] passes to [setAssets]; [None] is the
    [null] file. *)
Definition handleAssetChange (type : AssetType) (file : option File)
    (prev : UploadedAssets) : UploadedAssets :=
  match file with
  | None => assign type None prev
  | Some f => assign type (Some f) prev
  end.

(** [Object.keys(assets).length] *)
Definition keyCount (assets : UploadedAssets) : nat := length (orderedFiles assets).

Module App.

Inductive AppStatus := idle | uploading | generating | success | error.

(** The state hooks of the component. *)
Record State := mkState {
  assets : UploadedAssets;
  status : AppStatus;
  videoUrl : option ObjectURL;
  errorMsg : option string;
  hasApiKey : bool;
  config : GenerationConfig
}.

Definition setStatus (value : AppStatus) (st : State) : State :=
  mkState (assets st) value (videoUrl st) (errorMsg st) (hasApiKey st) (config st).

Definition setVideoUrl (value : option ObjectURL) (st : State) : State :=
  mkState (assets st) (status st) value (errorMsg st) (hasApiKey st) (config st).

Definition setErrorMsg (value : option string) (st : State) : State :=
  mkState (assets st) (status st) (videoUrl st) value (hasApiKey st) (config st).

Definition setHasApiKey (value : bool) (st : State) : State :=
  mkState (assets st) (status st) (videoUrl st) (errorMsg st) value (config st).

(** The effect run on mount. *)
Definition initKey (window : Window) (st : State) : State :=
  match checkApiKeySelection window with
  | Resolved hasKey => setHasApiKey hasKey st
  | _ => st
  end.

Definition handleKeySelection (window : Window) (st : State) : State :=
  match promptSelectApiKey window with
  | Resolved _ => setHasApiKey true st
  | _ => st
  end.

(** [error.message || fallback] *)
Definition messageOr (thrown : JsError) (fallback : string) : string :=
  match message thrown with
  | Some EmptyString | None => fallback
  | Some m => m
  end.

Definition genericFailure : string := "生成视频时发生错误".

Section Shell.

Context {host : Host}.

(** [handleGenerate], with the state the component is left in once the
    handler has run as far as the world lets it: the state updates are
    applied in the order the handler issues them. *)
Definition handleGenerate (apiKey : option string) (refreshes : list (Outcome Operation))
    (window : Window) (st : State) (w : World) : State * World :=
  let assetCount := keyCount (assets st) in
  if (assetCount =? 0)%nat then (st, w)
  else if negb (hasApiKey st) then (handleKeySelection window st, w)
  else
    let st := setStatus uploading st in
    let st := setErrorMsg None st in
    let st := setVideoUrl None st in
    let st := setStatus generating st in
    match generateFashionVideo apiKey refreshes (assets st) (config st) w with
    | (Resolved resultUri, w') =>
        let st := setVideoUrl (Some resultUri) st in
        (setStatus success st, w')
    | (Rejected thrown, w') =>
        let st := setErrorMsg (Some (messageOr thrown genericFailure)) st in
        let st := setStatus error st in
        (if messageIncludes thrown "API Key" then setHasApiKey false st else st, w')
    | (Pending, w') => (st, w')
    end.

End Shell.

Definition isProcessing (st : State) : bool :=
  match status st with
  | uploading | generating => true
  | _ => false
  end.

Definition isMultiAsset (st : State) : bool := (1 <? keyCount (assets st))%nat.

(** The ratio the result pane is laid out for. *)
Definition effectiveAspectRatio (st : State) : VideoAspectRatio :=
  if isMultiAsset st then ratio_16_9 else aspectRatio (config st).

End App.

(** ** The configuration panel ([ConfigPanel.tsx]) *)

Module ModelCharacter.
Record t := mk {
  id : string;
  name : string;
  gender : Gender;
  desc : string
}.
End ModelCharacter.

Definition MODEL_CHARACTERS : list ModelCharacter.t :=
  [ ModelCharacter.mk "sofia" "Sofia" female "Caucasian female model, blonde hair";
    ModelCharacter.mk "li" "Li" female "East Asian female model, black straight hair";
    ModelCharacter.mk "zara" "Zara" female "Black female model, curly hair";
    ModelCharacter.mk "david" "David" male "Caucasian male model, short brown hair";
    ModelCharacter.mk "ken" "Ken" male "Asian male model, stylish short hair";
    ModelCharacter.mk "marcus" "Marcus" male "Black male model, athletic build" ].

Definition sameGender (a b : Gender) : bool :=
  match a, b with
  | female, female | male, male => true
  | _, _ => false
  end.

(** [MODEL_CHARACTERS.filter(m => m.gender === config.gender)] *)
Definition availableModels (config : GenerationConfig) : list ModelCharacter.t :=
  filter (fun m => sameGender (ModelCharacter.gender m) (gender config)) MODEL_CHARACTERS.

(** A call [updateConfig(key, value)]: the key with a value of its type. *)
Inductive ConfigUpdate :=
| setMode (value : GenerationMode)
| setPrompt (value : string)
| setGender (value : Gender)
| setModelId (value : string)
| setBodyType (value : string)
| setCameraAngle (value : string)
| setStyle (value : string)
| setAspectRatio (value : VideoAspectRatio)
| setMaterialDesc (value : string).

(** [{ ...config, [key]: value }] *)
Definition spread (config : GenerationConfig) (update : ConfigUpdate) : GenerationConfig :=
  match update with
  | setMode v =>
      mkConfig v (prompt config) (gender config) (modelId config) (bodyType config)
        (cameraAngle config) (style config) (aspectRatio config) (materialDesc config)
  | setPrompt v =>
      mkConfig (mode config) v (gender config) (modelId config) (bodyType config)
        (cameraAngle config) (style config) (aspectRatio config) (materialDesc config)
  | setGender v =>
      mkConfig (mode config) (prompt config) v (modelId config) (bodyType config)
        (cameraAngle config) (style config) (aspectRatio config) (materialDesc config)
  | setModelId v =>
      mkConfig (mode config) (prompt config) (gender config) v (bodyType config)
        (cameraAngle config) (style config) (aspectRatio config) (materialDesc config)
  | setBodyType v =>
      mkConfig (mode config) (prompt config) (gender config) (modelId config) v
        (cameraAngle config) (style config) (aspectRatio config) (materialDesc config)
  | setCameraAngle v =>
      mkConfig (mode config) (prompt config) (gender config) (modelId config)
        (bodyType config) v (style config) (aspectRatio config) (materialDesc config)
  | setStyle v =>
      mkConfig (mode config) (prompt config) (gender config) (modelId config)
        (bodyType config) (cameraAngle config) v (aspectRatio config) (materialDesc config)
  | setAspectRatio v =>
      mkConfig (mode config) (prompt config) (gender config) (modelId config)
        (bodyType config) (cameraAngle config) (style config) v (materialDesc config)
  | setMaterialDesc v =>
      mkConfig (mode config) (prompt config) (gender config) (modelId config)
        (bodyType config) (cameraAngle config) (style config) (aspectRatio config) v
  end.

(** [updateConfig]: the configuration handed to [onChange]. *)
Definition updateConfig (config : GenerationConfig) (update : ConfigUpdate)
    : GenerationConfig :=
  match update with
  | setGender value =>
      if negb (sameGender value (gender config)) then
        match find (fun m => sameGender (ModelCharacter.gender m) value) MODEL_CHARACTERS with
        | Some firstModel =>
            mkConfig (mode config) (prompt config) value (ModelCharacter.id firstModel)
              (bodyType config) (cameraAngle config) (style config) (aspectRatio config)
              (materialDesc config)
        | None => spread config update
        end
      else spread config update
  | _ => spread config update
  end.

(** ** A sample host *)

(** The text engines print for a built-in function. *)
Definition nativeCode (name : string) : string :=
  "function " ++ name ++ "() { [native code] }".

(** The members of [Object.prototype] with the text a template literal
    embeds for them. *)
Definition objectPrototype : list (string * string) :=
  [ ("constructor", nativeCode "Object");
    ("__defineGetter__", nativeCode "__defineGetter__");
    ("__defineSetter__", nativeCode "__defineSetter__");
    ("hasOwnProperty", nativeCode "hasOwnProperty");
    ("__lookupGetter__", nativeCode "__lookupGetter__");
    ("__lookupSetter__", nativeCode "__lookupSetter__");
    ("isPrototypeOf", nativeCode "isPrototypeOf");
    ("propertyIsEnumerable", nativeCode "propertyIsEnumerable");
    ("toString", nativeCode "toString");
    ("valueOf", nativeCode "valueOf");
    ("__proto__", "[object Object]");
    ("toLocaleString", nativeCode "toLocaleString") ].

Definition browser : Host := lookup objectPrototype.

Module Base64.

Definition isAsciiWhitespace (c : ascii) : bool :=
  existsb (Nat.eqb (nat_of_ascii c)) [9; 10; 12; 13; 32].

(** The value of a character of the base64 alphabet. *)
Definition sextet (c : ascii) : option nat :=
  let n := nat_of_ascii c in
  if (65 <=? n)%nat && (n <=? 90)%nat then Some (n - 65)
  else if (97 <=? n)%nat && (n <=? 122)%nat then Some (n - 71)
  else if (48 <=? n)%nat && (n <=? 57)%nat then Some (n + 4)
  else if (n =? 43)%nat then Some 62
  else if (n =? 47)%nat then Some 63
  else None.

Fixpoint sextets (cs : list ascii) : option (list nat) :=
  match cs with
  | [] => Some []
  | c :: rest =>
      match sextet c, sextets rest with
      | Some v, Some vs => Some (v :: vs)
      | _, _ => None
      end
  end.

(** Up to two ['='] are dropped from the end of a text whose length is a
    multiple of four. *)
Definition stripPadding (cs : list ascii) : list ascii :=
  if (length cs mod 4 =? 0)%nat then
    match rev cs with
    | "="%char :: "="%char :: front => rev front
    | "="%char :: front => rev front
    | _ => cs
    end
  else cs.

(** Four sextets give three octets; of a rest of three or two sextets the
    last two or four bits are discarded. *)
Fixpoint octets (vs : list nat) : list nat :=
  match vs with
  | a :: b :: c :: d :: rest =>
      (a * 4 + b / 16) :: ((b mod 16) * 16 + c / 4) :: ((c mod 4) * 64 + d) :: octets rest
  | [a; b; c] => [a * 4 + b / 16; (b mod 16) * 16 + c / 4]
  | [a; b] => [a * 4 + b / 16]
  | _ => []
  end.

Definition notCorrectlyEncoded : string :=
  "Failed to execute 'atob' on 'Window': The string to be decoded is not correctly encoded.".

(** [atob] as browsers implement it (forgiving-base64 decode): the binary
    string, or (left) the message of the [InvalidCharacterError]. *)
Definition atob (data : string) : string + string :=
  let cs := filter (fun c => negb (isAsciiWhitespace c)) (list_ascii_of_string data) in
  let cs := stripPadding cs in
  if (length cs mod 4 =? 1)%nat then inl notCorrectlyEncoded
  else
    match sextets cs with
    | Some vs => inr (string_of_list_ascii (map ascii_of_nat (octets vs)))
    | None => inl notCorrectlyEncoded
    end.

End Base64.

(** ** Vocabulary of the properties *)

Section Vocabulary.

Context {host : Host}.

(** What [blobToBase64] resolves to for a file that can be read. *)
Definition base64Of (file : File) : option string :=
  match dataURL file with
  | Some base64String => nth_error (split "," base64String) 1
  | None => None
  end.

Definition readable (file : File) : bool :=
  match dataURL file with
  | Some _ => true
  | None => false
  end.

(** The reference-image entry the multi-image branch builds for a file. *)
Definition referenceOf (file : File) : ReferenceImage :=
  mkReferenceImage (mkImage (base64Of file) (fileType file)) ASSET.

(** Every creation call among the events is the call [request]. *)
Definition createsOnly (request : VideosRequest.t) (ev : Event) : Prop :=
  forall r, ev = CallGenerateVideos r -> r = request.

(** The creation call of the multi-image branch for these assets. *)
Definition multiReferenceRequest (assets : UploadedAssets) (config : GenerationConfig)
    : VideosRequest.t :=
  let files := orderedFiles assets in
  multiImageRequest (videoPrompt config (length files)) (map referenceOf (firstn 3 files)).

(** The creation call of the single-image branch for this file. *)
Definition singleReferenceRequest (file0 : File) (config : GenerationConfig)
    : VideosRequest.t :=
  singleImageRequest (videoPrompt config 1) (base64Of file0) file0 config.

(** Sample inputs. *)
Definition pngFile (payload : string) : File :=
  mkFile "image/png" (Some ("data:image/png;base64," ++ payload)).

Definition sampleConfig : GenerationConfig :=
  mkConfig video "" female "sofia" "slim" "Tracking shot" "runway" ratio_9_16 "".

Definition fourAssets : UploadedAssets :=
  mkAssets (Some (pngFile "VE9Q")) (Some (pngFile "Qk9U"))
           (Some (pngFile "U0hP")) (Some (pngFile "QUND")).

Definition topOnly : UploadedAssets :=
  mkAssets (Some (pngFile "VE9Q")) None None None.

Definition noAssets : UploadedAssets := mkAssets None None None None.

Definition emptyWorld : World := mkWorld [] [] [] [].

(** A refresh answer after which the loop is still polling: an operation
    that is not done, or a failure the loop's [catch] lets pass. *)
Definition keepsPolling (answer : Outcome Operation) : Prop :=
  match answer with
  | Ok refreshed => done refreshed = false
  | Fail error => pollTolerates error = true
  end.

(** The message of the error thrown for a finished job with an error payload. *)
Definition generationFailedMessage (failure : OperationError) : string :=
  "Video generation failed: " ++ interpolate (errorMessage failure).

(** Whether the closing [catch] of [generateFashionVideo] replaces a message. *)
Definition looksExpired (msg : string) : bool :=
  includes msg "Requested entity was not found" || includes msg "404".

Definition lacksKeyCheck (window : Window) : Prop :=
  match aistudio window with
  | Some studio => hasSelectedApiKey studio = None
  | None => True
  end.

Definition pendingJob : Operation := mkOperation false None None "".

Definition finishedJob : Operation :=
  mkOperation true None
    (Some (mkVideosResponse
             (Some [mkGeneratedVideo (Some (mkVideo (Some "https://media.example/v1?alt=media")))])))
    "".

Definition failedJob (msg : string) : Operation :=
  mkOperation true (Some (mkOperationError (Some msg))) None "".

(** A world where the creation call is answered with a pending job and the
    download with a video. *)
Definition jobWorld : World :=
  mkWorld [] [Ok pendingJob] []
    [Ok (mkFetchResponse true 200 (Ok (mkBlob [0; 0; 0; 24] "video/mp4")))].

Definition e503 : JsError := newError "503 Service Unavailable".
Definition e400 : JsError := newError "400 Bad Request".
Definition e429 : JsError := newError "429 Too Many Requests".

(** An SDK error that carries its HTTP status beside a plain message. *)
Definition unavailable : JsError :=
  {| name := Some "ApiError"; message := Some "Service Unavailable"; status := Some 503%Z |}.

Definition notFound : JsError := newError "Requested entity was not found.".

Definition transient (error : JsError) : Prop := isRetryable error = true.

(** The content parts of a response, candidate after candidate, each
    candidate's parts in their order. *)
Definition allParts (response : GenerateContentResponse) : list Part :=
  match candidates response with
  | Some cs =>
      flat_map (fun candidate =>
                  match partsOf candidate with
                  | Some ps => ps
                  | None => []
                  end) cs
  | None => []
  end.

(** The first inline payload among [allParts]. *)
Definition firstInline (response : GenerateContentResponse) : option InlineData :=
  hd_error (definedOnly (map inlineData (allParts response))).

(** [part.inlineData.mimeType || 'image/png'] *)
Definition mimeTypeOrPng (found : InlineData) : string :=
  match inlineMimeType found with
  | Some EmptyString | None => "image/png"
  | Some t => t
  end.

(** The request part built for an uploaded file. *)
Definition inlinePartOf (file : File) : Part :=
  mkPart (Some (mkInlineData (base64Of file) (Some (fileType file)))) None.

(** The parts of the image request: the files, then the prompt. *)
Definition requestParts (assets : UploadedAssets) (config : GenerationConfig) : list Part :=
  let files := orderedFiles assets in
  let fullPrompt :=
    buildCommonPrompt config (length files)
    ++ " Generate a high-quality fashion photograph." in
  (map inlinePartOf files ++ [mkPart None (Some fullPrompt)])%list.

(** A response whose second candidate carries the image. *)
Definition sampleResponse : GenerateContentResponse :=
  mkContentResponse
    (Some [mkCandidate None;
           mkCandidate (Some (mkContent (Some
             [mkPart None (Some "Here is the photograph.");
              mkPart (Some (mkInlineData (Some "iVBORw0KGgo=") (Some "Image/JPEG"))) None;
              mkPart (Some (mkInlineData (Some "AAAA") None)) None])))]).

(** A response whose only inline payload is not base64. *)
Definition garbledResponse : GenerateContentResponse :=
  mkContentResponse
    (Some [mkCandidate (Some (mkContent (Some
             [mkPart (Some (mkInlineData (Some "not base64!") (Some "image/png"))) None])))]).

(** *** Occurrences of a phrase in a text assembled from pieces *)

(** No non-empty ending of [C] is a proper beginning of [needle]: an
    occurrence of [needle] cannot start inside [C] and run past its end. *)
Fixpoint exitFree (needle C : string) : bool :=
  match C with
  | EmptyString => true
  | String _ C' =>
      negb (prefix C needle && (String.length C <? String.length needle)%nat)
      && exitFree needle C'
  end.

(** No non-empty ending [r] of [tail] agrees with [C] on their common
    length. *)
Fixpoint entryFreeFrom (tail C : string) : bool :=
  match tail with
  | EmptyString => true
  | String _ tail' => negb (prefix tail C || prefix C tail) && entryFreeFrom tail' C
  end.

(** An occurrence of [needle] that starts before [C] cannot run into [C]. *)
Definition entryFree (needle C : string) : bool :=
  match needle with
  | EmptyString => true
  | String _ tail => entryFreeFrom tail C
  end.

(** [C] neither contains [needle] nor shares an occurrence with its
    neighbours. *)
Definition inert (needle C : string) : bool :=
  negb (includes C needle) && exitFree needle C && entryFree needle C.

(** [C0 ++ v1 ++ C1 ++ ... ++ vk ++ Ck] for [segments = [(v1, C1); ...]]. *)
Fixpoint weave (C : string) (segments : list (string * string)) : string :=
  match segments with
  | [] => C
  | (v, C') :: more => C ++ v ++ weave C' more
  end.

(** The texts the configuration contributes verbatim do not contain [phrase]. *)
Definition freeTextAvoids (phrase : string) (config : GenerationConfig) : Prop :=
  includes (style config) phrase = false
  /\ includes (materialDesc config) phrase = false
  /\ includes (cameraAngle config) phrase = false.

(** Where the model id or the body type names a member of
    [Object.prototype], the text the host prints for it does not contain
    [phrase]. *)
Definition inheritedTextAvoids (phrase : string) (config : GenerationConfig) : Prop :=
  forall key text,
    key = modelId config \/ key = bodyType config ->
    inherited key = Some text ->
    includes text phrase = false.

(** The fixed text between the style and the material description, and
    between the material description and the camera angle. *)
Definition afterStyle (assetCount : nat) (config : GenerationConfig) : string :=
  " setting. "
  ++ (if (1 <? assetCount)%nat then completeOutfit else exactOutfit)
  ++ match materialDesc config with
     | EmptyString =>
         "Preserve the exact fabric texture, material weight, and reflectivity of the original clothing. "
     | _ => "The clothing is made of "
     end.

Definition afterMaterial (config : GenerationConfig) : string :=
  match materialDesc config with
  | EmptyString => "Camera Angle: "
  | _ => ". Accurately render the physical properties, weight, and texture of this material. Camera Angle: "
  end.

Definition baseModelDescOf (config : GenerationConfig) : string :=
  lookupOr MODEL_DESCRIPTIONS (modelId config)
    ("a " ++ genderText (gender config) ++ " model").

Definition bodyAdjectiveOf (config : GenerationConfig) : string :=
  lookupOr BODY_TYPE_PROMPTS (bodyType config) "slender".

(** The prompt as fixed text woven with what the configuration supplies. *)
Definition promptSegments (config : GenerationConfig) (assetCount : nat)
    : list (string * string) :=
  [ (baseModelDescOf config, " with a ");
    (bodyAdjectiveOf config, " body type in a ");
    (style config, afterStyle assetCount config);
    (materialDesc config, afterMaterial config);
    (cameraAngle config, fidelityBoilerplate) ].

(** A model id that names a member of [Object.prototype]. *)
Definition constructorConfig : GenerationConfig :=
  mkConfig video "" female "constructor" "slim" "Tracking shot" "runway" ratio_9_16 "".

Definition denimConfig : GenerationConfig :=
  mkConfig video "" female "sofia" "slim" "Tracking shot" "runway" ratio_9_16
    "denim, part of a complete outfit".

(** *** Traces *)

(** [w'] is [w] with further events, all of them in [Q]. *)
Definition extends (Q : Event -> Prop) (w w' : World) : Prop :=
  exists new, trace w' = (trace w ++ new)%list /\ Forall Q new.

Definition emitsOnly {A} (Q : Event -> Prop) (m : M World A) : Prop :=
  forall w, extends Q w (snd (m w)).

(** Every value [m] resolves to is in [P]. *)
Definition yields {W A} (P : A -> Prop) (m : M W A) : Prop :=
  forall w a w', m w = (Resolved a, w') -> P a.

(** The first thing [m] does is emit [ev]. *)
Definition startsWith {A} (ev : Event) (m : M World A) : Prop :=
  forall w, exists more, trace (snd (m w)) = (trace w ++ ev :: more)%list.

Definition anyEvent : Event -> Prop := fun _ => True.

(** *** Counting *)

(** The time slept in all, in milliseconds. *)
Definition totalDelay (slept : list Z) : Z := fold_right Z.add 0%Z slept.

Definition isCreation (ev : Event) : bool :=
  match ev with CallGenerateVideos _ => true | _ => false end.

Definition isRefresh (ev : Event) : bool :=
  match ev with CallGetVideosOperation _ => true | _ => false end.

Definition isContentCall (ev : Event) : bool :=
  match ev with CallGenerateContent _ => true | _ => false end.

Definition isFetch (ev : Event) : bool :=
  match ev with CallFetch _ => true | _ => false end.

(** How many of the events are of one kind. *)
Definition countOf (kind : Event -> bool) (events : list Event) : nat :=
  length (filter kind events).

(** [m] adds at most [n] events of the kind to the trace. *)
Definition emitsAtMost {A} (kind : Event -> bool) (n : nat) (m : M World A) : Prop :=
  forall w, exists new,
    trace (snd (m w)) = (trace w ++ new)%list /\ countOf kind new <= n.

(** One turn of the polling loop as it shows in the trace. *)
Definition pollTurn (operation : Operation) : list Event :=
  [Timer 5000; CallGetVideosOperation operation].

(** *** Runs of the video entry point *)

(** What [generateFashionVideo] does with the operation the loop ends on. *)
Definition deliverVideo (apiKey : string) (operation : Operation) : M World ObjectURL :=
  match error operation with
  | Some failure =>
      throw (newError ("Video generation failed: " ++ interpolate (errorMessage failure)))
  | None =>
      match truthy (videoUriOf operation) with
      | None => throw (newError "No video URI returned.")
      | Some videoUri =>
          videoBlob <- retryOperation (fetchVideo videoUri apiKey) 3 1000 ;;
          ret (createObjectURL videoBlob)
      end
  end.

(** A run of [generateFashionVideo] from [w] gets a job started, leaving the
    world [w1], with the non-empty key [key]. *)
Definition jobStarted (apiKey : option string) (assets : UploadedAssets)
    (config : GenerationConfig) (w : World) (key : string) (started : Operation)
    (w1 : World) : Prop :=
  truthy apiKey = Some key
  /\ exists file0 others,
      orderedFiles assets = file0 :: others
      /\ createVideoOperation (videoPrompt config (length (file0 :: others)))
           file0 others config w = (Resolved started, w1).

(** The refresh answers keep the loop polling until [final], which is done. *)
Definition pollsUntil (started : Operation) (refreshes : list (Outcome Operation))
    (final : Operation) : Prop :=
  done started = false
  /\ done final = true
  /\ exists waits rest,
      refreshes = (waits ++ Ok final :: rest)%list /\ Forall keepsPolling waits.

(** What the error of the closing [catch] is for a thrown error. *)
Definition normalized (thrown : JsError) : JsError :=
  if messageIncludes thrown "Requested entity was not found"
     || messageIncludes thrown "404"
  then newError authErrorMessage
  else thrown.

(** [`Download failed: ${status}`] *)
Definition downloadFailed (response : FetchResponse) : JsError :=
  newError ("Download failed: " ++ numberText (httpStatus response)).

(** The URL the video is fetched from. *)
Definition downloadUrl (videoUri key : string) : string := videoUri ++ "&key=" ++ key.

Definition refused (code : Z) : FetchResponse :=
  mkFetchResponse false code (Fail (newError "body unavailable")).

Definition delivered (payload : Blob) : FetchResponse :=
  mkFetchResponse true 200 (Ok payload).

Definition sampleVideo : Blob := mkBlob [0; 0; 0; 24] "video/mp4".

(** The world of a single-image run right after the creation call was
    answered, with the download answers still to come. *)
Definition startedWorld (fetches : list (Outcome FetchResponse)) : World :=
  mkWorld [CallGenerateVideos (singleReferenceRequest (pngFile "VE9Q") sampleConfig)]
    [] [] fetches.

Definition askingWorld (fetches : list (Outcome FetchResponse)) : World :=
  mkWorld [] [Ok pendingJob] [] fetches.

Definition unreadableFile : File := mkFile "image/png" None.

(** The waits a video run may take: the polling interval and the backoff
    delays of the creation and of the download. *)
Definition videoWaits : list Z := [5000; 2000; 4000; 8000; 16000; 1000]%Z.

(** What a video run may add to the trace. *)
Definition videoEvent (ev : Event) : Prop :=
  match ev with
  | Timer ms => In ms videoWaits
  | CallGenerateContent _ => False
  | _ => True
  end.

(** What an image run may add to the trace. *)
Definition imageEvent (assets : UploadedAssets) (config : GenerationConfig)
    (ev : Event) : Prop :=
  match ev with
  | CallGenerateContent request => request = imageRequest config (requestParts assets config)
  | Timer ms => In ms [2000; 4000; 8000; 16000]%Z
  | _ => False
  end.

(** Two configurations agree on everything the prompt builder reads, the
    gender apart. *)
Definition samePromptInputs (c1 c2 : GenerationConfig) : Prop :=
  modelId c1 = modelId c2
  /\ bodyType c1 = bodyType c2
  /\ style c1 = style c2
  /\ cameraAngle c1 = cameraAngle c2
  /\ materialDesc c1 = materialDesc c2.

Definition otherConfig : GenerationConfig :=
  mkConfig image "a seed that is not used" male "sofia" "slim" "Tracking shot" "runway"
    ratio_16_9 "".

(** *** The application shell and the panel *)

(** What the result pane relies on: a URL and no message in [success], a
    message and no URL in [error], neither otherwise. *)
Definition displayCoherent (st : App.State) : Prop :=
  match App.status st with
  | App.success => App.videoUrl st <> None /\ App.errorMsg st = None
  | App.error => App.videoUrl st = None /\ App.errorMsg st <> None
  | _ => App.videoUrl st = None /\ App.errorMsg st = None
  end.

(** The selected persona is one of the panel's and has the selected gender. *)
Definition personaCoherent (config : GenerationConfig) : Prop :=
  exists m, In m MODEL_CHARACTERS
            /\ ModelCharacter.id m = modelId config
            /\ ModelCharacter.gender m = gender config.

(** An update the panel's controls can produce: a persona is only picked
    among those shown for the current gender. *)
Definition offered (config : GenerationConfig) (update : ConfigUpdate) : Prop :=
  match update with
  | setModelId value => In value (map ModelCharacter.id (availableModels config))
  | _ => True
  end.

(** The creation calls among the events ask for the ratio [ratio]. *)
Definition asksRatio (ratio : VideoAspectRatio) (ev : Event) : Prop :=
  forall r, ev = CallGenerateVideos r ->
            VideosRequest.aspectRatio (VideosRequest.config r) = ratio.

Definition readyState (assets : UploadedAssets) : App.State :=
  App.mkState assets App.idle None None true sampleConfig.

(** What [k] failed attempts of a call leave in the trace when each is
    retried: the call, then the backoff delay of its index. *)
Definition retriedCalls (call : Event) (baseDelay : Z) (first k : nat) : list Event :=
  flat_map (fun j => [call; Timer (baseDelay * 2 ^ Z.of_nat j)%Z]) (seq first k).

(** The creation request a run sends for these assets. *)
Definition creationRequest (assets : UploadedAssets) (config : GenerationConfig)
    : VideosRequest.t :=
  match orderedFiles assets with
  | [file0] => singleReferenceRequest file0 config
  | _ => multiReferenceRequest assets config
  end.

(** What the image run ends with once it holds a response. *)
Definition imageOutcome (atob : string -> string + string)
    (response : GenerateContentResponse) : Completion ObjectURL :=
  match firstInline response with
  | Some found =>
      match atob (interpolate (data found)) with
      | inr binary =>
          Resolved (createObjectURL (newBlob (charCodes binary) (mimeTypeOrPng found)))
      | inl msg => Rejected (invalidCharacterError msg)
      end
  | None => Rejected noImageData
  end.

End Vocabulary.

(** * Properties *)

Section Properties.

Context {host : Host}.

(** ** Retry wrapper *)

Lemma backoff_snoc (b : Z) (k : nat) :
  backoff b (S k) = (backoff b k ++ [(b * 2 ^ Z.of_nat k)%Z])%list.
Proof. unfold backoff. now rewrite seq_S, map_app. Qed.

Section RetryOnProbe.

Context {T : Type}.
Variables (retries : nat) (baseDelay : Z).

(** One transient failure that is not the last attempt: the probe counts
    the call, the loop sleeps [baseDelay * 2^i] and moves to index [i+1]. *)
Lemma retryLoop_step_transient (e : JsError) (tail : list (Outcome T))
    (i remaining c : nat) (d : list Z) :
  transient e -> S i < retries ->
  retryLoop invoke retries baseDelay i (S remaining) (mkProbe (Fail e :: tail) c d)
  = retryLoop invoke retries baseDelay (S i) remaining
      (mkProbe tail (S c) (d ++ [(baseDelay * 2 ^ Z.of_nat i)%Z])).
Proof.
  intros He Hi. simpl. unfold tryCatch, invoke. simpl.
  rewrite He. simpl.
  destruct (Nat.eqb_spec i (retries - 1)) as [E|_]; [lia|].
  reflexivity.
Qed.

(** A run of transient failures, none of them the last attempt. *)
Lemma retryLoop_skip_transient (es : list JsError) :
  forall (tail : list (Outcome T)) (i remaining c : nat),
    Forall transient es ->
    i + length es < retries ->
    retryLoop invoke retries baseDelay i (length es + remaining)
      (mkProbe (map Fail es ++ tail) c (backoff baseDelay i))
    = retryLoop invoke retries baseDelay (i + length es) remaining
        (mkProbe tail (c + length es) (backoff baseDelay (i + length es))).
Proof.
  induction es as [|e es IH]; intros tail i remaining c Hes Hlt; simpl in *.
  - now rewrite !Nat.add_0_r.
  - inversion Hes as [|? ? He Hes']; subst.
    change (retryLoop invoke retries baseDelay i (S (length es + remaining))
              (mkProbe (Fail e :: (map Fail es ++ tail)%list) c (backoff baseDelay i))
            = retryLoop invoke retries baseDelay (i + S (length es)) remaining
                (mkProbe tail (c + S (length es))
                   (backoff baseDelay (i + S (length es))))).
    rewrite retryLoop_step_transient by (assumption || lia).
    rewrite <- backoff_snoc.
    rewrite IH by (assumption || lia).
    now rewrite !Nat.add_succ_r.
Qed.

Lemma retryLoop_settles_ok (v : T) (rest : list (Outcome T))
    (i remaining c : nat) (d : list Z) :
  retryLoop invoke retries baseDelay i (S remaining) (mkProbe (Ok v :: rest) c d)
  = (Resolved v, mkProbe rest (S c) d).
Proof. reflexivity. Qed.

Lemma retryLoop_settles_fatal (e : JsError) (rest : list (Outcome T))
    (i remaining c : nat) (d : list Z) :
  isRetryable e = false ->
  retryLoop invoke retries baseDelay i (S remaining) (mkProbe (Fail e :: rest) c d)
  = (Rejected e, mkProbe rest (S c) d).
Proof.
  intro He. simpl. unfold tryCatch, invoke. simpl. now rewrite He.
Qed.

Lemma retryLoop_settles_last (e : JsError) (rest : list (Outcome T))
    (i remaining c : nat) (d : list Z) :
  S i = retries ->
  retryLoop invoke retries baseDelay i (S remaining) (mkProbe (Fail e :: rest) c d)
  = (Rejected e, mkProbe rest (S c) d).
Proof.
  intro Hi. simpl. unfold tryCatch, invoke. simpl.
  destruct (Nat.eqb_spec i (retries - 1)) as [_|E]; [|lia].
  now rewrite orb_true_r.
Qed.

End RetryOnProbe.

(** C2, as the code has it.  Let the wrapped operation fail [k] times in a
    row with transient errors.  If [k < n] and the next invocation succeeds,
    the success value is returned after exactly [k + 1] invocations (3 when
    it failed twice, which needs [n >= 3]); if [k < n] and the next
    invocation fails with an error that is not transient, that error
    propagates after exactly [k + 1] invocations (1 when it is the first);
    if the next transient failure is the [n]-th invocation, it propagates
    and nothing is invoked after it.  In all three cases the delay slept
    after failed attempt [i] is [b * 2^i], and none is slept after the
    last invocation. *)
Theorem retryOperation_backoff (T : Type) (n : nat) (b : Z)
    (es : list JsError) (rest : list (Outcome T)) :
  Forall transient es ->
  (forall v, length es < n ->
     retryOperation invoke n b (fresh (map Fail es ++ Ok v :: rest))
     = (Resolved v, mkProbe rest (S (length es)) (backoff b (length es))))
  /\ (forall e, isRetryable e = false -> length es < n ->
     retryOperation invoke n b (fresh (map Fail es ++ Fail e :: rest))
     = (Rejected e, mkProbe rest (S (length es)) (backoff b (length es))))
  /\ (forall e, transient e -> S (length es) = n ->
     retryOperation invoke n b (fresh (map Fail es ++ Fail e :: rest))
     = (Rejected e, mkProbe rest n (backoff b (length es)))).
Proof.
  intro Hes. unfold retryOperation, fresh.
  assert (Hskip : forall (tail : list (Outcome T)) m, length es + S m = n ->
            retryLoop invoke n b 0 n (mkProbe (map Fail es ++ tail) 0 [])
            = retryLoop invoke n b (length es) (S m)
                (mkProbe tail (length es) (backoff b (length es)))).
  { intros tail m Hn.
    rewrite <- Hn at 2.
    change (@nil Z) with (backoff b 0).
    rewrite (retryLoop_skip_transient n b es tail 0 (S m) 0) by (assumption || simpl; lia).
    reflexivity. }
  repeat split.
  - intros v Hlt.
    rewrite (Hskip _ (n - S (length es))) by lia.
    apply retryLoop_settles_ok.
  - intros e He Hlt.
    rewrite (Hskip _ (n - S (length es))) by lia.
    now apply retryLoop_settles_fatal.
  - intros e He Hn.
    rewrite (Hskip _ 0) by lia.
    subst n. now apply retryLoop_settles_last.
Qed.

(** ** What an action adds to the trace *)

Lemma extends_refl Q w : extends Q w w.
Proof. exists []. split; [now rewrite app_nil_r | constructor]. Qed.

Lemma extends_trans Q w1 w2 w3 :
  extends Q w1 w2 -> extends Q w2 w3 -> extends Q w1 w3.
Proof.
  intros (n1 & E1 & F1) (n2 & E2 & F2). exists (n1 ++ n2)%list. split.
  - now rewrite E2, E1, app_assoc.
  - now apply Forall_app.
Qed.

Lemma extends_record (Q : Event -> Prop) ev w : Q ev -> extends Q w (record ev w).
Proof. intro H. exists [ev]. split; [reflexivity | now constructor]. Qed.

Lemma emitsOnly_ret {A} Q (a : A) : emitsOnly Q (ret a).
Proof. intro w. apply extends_refl. Qed.

Lemma emitsOnly_throw {A} Q e : emitsOnly Q (@throw World A e).
Proof. intro w. apply extends_refl. Qed.

Lemma emitsOnly_bind_yields {A B} Q (P : A -> Prop) (m : M World A) (k : A -> M World B) :
  emitsOnly Q m -> yields P m -> (forall a, P a -> emitsOnly Q (k a)) ->
  emitsOnly Q (bind m k).
Proof.
  intros Hm Hy Hk w. unfold bind. specialize (Hm w).
  destruct (m w) as [[a|e|] w1] eqn:E; simpl in *; try assumption.
  eapply extends_trans; [exact Hm|]. apply Hk. eapply Hy; eassumption.
Qed.

Lemma emitsOnly_bind {A B} Q (m : M World A) (k : A -> M World B) :
  emitsOnly Q m -> (forall a, emitsOnly Q (k a)) -> emitsOnly Q (bind m k).
Proof.
  intros Hm Hk. apply emitsOnly_bind_yields with (P := fun _ => True); auto.
  intros w a w' _. exact I.
Qed.

Lemma emitsOnly_tryCatch {A} Q (m : M World A) handler :
  emitsOnly Q m -> (forall e, emitsOnly Q (handler e)) -> emitsOnly Q (tryCatch m handler).
Proof.
  intros Hm Hh w. unfold tryCatch. specialize (Hm w).
  destruct (m w) as [[a|e|] w1] eqn:E; simpl in *; try assumption.
  eapply extends_trans; [exact Hm|]. apply Hh.
Qed.

Lemma emitsOnly_sleep (Q : Event -> Prop) ms : Q (Timer ms) -> emitsOnly Q (sleep ms).
Proof. intros H w. now apply extends_record. Qed.

Lemma emitsOnly_generateVideos (Q : Event -> Prop) request :
  Q (CallGenerateVideos request) -> emitsOnly Q (generateVideos request).
Proof.
  intros H w. unfold generateVideos. simpl.
  destruct (videoAnswers w); simpl; now apply extends_record.
Qed.

Lemma emitsOnly_generateContent (Q : Event -> Prop) request :
  Q (CallGenerateContent request) -> emitsOnly Q (generateContent request).
Proof.
  intros H w. unfold generateContent. simpl.
  destruct (contentAnswers w); simpl; now apply extends_record.
Qed.

Lemma emitsOnly_fetch (Q : Event -> Prop) url :
  Q (CallFetch url) -> emitsOnly Q (fetch url).
Proof.
  intros H w. unfold fetch. simpl.
  destruct (fetchAnswers w); simpl; now apply extends_record.
Qed.

Lemma emitsOnly_retryLoop {T} (Q : Event -> Prop) (fn : M World T) retries baseDelay :
  emitsOnly Q fn -> (forall ms, Q (Timer ms)) ->
  forall remaining i, emitsOnly Q (retryLoop fn retries baseDelay i remaining).
Proof.
  intros Hfn Ht. induction remaining as [|r IH]; intro i; simpl.
  - apply emitsOnly_throw.
  - apply emitsOnly_tryCatch; [assumption|]. intro e.
    destruct (negb (isRetryable e) || (i =? retries - 1)%nat).
    + apply emitsOnly_throw.
    + apply emitsOnly_bind; [now apply emitsOnly_sleep | intros _; apply IH].
Qed.

Lemma emitsOnly_retryOperation {T} (Q : Event -> Prop) (fn : M World T) retries baseDelay :
  emitsOnly Q fn -> (forall ms, Q (Timer ms)) ->
  emitsOnly Q (retryOperation fn retries baseDelay).
Proof. intros. now apply emitsOnly_retryLoop. Qed.

Lemma emitsOnly_pollLoop (Q : Event -> Prop) :
  (forall ms, Q (Timer ms)) -> (forall op, Q (CallGetVideosOperation op)) ->
  forall refreshes operation, emitsOnly Q (pollLoop refreshes operation).
Proof.
  intros Ht Hc.
  assert (Hstep : forall operation (next : M World Operation),
            (forall w, extends Q w (snd (next w))) ->
            emitsOnly Q (sleep 5000 ;;; (fun w => next (record (CallGetVideosOperation operation) w)))).
  { intros operation next Hn. apply emitsOnly_bind; [now apply emitsOnly_sleep|].
    intros _ w. simpl. eapply extends_trans; [apply extends_record, Hc | apply Hn]. }
  induction refreshes as [|answer rest IH]; intro operation; simpl;
    destruct (done operation); try apply emitsOnly_ret.
  - apply (Hstep operation (fun w => (Pending, w))). intro w. apply extends_refl.
  - apply (Hstep operation
             (fun w => match answer with
                       | Ok refreshed => pollLoop rest refreshed w
                       | Fail error =>
                           if pollTolerates error then pollLoop rest operation w
                           else (Rejected error, w)
                       end)).
    intro w. destruct answer as [refreshed|error].
    + apply IH.
    + destruct (pollTolerates error); [apply IH | apply extends_refl].
Qed.

Lemma emitsOnly_fetchVideo (Q : Event -> Prop) videoUri apiKey :
  (forall url, Q (CallFetch url)) -> emitsOnly Q (fetchVideo videoUri apiKey).
Proof.
  intro H. unfold fetchVideo. apply emitsOnly_bind; [now apply emitsOnly_fetch|].
  intro r. destruct (negb (ok r)); [apply emitsOnly_throw|].
  intro w. apply extends_refl.
Qed.

Lemma emitsOnly_normalizeAuth {A} Q e : emitsOnly Q (@normalizeAuth A e).
Proof. unfold normalizeAuth. destruct (_ || _); apply emitsOnly_throw. Qed.

(** What follows a started operation: polling, then the download. *)
Lemma emitsOnly_awaitVideo (Q : Event -> Prop) refreshes apiKey operation :
  (forall ms, Q (Timer ms)) -> (forall op, Q (CallGetVideosOperation op)) ->
  (forall url, Q (CallFetch url)) ->
  emitsOnly Q (awaitVideo refreshes apiKey operation).
Proof.
  intros Ht Hc Hf. apply emitsOnly_bind; [now apply emitsOnly_pollLoop|].
  intro op. destruct (error op); [apply emitsOnly_throw|].
  destruct (truthy (videoUriOf op)); [|apply emitsOnly_throw].
  apply emitsOnly_bind; [|intro; apply emitsOnly_ret].
  apply emitsOnly_retryOperation; [now apply emitsOnly_fetchVideo | assumption].
Qed.

(** ** Asset encoding *)

Lemma blobToBase64_run {W} (file : File) (w : W) :
  blobToBase64 file w
  = if readable file then (Resolved (base64Of file), w)
    else (Rejected readerErrorEvent, w).
Proof. unfold blobToBase64, readable, base64Of. now destruct (dataURL file). Qed.

Lemma referenceImagesPayload_run {W} (files : list File) (w : W) :
  referenceImagesPayload files w
  = if forallb readable files then (Resolved (map referenceOf files), w)
    else (Rejected readerErrorEvent, w).
Proof.
  induction files as [|file rest IH]; simpl; [reflexivity|].
  unfold bind at 1. rewrite blobToBase64_run.
  destruct (readable file); simpl; [|reflexivity].
  unfold bind at 1. rewrite IH.
  now destruct (forallb readable rest).
Qed.

Lemma emitsOnly_silent {A} Q (m : M World A) :
  (forall w, snd (m w) = w) -> emitsOnly Q m.
Proof. intros H w. rewrite H. apply extends_refl. Qed.

Lemma blobToBase64_silent {W} (file : File) (w : W) : snd (blobToBase64 file w) = w.
Proof. rewrite blobToBase64_run. now destruct (readable file). Qed.

Lemma referenceImagesPayload_silent {W} (files : list File) (w : W) :
  snd (referenceImagesPayload files w) = w.
Proof. rewrite referenceImagesPayload_run. now destruct (forallb readable files). Qed.

(** ** The first event of an action *)

Lemma startsWith_generateVideos request :
  startsWith (CallGenerateVideos request) (generateVideos request).
Proof.
  intro w. exists []. unfold generateVideos. simpl.
  now destruct (videoAnswers w).
Qed.

Lemma startsWith_then {A B} ev (m : M World A) (k : A -> M World B) :
  startsWith ev m -> (forall a, emitsOnly anyEvent (k a)) -> startsWith ev (bind m k).
Proof.
  intros Hm Hk w. unfold bind. destruct (Hm w) as (more & E).
  destruct (m w) as [[a|e|] w1]; simpl in *; eauto.
  destruct (Hk a w1) as (new & E' & _).
  exists (more ++ new)%list. rewrite E', E, <- app_assoc. reflexivity.
Qed.

Lemma startsWith_tryCatch {A} ev (m : M World A) handler :
  startsWith ev m -> (forall e, emitsOnly anyEvent (handler e)) ->
  startsWith ev (tryCatch m handler).
Proof.
  intros Hm Hh w. unfold tryCatch. destruct (Hm w) as (more & E).
  destruct (m w) as [[a|e|] w1]; simpl in *; eauto.
  destruct (Hh e w1) as (new & E' & _).
  exists (more ++ new)%list. rewrite E', E, <- app_assoc. reflexivity.
Qed.

Lemma startsWith_retryOperation {T} ev (fn : M World T) retries baseDelay :
  startsWith ev fn -> emitsOnly anyEvent fn ->
  startsWith ev (retryOperation fn (S retries) baseDelay).
Proof.
  intros Hs He. unfold retryOperation. simpl.
  apply startsWith_tryCatch; [assumption|]. intro e.
  destruct (_ || _); [apply emitsOnly_throw|].
  apply emitsOnly_bind; [now apply emitsOnly_sleep|].
  intros _. apply emitsOnly_retryLoop; [assumption | exact (fun _ => I)].
Qed.

Lemma startsWith_video_run refreshes apiKey request :
  startsWith (CallGenerateVideos request)
    (tryCatch
       (operation <- retryOperation (generateVideos request) 5 2000 ;;
        awaitVideo refreshes apiKey operation)
       normalizeAuth).
Proof.
  apply startsWith_tryCatch; [|intro; apply emitsOnly_normalizeAuth].
  apply startsWith_then.
  - apply startsWith_retryOperation; [apply startsWith_generateVideos|].
    now apply emitsOnly_generateVideos.
  - intro op. apply emitsOnly_awaitVideo; intros; exact I.
Qed.

(** ** Video dispatch *)

Lemma emitsOnly_ext {A} Q (m m' : M World A) :
  (forall w, m w = m' w) -> emitsOnly Q m' -> emitsOnly Q m.
Proof. intros E H w. rewrite E. apply H. Qed.

Lemma createVideoOperation_multi fullPrompt file0 file1 rest config w :
  createVideoOperation fullPrompt file0 (file1 :: rest) config w
  = if forallb readable (firstn 3 (file0 :: file1 :: rest))
    then retryOperation
           (generateVideos
              (multiImageRequest fullPrompt
                 (map referenceOf (firstn 3 (file0 :: file1 :: rest))))) 5 2000 w
    else (Rejected readerErrorEvent, w).
Proof.
  unfold createVideoOperation. cbn [length Nat.eqb]. cbv zeta.
  unfold bind at 1. rewrite referenceImagesPayload_run.
  now destruct (forallb readable _).
Qed.

Lemma createVideoOperation_single fullPrompt file0 config w :
  createVideoOperation fullPrompt file0 [] config w
  = if readable file0
    then retryOperation
           (generateVideos (singleImageRequest fullPrompt (base64Of file0) file0 config))
           5 2000 w
    else (Rejected readerErrorEvent, w).
Proof.
  unfold createVideoOperation. cbn [length Nat.eqb]. cbv zeta.
  unfold bind at 1. rewrite blobToBase64_run.
  now destruct (readable file0).
Qed.

Lemma createsOnly_self request : createsOnly request (CallGenerateVideos request).
Proof. intros r E. now inversion E. Qed.

Lemma emitsOnly_video_run request refreshes apiKey (create : M World Operation) :
  (forall w, create w = retryOperation (generateVideos request) 5 2000 w
             \/ create w = (Rejected readerErrorEvent, w)) ->
  emitsOnly (createsOnly request)
    (tryCatch (operation <- create ;; awaitVideo refreshes apiKey operation) normalizeAuth).
Proof.
  intro Hcreate.
  apply emitsOnly_tryCatch; [|intro; apply emitsOnly_normalizeAuth].
  apply emitsOnly_bind.
  - intro w. destruct (Hcreate w) as [E|E]; rewrite E.
    + apply emitsOnly_retryOperation.
      * apply emitsOnly_generateVideos, createsOnly_self.
      * intros ms r E'. discriminate E'.
    + apply extends_refl.
  - intro op. apply emitsOnly_awaitVideo; intros ? r E; discriminate E.
Qed.

(** C1.  With two or more slots filled, every video creation call the run
    issues is the multi-reference call whose reference images are the first
    three files in the order top, bottom, shoes, accessories, and whose
    aspect ratio is 16:9 whatever the configuration asks for; and when a
    key is configured and those files can be read, that call is the first
    thing the run does. *)
Theorem multi_asset_video_call (apiKey : option string)
    (refreshes : list (Outcome Operation)) (assets : UploadedAssets)
    (config : GenerationConfig) (w : World) :
  2 <= length (orderedFiles assets) ->
  let request := multiReferenceRequest assets config in
  let w' := snd (generateFashionVideo apiKey refreshes assets config w) in
  VideosRequest.referenceImages (VideosRequest.config request)
    = Some (map referenceOf (firstn 3 (orderedFiles assets)))
  /\ VideosRequest.image request = None
  /\ VideosRequest.aspectRatio (VideosRequest.config request) = ratio_16_9
  /\ extends (createsOnly request) w w'
  /\ (truthy apiKey <> None ->
      forallb readable (firstn 3 (orderedFiles assets)) = true ->
      exists more, trace w' = (trace w ++ CallGenerateVideos request :: more)%list).
Proof.
  intros Hlen request w'. subst request w'. unfold multiReferenceRequest.
  destruct (orderedFiles assets) as [|file0 [|file1 rest]] eqn:Hfiles;
    try (simpl in Hlen; lia).
  repeat split.
  - unfold generateFashionVideo. rewrite Hfiles.
    destruct (truthy apiKey) as [key|]; [|apply extends_refl].
    apply emitsOnly_video_run. intro w0.
    rewrite createVideoOperation_multi.
    destruct (forallb readable _); auto.
  - intros Hkey Hread. unfold generateFashionVideo. rewrite Hfiles.
    destruct (truthy apiKey) as [key|]; [|contradiction].
    pose proof (startsWith_video_run refreshes key
                  (multiImageRequest (videoPrompt config (length (file0 :: file1 :: rest)))
                     (map referenceOf (firstn 3 (file0 :: file1 :: rest)))) w) as Hs.
    unfold tryCatch, bind in Hs |- *.
    rewrite createVideoOperation_multi, Hread. exact Hs.
Qed.

(** C8.  With exactly one slot filled, every video creation call the run
    issues is the single-image call for that file, with the aspect ratio
    of the configuration, whichever of the two it is; and when a key is
    configured and the file can be read, that call is the first thing the
    run does. *)
Theorem single_asset_video_call (apiKey : option string)
    (refreshes : list (Outcome Operation)) (assets : UploadedAssets)
    (config : GenerationConfig) (w : World) (file0 : File) :
  orderedFiles assets = [file0] ->
  let request := singleReferenceRequest file0 config in
  let w' := snd (generateFashionVideo apiKey refreshes assets config w) in
  VideosRequest.aspectRatio (VideosRequest.config request) = aspectRatio config
  /\ VideosRequest.image request = Some (mkImage (base64Of file0) (fileType file0))
  /\ VideosRequest.referenceImages (VideosRequest.config request) = None
  /\ extends (createsOnly request) w w'
  /\ (truthy apiKey <> None -> readable file0 = true ->
      exists more, trace w' = (trace w ++ CallGenerateVideos request :: more)%list).
Proof.
  intros Hfiles request w'. subst request w'. unfold singleReferenceRequest.
  repeat split.
  - unfold generateFashionVideo. rewrite Hfiles.
    destruct (truthy apiKey) as [key|]; [|apply extends_refl].
    apply emitsOnly_video_run. intro w0.
    rewrite createVideoOperation_single.
    destruct (readable file0); auto.
  - intros Hkey Hread. unfold generateFashionVideo. rewrite Hfiles.
    destruct (truthy apiKey) as [key|]; [|contradiction].
    pose proof (startsWith_video_run refreshes key
                  (singleImageRequest (videoPrompt config 1) (base64Of file0) file0 config)
                  w) as Hs.
    unfold tryCatch, bind in Hs |- *.
    rewrite createVideoOperation_single, Hread. exact Hs.
Qed.

(** ** Credential gate *)

(** C10.  Without the host's [hasSelectedApiKey] capability the check
    resolves to [true]. *)
Theorem checkApiKeySelection_fallback (window : Window) :
  lacksKeyCheck window -> checkApiKeySelection window = Resolved true.
Proof.
  unfold lacksKeyCheck, checkApiKeySelection.
  destruct (aistudio window) as [studio|]; [|reflexivity].
  now intros ->.
Qed.

(** ** Polling *)

Lemma pollLoop_done refreshes operation w :
  done operation = true -> pollLoop refreshes operation w = (Resolved operation, w).
Proof. intro H. destruct refreshes; simpl; now rewrite H. Qed.

(** Through answers that keep it polling, the loop reaches the first done
    operation and resolves to it; the stored answers are left alone. *)
Lemma pollLoop_reaches (waits : list (Outcome Operation)) :
  forall (final : Operation) (rest : list (Outcome Operation)) (operation : Operation)
         (w : World),
    done operation = false -> Forall keepsPolling waits -> done final = true ->
    exists w',
      pollLoop (waits ++ Ok final :: rest) operation w = (Resolved final, w')
      /\ videoAnswers w' = videoAnswers w
      /\ contentAnswers w' = contentAnswers w
      /\ fetchAnswers w' = fetchAnswers w.
Proof.
  induction waits as [|answer waits IH]; intros final rest operation w Hop Hw Hfin.
  - simpl. rewrite Hop. unfold bind, sleep. simpl.
    rewrite pollLoop_done by assumption. eexists. repeat split.
  - inversion Hw as [|? ? Hanswer Hwaits]; subst.
    simpl. rewrite Hop. unfold bind, sleep. simpl.
    destruct answer as [refreshed|error]; simpl in Hanswer.
    + destruct (IH final rest refreshed
                  (record (CallGetVideosOperation operation) (setTimeout 5000%Z w))
                  Hanswer Hwaits Hfin) as (w' & E & H1 & H2 & H3).
      exists w'. repeat split; assumption.
    + rewrite Hanswer.
      destruct (IH final rest operation
                  (record (CallGetVideosOperation operation) (setTimeout 5000%Z w))
                  Hop Hwaits Hfin) as (w' & E & H1 & H2 & H3).
      exists w'. repeat split; assumption.
Qed.

(** C3, at an input where the code departs from it.  A rate-limit failure
    (429) of a status refresh, and a 503 that is carried by the status
    field only, are transient for [retryOperation] but not for the polling
    loop: the loop does not stay polling, and the run is rejected with the
    refresh error although the next refresh would have delivered the
    finished job. *)
Theorem poll_rate_limit_aborts :
  transient e429 /\ pollTolerates e429 = false
  /\ fst (generateFashionVideo (Some "key") [Ok pendingJob; Fail e429; Ok finishedJob]
            topOnly sampleConfig jobWorld)
     = Rejected e429
  /\ transient unavailable /\ pollTolerates unavailable = false
  /\ fst (generateFashionVideo (Some "key") [Fail unavailable; Ok finishedJob]
            topOnly sampleConfig jobWorld)
     = Rejected unavailable.
Proof. repeat split; vm_compute; reflexivity. Qed.

(** The same answers with a failure the loop does let pass end with the
    finished job's video. *)
Example poll_survives_503 :
  fst (generateFashionVideo (Some "key") [Ok pendingJob; Fail e503; Ok pendingJob; Ok finishedJob]
         topOnly sampleConfig jobWorld)
  = Resolved (createObjectURL (mkBlob [0; 0; 0; 24] "video/mp4")).
Proof. vm_compute. reflexivity. Qed.

(** ** Failure of the remote job *)

Lemma normalizeAuth_run {A} (error : JsError) (w : World) :
  @normalizeAuth A error w
  = (Rejected (if messageIncludes error "Requested entity was not found"
                  || messageIncludes error "404"
               then newError authErrorMessage else error), w).
Proof. unfold normalizeAuth. now destruct (_ || _). Qed.

(** C4, as the code has it.  When the refresh answers keep the loop polling
    and end in a done operation with an error payload, the run is rejected
    with an error whose message is "Video generation failed: " followed by
    the payload's message; if that text contains "Requested entity was not
    found" or "404", the closing [catch] replaces it by the expired-key
    message. *)
Theorem generation_failure_message (apiKey : option string) (key : string)
    (assets : UploadedAssets) (config : GenerationConfig) (w w1 : World)
    (file0 : File) (others : list File) (started final : Operation)
    (waits rest : list (Outcome Operation)) (failure : OperationError) :
  truthy apiKey = Some key ->
  orderedFiles assets = file0 :: others ->
  createVideoOperation (videoPrompt config (length (file0 :: others))) file0 others config w
    = (Resolved started, w1) ->
  done started = false ->
  Forall keepsPolling waits ->
  done final = true ->
  error final = Some failure ->
  fst (generateFashionVideo apiKey (waits ++ Ok final :: rest) assets config w)
  = Rejected (newError (if looksExpired (generationFailedMessage failure)
                        then authErrorMessage
                        else generationFailedMessage failure)).
Proof.
  intros Hkey Hfiles Hcreate Hstarted Hwaits Hdone Herror.
  unfold generateFashionVideo. rewrite Hkey, Hfiles.
  unfold tryCatch, bind at 1. rewrite Hcreate.
  unfold awaitVideo, bind at 1.
  destruct (pollLoop_reaches waits final rest started w1 Hstarted Hwaits Hdone)
    as (w2 & Hpoll & _).
  rewrite Hpoll, Herror. unfold throw. rewrite normalizeAuth_run. simpl fst.
  unfold messageIncludes, newError, message, looksExpired, generationFailedMessage.
  now destruct (_ || _).
Qed.

(** ** Validation before any call *)

(** C6, as the code has it.  With no slot filled, both entry points are
    rejected at once and leave the world untouched (no call, no timer): with
    "Please upload at least one image." when an API key is configured, and
    with "API Key not found." when none is, since the key is checked first. *)
Theorem no_assets_rejected_before_any_call (atob : string -> string + string)
    (apiKey : option string) (refreshes : list (Outcome Operation))
    (assets : UploadedAssets) (config : GenerationConfig) (w : World) :
  orderedFiles assets = [] ->
  let reason :=
    match truthy apiKey with
    | Some _ => "Please upload at least one image."
    | None => "API Key not found."
    end in
  generateFashionVideo apiKey refreshes assets config w = (Rejected (newError reason), w)
  /\ generateFashionImage atob apiKey assets config w = (Rejected (newError reason), w).
Proof.
  intros Hfiles reason. subst reason.
  unfold generateFashionVideo, generateFashionImage. rewrite Hfiles.
  destruct (truthy apiKey); split; reflexivity.
Qed.

(** ** Expired credentials *)

(** In [generateFashionVideo], whatever the guarded block is rejected with
    reaches the caller unchanged, unless its message carries one of the two
    markers, in which case the expired-key error replaces it. *)
Lemma generateFashionVideo_normalizes (apiKey : option string) (key : string)
    (refreshes : list (Outcome Operation)) (assets : UploadedAssets)
    (config : GenerationConfig) (w : World) (file0 : File) (others : list File)
    (thrown : JsError) :
  truthy apiKey = Some key ->
  orderedFiles assets = file0 :: others ->
  fst ((operation <- createVideoOperation (videoPrompt config (length (file0 :: others)))
                       file0 others config ;;
        awaitVideo refreshes key operation) w) = Rejected thrown ->
  fst (generateFashionVideo apiKey refreshes assets config w)
  = Rejected (if messageIncludes thrown "Requested entity was not found"
                 || messageIncludes thrown "404"
              then newError authErrorMessage else thrown).
Proof.
  intros Hkey Hfiles Hinner. unfold generateFashionVideo. rewrite Hkey, Hfiles.
  unfold tryCatch.
  destruct ((operation <- createVideoOperation _ file0 others config ;;
             awaitVideo refreshes key operation) w) as [[a|e|] w1];
    simpl in Hinner; try discriminate.
  inversion Hinner; subst. now rewrite normalizeAuth_run.
Qed.

(** C5, at an input where the code departs from it.  The service answers the
    image request with the expired-key signal; [generateFashionImage] hands
    that error to the caller as it is, where [generateFashionVideo], given
    the same answer, replaces it by the expired-key error. *)
Theorem image_expired_key_not_normalized (atob : string -> string + string) :
  messageIncludes notFound "Requested entity was not found" = true
  /\ isRetryable notFound = false
  /\ fst (generateFashionImage atob (Some "key") topOnly sampleConfig
            (mkWorld [] [] [Fail notFound] []))
     = Rejected notFound
  /\ notFound <> newError authErrorMessage
  /\ fst (generateFashionVideo (Some "key") [] topOnly sampleConfig
            (mkWorld [] [Fail notFound] [] []))
     = Rejected (newError authErrorMessage).
Proof. repeat split; try (vm_compute; reflexivity). discriminate. Qed.

(** ** Image extraction *)

Lemma inlineParts_run {W} (files : list File) (w : W) :
  inlineParts files w
  = if forallb readable files then (Resolved (map inlinePartOf files), w)
    else (Rejected readerErrorEvent, w).
Proof.
  induction files as [|file rest IH]; simpl; [reflexivity|].
  unfold bind at 1. rewrite blobToBase64_run.
  destruct (readable file); simpl; [|reflexivity].
  unfold bind at 1. rewrite IH.
  now destruct (forallb readable rest).
Qed.

Lemma firstInlineOfParts_flat (ps : list Part) :
  firstInlineOfParts ps = hd_error (definedOnly (map inlineData ps)).
Proof.
  induction ps as [|part rest IH]; simpl; [reflexivity|].
  now destruct (inlineData part).
Qed.

Lemma hd_definedOnly_app {A} (l1 l2 : list (option A)) :
  hd_error (definedOnly (l1 ++ l2))
  = match hd_error (definedOnly l1) with
    | Some a => Some a
    | None => hd_error (definedOnly l2)
    end.
Proof.
  induction l1 as [|[a|] l1 IH]; simpl; auto.
Qed.

(** The nested loops stop at the first inline payload of the flattened
    part list. *)
Lemma firstInlineOfCandidates_flat (cs : list Candidate) :
  firstInlineOfCandidates cs = firstInline (mkContentResponse (Some cs)).
Proof.
  unfold firstInline, allParts. simpl.
  induction cs as [|candidate rest IH]; simpl; [reflexivity|].
  rewrite map_app, hd_definedOnly_app, <- IH.
  destruct (partsOf candidate) as [ps|]; simpl; [|reflexivity].
  now rewrite firstInlineOfParts_flat.
Qed.

Lemma hd_definedOnly_none {A} (l : list (option A)) :
  hd_error (definedOnly l) = None <-> Forall (fun o => o = None) l.
Proof.
  induction l as [|[a|] l IH]; simpl.
  - split; [constructor | reflexivity].
  - split; [discriminate | intro H; inversion H; discriminate].
  - rewrite IH. split; [now constructor | intro H; now inversion H].
Qed.

Lemma extractImage_run {W} atob (response : GenerateContentResponse) (w : W) :
  extractImage atob response w
  = match firstInline response with
    | Some found => materialize atob found w
    | None => (Rejected noImageData, w)
    end.
Proof.
  unfold extractImage. destruct response as [[cs|]]; simpl; [|reflexivity].
  rewrite firstInlineOfCandidates_flat.
  now destruct (firstInline _).
Qed.

(** C7, as the code has it.  Once the image request is answered with a
    response, the run ends by what the first inline payload of the response
    is, scanning the candidates in order and each candidate's parts in
    order.  When [atob] decodes that payload, the run resolves to the URL of
    a blob that holds the decoded bytes, typed by the payload's media type
    ("image/png" when it has none) as the [Blob] constructor keeps it: in
    lower case, or blank when it has a character that is not printable
    ASCII.  When [atob] refuses the payload, the run is rejected with the
    decoder's [InvalidCharacterError] and no handle is returned.  And the
    run is rejected with "No image data found in response." exactly when no
    part of any candidate has inline data. *)
Theorem image_from_first_inline_payload (atob : string -> string + string)
    (apiKey : option string) (assets : UploadedAssets) (config : GenerationConfig)
    (w w' : World) (response : GenerateContentResponse) :
  truthy apiKey <> None ->
  orderedFiles assets <> [] ->
  forallb readable (orderedFiles assets) = true ->
  retryOperation (generateContent (imageRequest config (requestParts assets config)))
    5 2000 w = (Resolved response, w') ->
  let outcome := fst (generateFashionImage atob apiKey assets config w) in
  outcome
  = match firstInline response with
    | Some found =>
        match atob (interpolate (data found)) with
        | inr binary =>
            Resolved (createObjectURL (newBlob (charCodes binary) (mimeTypeOrPng found)))
        | inl msg => Rejected (invalidCharacterError msg)
        end
    | None => Rejected noImageData
    end
  /\ (outcome = Rejected noImageData
      <-> Forall (fun part => inlineData part = None) (allParts response)).
Proof.
  intros Hkey Hfiles Hread Hanswer outcome.
  assert (E : outcome
              = match firstInline response with
                | Some found =>
                    match atob (interpolate (data found)) with
                    | inr binary =>
                        Resolved (createObjectURL
                                    (newBlob (charCodes binary) (mimeTypeOrPng found)))
                    | inl msg => Rejected (invalidCharacterError msg)
                    end
                | None => Rejected noImageData
                end).
  { subst outcome. unfold generateFashionImage.
    destruct (truthy apiKey) as [key|]; [|contradiction].
    destruct (orderedFiles assets) as [|file0 others] eqn:Hlist; [contradiction|].
    unfold bind at 1. rewrite inlineParts_run, Hread.
    unfold tryCatch, bind.
    unfold requestParts in Hanswer. rewrite Hlist in Hanswer. cbv zeta in Hanswer.
    rewrite Hanswer, extractImage_run.
    destruct (firstInline response) as [found|]; [|reflexivity].
    unfold materialize, mimeTypeOrPng.
    now destruct (atob (interpolate (data found))). }
  split; [exact E|]. rewrite E. clear E.
  assert (Hnone : firstInline response = None
                  <-> Forall (fun part => inlineData part = None) (allParts response)).
  { unfold firstInline. rewrite hd_definedOnly_none, Forall_map. reflexivity. }
  rewrite <- Hnone.
  destruct (firstInline response) as [found|]; [|now split].
  destruct (atob (interpolate (data found))); split; discriminate.
Qed.

(** ** Prompt builder *)

Lemma append_assoc (a b c : string) : (a ++ b) ++ c = a ++ b ++ c.
Proof. induction a as [|x a IH]; simpl; [reflexivity | now rewrite IH]. Qed.

Lemma append_nil_r (a : string) : a ++ "" = a.
Proof. induction a as [|x a IH]; simpl; [reflexivity | now rewrite IH]. Qed.

Lemma length_append (a b : string) :
  String.length (a ++ b) = String.length a + String.length b.
Proof. induction a as [|x a IH]; simpl; [reflexivity | now rewrite IH]. Qed.

Lemma prefix_nil (s : string) : prefix "" s = true.
Proof. now destruct s. Qed.

Lemma prefix_cons a n c s :
  prefix (String a n) (String c s) = true <-> a = c /\ prefix n s = true.
Proof.
  simpl. destruct (ascii_dec a c) as [E|N]; split.
  - auto.
  - now intros [_ H].
  - discriminate.
  - intros [E _]. contradiction.
Qed.

Lemma prefix_append (a r : string) : prefix a (a ++ r) = true.
Proof.
  induction a as [|x a IH]; [apply prefix_nil|].
  change (prefix (String x a) (String x (a ++ r)) = true).
  now apply prefix_cons.
Qed.

(** A prefix of [s ++ u] lies within [s] or is [s] followed by a non-empty
    prefix of [u]. *)
Lemma prefix_app_cases (s : string) :
  forall n u, prefix n (s ++ u) = true ->
    prefix n s = true
    \/ exists r, r <> "" /\ n = s ++ r /\ prefix r u = true.
Proof.
  induction s as [|c s IH]; intros n u H.
  - destruct n as [|a n]; [left; reflexivity|].
    right. exists (String a n). repeat split; [discriminate | exact H].
  - destruct n as [|a n]; [left; reflexivity|].
    change (prefix (String a n) (String c (s ++ u)) = true) in H.
    apply prefix_cons in H. destruct H as [-> H].
    destruct (IH n u H) as [Hin | (r & Hr & -> & Hp)].
    + left. now apply prefix_cons.
    + right. exists r. repeat split; assumption.
Qed.

Lemma prefix_app_l (n a b : string) : prefix n a = true -> prefix n (a ++ b) = true.
Proof.
  revert a. induction n as [|x n IH]; intros a H; [apply prefix_nil|].
  destruct a as [|c a]; [discriminate H|].
  apply prefix_cons in H. destruct H as [-> H].
  change (prefix (String c n) (String c (a ++ b)) = true).
  apply prefix_cons. auto.
Qed.

Lemma includes_cons (c : ascii) (s n : string) :
  includes (String c s) n = prefix n (String c s) || includes s n.
Proof. reflexivity. Qed.

Lemma includes_app_l (a b n : string) :
  includes a n = true -> includes (a ++ b) n = true.
Proof.
  induction a as [|c a IH]; intro H.
  - simpl in H. rewrite orb_false_r in H. destruct n; [|discriminate H].
    destruct b; reflexivity.
  - rewrite includes_cons in H.
    change (includes (String c (a ++ b)) n = true). rewrite includes_cons.
    apply orb_true_iff in H. apply orb_true_iff. destruct H as [H|H].
    + left. now apply (prefix_app_l n (String c a) b).
    + right. auto.
Qed.

Lemma includes_app_r (a b n : string) :
  includes b n = true -> includes (a ++ b) n = true.
Proof.
  induction a as [|c a IH]; intro H; [exact H|].
  change (includes (String c (a ++ b)) n = true). rewrite includes_cons.
  rewrite IH by assumption. apply orb_true_r.
Qed.

Lemma exitFree_cons (n : string) (c : ascii) (C : string) :
  exitFree n (String c C)
  = negb (prefix (String c C) n
          && (String.length (String c C) <? String.length n)%nat)
    && exitFree n C.
Proof. reflexivity. Qed.

(** An occurrence in [C ++ t] lies in [C] or in [t] when [C] is exit-free. *)
Lemma includes_after_exitFree (n C t : string) :
  exitFree n C = true -> includes (C ++ t) n = true ->
  includes C n = true \/ includes t n = true.
Proof.
  induction C as [|c C IH]; intros Hfree H; [now right|].
  rewrite exitFree_cons in Hfree. apply andb_true_iff in Hfree. destruct Hfree as [Hhead Hfree].
  change (includes (String c (C ++ t)) n = true) in H. rewrite includes_cons in H.
  apply orb_true_iff in H. destruct H as [H|H].
  - destruct (prefix_app_cases (String c C) n t H) as [Hin | (r & Hr & -> & _)].
    + left. rewrite includes_cons, Hin. reflexivity.
    + exfalso. rewrite prefix_append in Hhead.
      rewrite length_append in Hhead.
      destruct r as [|x r]; [contradiction|].
      assert (Hlt : (String.length (String c C)
                     <? String.length (String c C) + String.length (String x r))%nat = true)
        by (apply Nat.ltb_lt; simpl; lia).
      rewrite Hlt in Hhead. discriminate Hhead.
  - destruct (IH Hfree H) as [Hin|Hin]; [left | now right].
    rewrite includes_cons, Hin. apply orb_true_r.
Qed.

Lemma entryFreeFrom_suffix (p r C : string) :
  entryFreeFrom (p ++ r) C = true -> r <> "" ->
  prefix r C = false /\ prefix C r = false.
Proof.
  induction p as [|c p IH]; intros H Hr.
  - destruct r as [|x r]; [contradiction|].
    simpl in H. apply andb_true_iff in H. destruct H as [H _].
    apply negb_true_iff, orb_false_iff in H. exact H.
  - change (entryFreeFrom (String c (p ++ r)) C = true) in H.
    simpl in H. apply andb_true_iff in H. destruct H as [_ H]. auto.
Qed.

(** An occurrence in [s ++ C ++ t] lies in [s] or in [C ++ t] when [C] is
    entry-free. *)
Lemma includes_before_entryFree (n s C t : string) :
  entryFree n C = true -> includes (s ++ C ++ t) n = true ->
  includes s n = true \/ includes (C ++ t) n = true.
Proof.
  intro Hfree. induction s as [|c s IH]; intro H; [now right|].
  change (includes (String c (s ++ C ++ t)) n = true) in H. rewrite includes_cons in H.
  apply orb_true_iff in H. destruct H as [H|H].
  - destruct (prefix_app_cases (String c s) n (C ++ t) H) as [Hin | (r & Hr & -> & Hp)].
    + left. rewrite includes_cons, Hin. reflexivity.
    + exfalso. change (entryFreeFrom (s ++ r) C = true) in Hfree.
      destruct (entryFreeFrom_suffix s r C Hfree Hr) as [H1 H2].
      destruct (prefix_app_cases C r t Hp) as [Hin | (r' & _ & -> & _)].
      * now rewrite Hin in H1.
      * now rewrite prefix_append in H2.
  - destruct (IH H) as [Hin|Hin]; [left | now right].
    rewrite includes_cons, Hin. apply orb_true_r.
Qed.

Lemma weave_head (C : string) (segments : list (string * string)) :
  exists t, weave C segments = C ++ t.
Proof.
  destruct segments as [|[v C'] more]; simpl.
  - exists "". now rewrite append_nil_r.
  - eauto.
Qed.

(** Inert fixed texts woven with texts that do not contain the phrase give a
    text that does not contain it. *)
Lemma weave_avoids (n : string) (segments : list (string * string)) :
  forall C, inert n C = true ->
    Forall (fun seg => includes (fst seg) n = false /\ inert n (snd seg) = true) segments ->
    includes (weave C segments) n = false.
Proof.
  induction segments as [|[v C'] more IH]; intros C HC Hsegs; simpl.
  - unfold inert in HC. apply andb_true_iff in HC. destruct HC as [HC _].
    apply andb_true_iff in HC. destruct HC as [HC _]. now apply negb_true_iff in HC.
  - inversion Hsegs as [|? ? [Hv HC'] Hmore]; subst. simpl in Hv, HC'.
    destruct (includes (C ++ v ++ weave C' more) n) eqn:E; [exfalso | reflexivity].
    unfold inert in HC. apply andb_true_iff in HC. destruct HC as [HC HCentry].
    apply andb_true_iff in HC. destruct HC as [HCin HCexit].
    apply negb_true_iff in HCin.
    destruct (includes_after_exitFree n C _ HCexit E) as [H|H]; [congruence|].
    destruct (weave_head C' more) as (t & Et).
    pose proof (IH C' HC' Hmore) as Hclean. rewrite Et in H, Hclean.
    assert (HC'entry : entryFree n C' = true).
    { unfold inert in HC'. now apply andb_true_iff in HC'. }
    destruct (includes_before_entryFree n v C' t HC'entry H); congruence.
Qed.

(** A phrase of one of the fixed texts occurs in the woven text. *)
Lemma weave_includes (n : string) (segments : list (string * string)) :
  forall C, Exists (fun seg => includes (snd seg) n = true) segments ->
    includes (weave C segments) n = true.
Proof.
  induction segments as [|[v C'] more IH]; intros C H; inversion H; subst; simpl in *.
  - apply includes_app_r, includes_app_r.
    destruct (weave_head C' more) as (t & ->). now apply includes_app_l.
  - apply includes_app_r, includes_app_r. auto.
Qed.

Lemma buildCommonPrompt_weave (config : GenerationConfig) (assetCount : nat) :
  buildCommonPrompt config assetCount
  = weave "Fashion content. " (promptSegments config assetCount).
Proof.
  unfold buildCommonPrompt, promptSegments, weave, afterStyle, afterMaterial,
    materialInstruction.
  fold (baseModelDescOf config). fold (bodyAdjectiveOf config). cbv zeta.
  destruct (materialDesc config); destruct (1 <? assetCount)%nat;
    rewrite ?append_assoc; reflexivity.
Qed.

Lemma lookupOr_cases (table : list (string * string)) (key fallback : string) :
  lookupOr table key fallback = fallback
  \/ In (lookupOr table key fallback) (map snd table)
  \/ inherited key = Some (lookupOr table key fallback).
Proof.
  unfold lookupOr, lookup.
  destruct (find (fun kv => (fst kv =? key)%string) table) as [kv|] eqn:E.
  - apply find_some in E. destruct E as [Hin _].
    destruct (snd kv) eqn:Ev; [now left|].
    right. left. rewrite <- Ev. now apply in_map.
  - destruct (inherited key) as [text|]; [|now left].
    right. right. reflexivity.
Qed.

Lemma avoids_all (n : string) (candidates : list string) (s : string) :
  forallb (fun c => negb (includes c n)) candidates = true ->
  In s candidates -> includes s n = false.
Proof.
  intros H Hin. rewrite forallb_forall in H. now apply negb_true_iff, H.
Qed.

Lemma baseModelDesc_avoids (n : string) (config : GenerationConfig) :
  forallb (fun c => negb (includes c n))
    ("a female model" :: "a male model" :: map snd MODEL_DESCRIPTIONS) = true ->
  inheritedTextAvoids n config ->
  includes (baseModelDescOf config) n = false.
Proof.
  intros H Hhost. unfold baseModelDescOf.
  destruct (lookupOr_cases MODEL_DESCRIPTIONS (modelId config)
              ("a " ++ genderText (gender config) ++ " model")) as [E|[Hin|Hinherited]].
  - apply (avoids_all n _ _ H). rewrite E. destruct (gender config); simpl; auto.
  - apply (avoids_all n _ _ H). right. right. exact Hin.
  - apply (Hhost (modelId config)); [now left | exact Hinherited].
Qed.

Lemma bodyAdjective_avoids (n : string) (config : GenerationConfig) :
  forallb (fun c => negb (includes c n)) ("slender" :: map snd BODY_TYPE_PROMPTS) = true ->
  inheritedTextAvoids n config ->
  includes (bodyAdjectiveOf config) n = false.
Proof.
  intros H Hhost. unfold bodyAdjectiveOf.
  destruct (lookupOr_cases BODY_TYPE_PROMPTS (bodyType config) "slender")
    as [E|[Hin|Hinherited]].
  - apply (avoids_all n _ _ H). rewrite E. now left.
  - apply (avoids_all n _ _ H). right. exact Hin.
  - apply (Hhost (bodyType config)); [now right | exact Hinherited].
Qed.

(** When the outfit sentence of the prompt is not the one that carries
    [phrase], and neither the configuration's own texts nor an inherited
    member the lookups run into carry it, the prompt does not contain
    [phrase]. *)
Lemma prompt_avoids (phrase : string) (config : GenerationConfig) (assetCount : nat) :
  forallb (fun c => negb (includes c phrase))
    ("a female model" :: "a male model" :: map snd MODEL_DESCRIPTIONS) = true ->
  forallb (fun c => negb (includes c phrase)) ("slender" :: map snd BODY_TYPE_PROMPTS) = true ->
  forallb (inert phrase)
    ["Fashion content. "; " with a "; " body type in a "; fidelityBoilerplate] = true ->
  inert phrase (afterStyle assetCount config) = true ->
  inert phrase (afterMaterial config) = true ->
  freeTextAvoids phrase config ->
  inheritedTextAvoids phrase config ->
  includes (buildCommonPrompt config assetCount) phrase = false.
Proof.
  intros Hbase Hbody Hfixed Hstyle Hmaterial (Hs & Hm & Hc) Hhost.
  simpl in Hfixed. rewrite !andb_true_iff in Hfixed.
  destruct Hfixed as (H0 & H1 & H2 & H3 & _).
  rewrite buildCommonPrompt_weave. apply weave_avoids; [assumption|].
  unfold promptSegments. repeat constructor; simpl; try assumption.
  - now apply baseModelDesc_avoids.
  - now apply bodyAdjective_avoids.
Qed.

(** C9, as the code has it.  The builder is a total function.  For more than
    one asset its prompt contains "complete outfit", for one asset "exact
    outfit", on every host.  Conversely, as long as the phrase is contained
    neither in the style, the material description or the camera angle of
    the configuration, nor in the text the host prints for a member of
    [Object.prototype] that the model id or the body type names, a prompt
    contains "complete outfit" only for more than one asset and "exact
    outfit" only for one asset. *)
Theorem prompt_outfit_phrasing (config : GenerationConfig) (assetCount : nat) :
  1 <= assetCount ->
  let fullPrompt := buildCommonPrompt config assetCount in
  (1 < assetCount -> includes fullPrompt "complete outfit" = true)
  /\ (assetCount = 1 -> includes fullPrompt "exact outfit" = true)
  /\ (freeTextAvoids "complete outfit" config ->
      inheritedTextAvoids "complete outfit" config ->
      includes fullPrompt "complete outfit" = true -> 1 < assetCount)
  /\ (freeTextAvoids "exact outfit" config ->
      inheritedTextAvoids "exact outfit" config ->
      includes fullPrompt "exact outfit" = true -> assetCount = 1).
Proof.
  intros Hcount fullPrompt. subst fullPrompt.
  assert (Hsentence : forall phrase,
            includes (if (1 <? assetCount)%nat then completeOutfit else exactOutfit) phrase = true ->
            includes (buildCommonPrompt config assetCount) phrase = true).
  { intros phrase H. rewrite buildCommonPrompt_weave. apply weave_includes.
    unfold promptSegments. do 2 apply Exists_cons_tl. apply Exists_cons_hd.
    cbn [snd]. unfold afterStyle. now apply includes_app_r, includes_app_l. }
  repeat split.
  - intro H. apply Hsentence. apply Nat.ltb_lt in H. rewrite H. vm_compute. reflexivity.
  - intros ->. apply Hsentence. vm_compute. reflexivity.
  - intros Hfree Hhost Hin. destruct (Nat.ltb_spec 1 assetCount) as [|Hle]; [assumption|].
    exfalso.
    assert (E : (1 <? assetCount)%nat = false) by (apply Nat.ltb_ge; assumption).
    rewrite prompt_avoids in Hin; try assumption; try discriminate Hin;
      try (vm_compute; reflexivity);
      unfold afterStyle, afterMaterial; rewrite ?E;
      destruct (materialDesc config); vm_compute; reflexivity.
  - intros Hfree Hhost Hin. destruct (Nat.ltb_spec 1 assetCount) as [Hlt|Hle]; [|lia].
    exfalso.
    assert (E : (1 <? assetCount)%nat = true) by (apply Nat.ltb_lt; assumption).
    rewrite prompt_avoids in Hin; try assumption; try discriminate Hin;
      try (vm_compute; reflexivity);
      unfold afterStyle, afterMaterial; rewrite ?E;
      destruct (materialDesc config); vm_compute; reflexivity.
Qed.

(** * Further properties of the service *)

(** ** Retry wrapper: bounds and provenance *)

Lemma totalDelay_app (l1 l2 : list Z) :
  totalDelay (l1 ++ l2) = (totalDelay l1 + totalDelay l2)%Z.
Proof. induction l1 as [|x l1 IH]; simpl; [reflexivity | rewrite IH; lia]. Qed.

Lemma totalDelay_backoff (b : Z) (k : nat) :
  totalDelay (backoff b k) = (b * (2 ^ Z.of_nat k - 1))%Z.
Proof.
  induction k as [|k IH]; [simpl; lia|].
  rewrite backoff_snoc, totalDelay_app, IH. simpl totalDelay.
  rewrite Nat2Z.inj_succ, Z.pow_succ_r by lia. lia.
Qed.

(** Entered at index [i] after [i] failed invocations, the loop stops after
    some [k] invocations with [i < k <= retries], having slept the first
    [k - 1] delays; what it ends with is an outcome of the script. *)
Lemma retryLoop_probe_bounds {T} (retries : nat) (baseDelay : Z) (remaining : nat) :
  forall (i : nat) (outcomes : list (Outcome T)),
    i + S remaining = retries ->
    let run := retryLoop invoke retries baseDelay i (S remaining)
                 (mkProbe outcomes i (backoff baseDelay i)) in
    i < calls (snd run) <= retries
    /\ delays (snd run) = backoff baseDelay (calls (snd run) - 1)
    /\ match fst run with
       | Resolved v => In (Ok v) outcomes
       | Rejected e => In (Fail e) outcomes
       | Pending => script (snd run) = []
       end.
Proof.
  induction remaining as [|remaining IH]; intros i outcomes Hn;
    destruct outcomes as [|[v|e] rest].
  - cbn [retryLoop]. unfold tryCatch, invoke. cbn [script calls delays fst snd].
    replace (S i - 1) with i by lia. repeat split; lia.
  - rewrite retryLoop_settles_ok. cbn [calls delays fst snd].
    replace (S i - 1) with i by lia. repeat split; try lia. now left.
  - rewrite retryLoop_settles_last by lia. cbn [calls delays fst snd].
    replace (S i - 1) with i by lia. repeat split; try lia. now left.
  - cbn [retryLoop]. unfold tryCatch, invoke. cbn [script calls delays fst snd].
    replace (S i - 1) with i by lia. repeat split; lia.
  - rewrite retryLoop_settles_ok. cbn [calls delays fst snd].
    replace (S i - 1) with i by lia. repeat split; try lia. now left.
  - destruct (isRetryable e) eqn:He.
    + rewrite retryLoop_step_transient by (assumption || lia).
      rewrite <- backoff_snoc.
      specialize (IH (S i) rest ltac:(lia)). cbv zeta in IH.
      destruct IH as (Hc & Hd & Ho). repeat split; try lia; try assumption.
      destruct (fst (retryLoop invoke retries baseDelay (S i) (S remaining)
                       (mkProbe rest (S i) (backoff baseDelay (S i)))));
        try (now right). assumption.
    + rewrite retryLoop_settles_fatal by assumption. cbn [calls delays fst snd].
      replace (S i - 1) with i by lia. repeat split; try lia. now left.
Qed.

(** X1.  Whatever the wrapped operation does, [retryOperation] invokes it
    at most [n] times; after [k] invocations it has slept exactly the delays
    [b, 2b, ..., 2^(k-2) b], that is [b (2^(k-1) - 1)] milliseconds in all. *)
Theorem retryOperation_invocations_bounded (T : Type) (n : nat) (b : Z)
    (outcomes : list (Outcome T)) :
  let probe := snd (retryOperation invoke n b (fresh outcomes)) in
  calls probe <= n
  /\ delays probe = backoff b (calls probe - 1)
  /\ totalDelay (delays probe) = (b * (2 ^ Z.of_nat (calls probe - 1) - 1))%Z.
Proof.
  cbv zeta. unfold retryOperation, fresh.
  assert (H : calls (snd (retryLoop invoke n b 0 n (mkProbe outcomes 0 []))) <= n
              /\ delays (snd (retryLoop invoke n b 0 n (mkProbe outcomes 0 [])))
                 = backoff b (calls (snd (retryLoop invoke n b 0 n (mkProbe outcomes 0 []))) - 1)).
  { destruct n as [|n]; [split; reflexivity|].
    pose proof (retryLoop_probe_bounds (S n) b n 0 outcomes eq_refl) as H.
    cbv zeta in H. change (backoff b 0) with (@nil Z) in H.
    destruct H as (Hc & Hd & _). split; [lia | exact Hd]. }
  destruct H as [Hc Hd]. repeat split; try assumption.
  rewrite Hd at 1. apply totalDelay_backoff.
Qed.

(** X2.  The wrapper makes nothing up.  With at least one attempt allowed,
    a value it resolves to is a value the operation resolved to, an error it
    rejects with is an error the operation rejected with, and it stays
    pending only when the operation does; with no attempt allowed it rejects
    with "Failed after max retries" and invokes nothing. *)
Theorem retryOperation_outcome_from_operation (T : Type) (n : nat) (b : Z)
    (outcomes : list (Outcome T)) :
  let run := retryOperation invoke n b (fresh outcomes) in
  match n with
  | O => run = (Rejected (newError "Failed after max retries"), fresh outcomes)
  | S _ =>
      match fst run with
      | Resolved v => In (Ok v) outcomes
      | Rejected e => In (Fail e) outcomes
      | Pending => script (snd run) = []
      end
  end.
Proof.
  cbv zeta. destruct n as [|n]; [reflexivity|].
  pose proof (retryLoop_probe_bounds (S n) b n 0 outcomes eq_refl) as H.
  cbv zeta in H. change (backoff b 0) with (@nil Z) in H.
  exact (proj2 (proj2 H)).
Qed.

(** X3.  Every failure the polling loop lets pass is one [retryOperation]
    would retry. *)
Theorem pollTolerates_isRetryable (thrown : JsError) :
  pollTolerates thrown = true -> isRetryable thrown = true.
Proof.
  unfold pollTolerates, isRetryable. cbv zeta.
  rewrite !orb_true_iff. intuition.
Qed.

(** ** Retry wrapper in any world *)

Section RetrySteps.

Context {W T : Type} `{Clock W}.
Variables (fn : M W T) (retries : nat) (baseDelay : Z).

Lemma retryLoop_resolved (v : T) (w w1 : W) (i remaining : nat) :
  fn w = (Resolved v, w1) ->
  retryLoop fn retries baseDelay i (S remaining) w = (Resolved v, w1).
Proof. intro E. simpl. unfold tryCatch. now rewrite E. Qed.

Lemma retryLoop_fatal (e : JsError) (w w1 : W) (i remaining : nat) :
  fn w = (Rejected e, w1) -> isRetryable e = false ->
  retryLoop fn retries baseDelay i (S remaining) w = (Rejected e, w1).
Proof. intros E He. simpl. unfold tryCatch. now rewrite E, He. Qed.

Lemma retryLoop_last (e : JsError) (w w1 : W) (i remaining : nat) :
  fn w = (Rejected e, w1) -> S i = retries ->
  retryLoop fn retries baseDelay i (S remaining) w = (Rejected e, w1).
Proof.
  intros E Hi. simpl. unfold tryCatch. rewrite E.
  destruct (Nat.eqb_spec i (retries - 1)) as [_|N]; [|lia].
  now rewrite orb_true_r.
Qed.

Lemma retryLoop_retry (e : JsError) (w w1 : W) (i remaining : nat) :
  fn w = (Rejected e, w1) -> isRetryable e = true -> S i < retries ->
  retryLoop fn retries baseDelay i (S remaining) w
  = retryLoop fn retries baseDelay (S i) remaining
      (setTimeout (baseDelay * 2 ^ Z.of_nat i)%Z w1).
Proof.
  intros E He Hi. simpl. unfold tryCatch. rewrite E, He. simpl.
  destruct (Nat.eqb_spec i (retries - 1)) as [N|_]; [lia|].
  reflexivity.
Qed.

End RetrySteps.

(** ** Polling: the shape of the trace *)

Lemma trace_record ev w : trace (record ev w) = (trace w ++ [ev])%list.
Proof. reflexivity. Qed.

(** The loop only ever adds whole turns, a five-second timer and then the
    refresh call, at most one more than there are answers; it leaves the
    stored answers alone. *)
Lemma pollLoop_turns (refreshes : list (Outcome Operation)) :
  forall (operation : Operation) (w : World),
    exists polled,
      trace (snd (pollLoop refreshes operation w))
      = (trace w ++ flat_map pollTurn polled)%list
      /\ length polled <= S (length refreshes)
      /\ videoAnswers (snd (pollLoop refreshes operation w)) = videoAnswers w
      /\ contentAnswers (snd (pollLoop refreshes operation w)) = contentAnswers w
      /\ fetchAnswers (snd (pollLoop refreshes operation w)) = fetchAnswers w.
Proof.
  induction refreshes as [|answer rest IH]; intros operation w.
  - simpl. destruct (done operation).
    + exists []. simpl. rewrite app_nil_r. repeat split. lia.
    + exists [operation]. unfold bind, sleep. simpl.
      rewrite <- app_assoc. repeat split. lia.
  - simpl. destruct (done operation).
    + exists []. simpl. rewrite app_nil_r. repeat split. lia.
    + unfold bind, sleep. cbn [fst snd].
      set (w2 := record (CallGetVideosOperation operation) (setTimeout 5000%Z w)).
      assert (Ht : trace w2 = (trace w ++ pollTurn operation)%list).
      { unfold w2. rewrite trace_record. unfold setTimeout, World_clock.
        rewrite trace_record, <- app_assoc. reflexivity. }
      destruct answer as [refreshed|thrown].
      * destruct (IH refreshed w2) as (polled & Etr & Hlen & H1 & H2 & H3).
        exists (operation :: polled). rewrite Etr, Ht, <- app_assoc.
        repeat split; try assumption. simpl. lia.
      * destruct (pollTolerates thrown).
        -- destruct (IH operation w2) as (polled & Etr & Hlen & H1 & H2 & H3).
           exists (operation :: polled). rewrite Etr, Ht, <- app_assoc.
           repeat split; try assumption. simpl. lia.
        -- exists [operation]. cbn [snd flat_map]. rewrite app_nil_r.
           repeat split; try assumption. simpl. lia.
Qed.

(** X4.  Waiting five seconds before every status request: what the polling loop
    adds to the trace is a sequence of turns, each a 5000 ms timer followed
    by one [getVideosOperation] call, with at most one call more than there
    are answers, and no other call. *)
Theorem poll_waits_before_every_refresh (refreshes : list (Outcome Operation))
    (operation : Operation) (w : World) :
  exists polled,
    trace (snd (pollLoop refreshes operation w))
    = (trace w ++ flat_map pollTurn polled)%list
    /\ length polled <= S (length refreshes).
Proof.
  destruct (pollLoop_turns refreshes operation w) as (polled & E & Hlen & _).
  exists polled. split; assumption.
Qed.

(** While every answer keeps it polling the loop neither fails nor stops:
    it has asked once per answer and once more, and is pending. *)
Lemma pollLoop_still_polling (waits : list (Outcome Operation)) :
  forall (operation : Operation) (w : World),
    done operation = false -> Forall keepsPolling waits ->
    fst (pollLoop waits operation w) = Pending
    /\ exists polled,
         trace (snd (pollLoop waits operation w))
         = (trace w ++ flat_map pollTurn polled)%list
         /\ length polled = S (length waits).
Proof.
  induction waits as [|answer waits IH]; intros operation w Hop Hw.
  - simpl. rewrite Hop. unfold bind, sleep. simpl. split; [reflexivity|].
    exists [operation]. rewrite <- app_assoc. split; reflexivity.
  - inversion Hw as [|? ? Hanswer Hwaits]; subst.
    simpl. rewrite Hop. unfold bind, sleep. cbn [fst snd].
    set (w2 := record (CallGetVideosOperation operation) (setTimeout 5000%Z w)).
    assert (Ht : trace w2 = (trace w ++ pollTurn operation)%list).
    { unfold w2. rewrite trace_record. unfold setTimeout, World_clock.
      rewrite trace_record, <- app_assoc. reflexivity. }
    destruct answer as [refreshed|thrown]; simpl in Hanswer.
    + destruct (IH refreshed w2 Hanswer Hwaits) as (Hp & polled & Etr & Hlen).
      split; [exact Hp|]. exists (operation :: polled).
      rewrite Etr, Ht, <- app_assoc. split; [reflexivity | simpl; lia].
    + rewrite Hanswer.
      destruct (IH operation w2 Hop Hwaits) as (Hp & polled & Etr & Hlen).
      split; [exact Hp|]. exists (operation :: polled).
      rewrite Etr, Ht, <- app_assoc. split; [reflexivity | simpl; lia].
Qed.

(** A failure the loop does not let pass ends it with that failure. *)
Lemma pollLoop_fails (waits : list (Outcome Operation)) :
  forall (thrown : JsError) (rest : list (Outcome Operation)) (operation : Operation)
         (w : World),
    done operation = false -> Forall keepsPolling waits -> pollTolerates thrown = false ->
    fst (pollLoop (waits ++ Fail thrown :: rest) operation w) = Rejected thrown.
Proof.
  induction waits as [|answer waits IH]; intros thrown rest operation w Hop Hw Hth.
  - simpl. rewrite Hop. unfold bind, sleep. simpl. now rewrite Hth.
  - inversion Hw as [|? ? Hanswer Hwaits]; subst.
    simpl. rewrite Hop. unfold bind, sleep. cbn [fst snd].
    destruct answer as [refreshed|failure]; simpl in Hanswer.
    + now apply IH.
    + rewrite Hanswer. now apply IH.
Qed.

(** ** The video entry point, step by step *)

Lemma video_run_started apiKey assets config w key started w1 refreshes :
  jobStarted apiKey assets config w key started w1 ->
  generateFashionVideo apiKey refreshes assets config w
  = tryCatch (awaitVideo refreshes key started) normalizeAuth w1.
Proof.
  intros (Hkey & file0 & others & Hfiles & Hcreate).
  unfold generateFashionVideo. rewrite Hkey, Hfiles.
  unfold tryCatch, bind at 1. now rewrite Hcreate.
Qed.

Lemma awaitVideo_delivers refreshes key started final w1 w2 :
  pollLoop refreshes started w1 = (Resolved final, w2) ->
  awaitVideo refreshes key started w1 = deliverVideo key final w2.
Proof. intro E. unfold awaitVideo, bind at 1. now rewrite E. Qed.

Lemma tryCatch_normalizeAuth {A} (m : M World A) (w : World) :
  tryCatch m normalizeAuth w
  = (match fst (m w) with
     | Rejected thrown => Rejected (normalized thrown)
     | settled => settled
     end, snd (m w)).
Proof.
  unfold tryCatch. destruct (m w) as [[a|e|] w1]; try reflexivity.
  rewrite normalizeAuth_run. reflexivity.
Qed.

(** Once the job is started and the answers lead to a done operation, the
    run is the delivery of that operation, guarded by the closing [catch],
    in a world whose download answers are those left by the creation. *)
Lemma video_run_finished apiKey assets config w key started w1 refreshes final :
  jobStarted apiKey assets config w key started w1 ->
  pollsUntil started refreshes final ->
  exists w2,
    generateFashionVideo apiKey refreshes assets config w
    = tryCatch (deliverVideo key final) normalizeAuth w2
    /\ fetchAnswers w2 = fetchAnswers w1.
Proof.
  intros Hjob (Hstarted & Hdone & waits & rest & -> & Hwaits).
  destruct (pollLoop_reaches waits final rest started w1 Hstarted Hwaits Hdone)
    as (w2 & Hpoll & _ & _ & Hfetch).
  exists w2. split; [|exact Hfetch].
  rewrite (video_run_started _ _ _ _ _ _ _ _ Hjob).
  unfold tryCatch. now rewrite (awaitVideo_delivers _ _ _ _ _ _ Hpoll).
Qed.

Lemma fetchVideo_refused videoUri key w response more :
  fetchAnswers w = Ok response :: more -> ok response = false ->
  fetchVideo videoUri key w
  = (Rejected (downloadFailed response),
     mkWorld (trace w ++ [CallFetch (downloadUrl videoUri key)])
       (videoAnswers w) (contentAnswers w) more).
Proof.
  intros Hanswers Hok. unfold fetchVideo, bind, fetch. cbn [record fetchAnswers].
  rewrite Hanswers. cbn [settle]. rewrite Hok. reflexivity.
Qed.

Lemma fetchVideo_delivered videoUri key w response more :
  fetchAnswers w = Ok response :: more -> ok response = true ->
  fetchVideo videoUri key w
  = (settle (blob response),
     mkWorld (trace w ++ [CallFetch (downloadUrl videoUri key)])
       (videoAnswers w) (contentAnswers w) more).
Proof.
  intros Hanswers Hok. unfold fetchVideo, bind, fetch. cbn [record fetchAnswers].
  rewrite Hanswers. cbn [settle]. rewrite Hok. reflexivity.
Qed.

(** X5.  However many answers keep it polling, a started run neither fails nor
    gives up: it is still pending, having waited five seconds before each of
    its status requests, one per answer and one more. *)
Theorem video_keeps_polling apiKey assets config w key started w1 refreshes :
  jobStarted apiKey assets config w key started w1 ->
  done started = false ->
  Forall keepsPolling refreshes ->
  let run := generateFashionVideo apiKey refreshes assets config w in
  fst run = Pending
  /\ exists polled,
       trace (snd run) = (trace w1 ++ flat_map pollTurn polled)%list
       /\ length polled = S (length refreshes).
Proof.
  intros Hjob Hstarted Hkeeps run. subst run.
  rewrite (video_run_started _ _ _ _ _ _ _ _ Hjob), tryCatch_normalizeAuth.
  destruct (pollLoop_still_polling refreshes started w1 Hstarted Hkeeps)
    as (Hp & polled & Etr & Hlen).
  unfold awaitVideo, bind.
  destruct (pollLoop refreshes started w1) as [[a|e|] w2]; try discriminate Hp.
  cbn [fst snd] in *. split; [reflexivity|]. exists polled. split; assumption.
Qed.

(** X6.  A status request that fails with an error the loop does not let pass
    ends the run with that error, as the closing [catch] leaves or replaces
    it; later answers are not asked for. *)
Theorem video_poll_failure_propagates apiKey assets config w key started w1
    (waits rest : list (Outcome Operation)) (thrown : JsError) :
  jobStarted apiKey assets config w key started w1 ->
  done started = false ->
  Forall keepsPolling waits ->
  pollTolerates thrown = false ->
  fst (generateFashionVideo apiKey (waits ++ Fail thrown :: rest) assets config w)
  = Rejected (normalized thrown).
Proof.
  intros Hjob Hstarted Hwaits Hthrown.
  rewrite (video_run_started _ _ _ _ _ _ _ _ Hjob), tryCatch_normalizeAuth.
  pose proof (pollLoop_fails waits thrown rest started w1 Hstarted Hwaits Hthrown) as Hp.
  unfold awaitVideo, bind.
  destruct (pollLoop (waits ++ Fail thrown :: rest) started w1) as [[a|e|] w2];
    try discriminate Hp.
  cbn [fst] in *. now inversion Hp.
Qed.

(** X7.  A job that ends without an error payload and without a usable video URI
    is rejected with "No video URI returned."; nothing is fetched. *)
Theorem video_without_uri_rejected apiKey assets config w key started w1 refreshes final :
  jobStarted apiKey assets config w key started w1 ->
  pollsUntil started refreshes final ->
  error final = None ->
  truthy (videoUriOf final) = None ->
  let run := generateFashionVideo apiKey refreshes assets config w in
  fst run = Rejected (newError "No video URI returned.")
  /\ fetchAnswers (snd run) = fetchAnswers w1.
Proof.
  intros Hjob Hpolls Herror Huri run. subst run.
  destruct (video_run_finished _ _ _ _ _ _ _ _ _ Hjob Hpolls) as (w2 & -> & Hfetch).
  rewrite tryCatch_normalizeAuth. unfold deliverVideo. rewrite Herror, Huri.
  cbn [throw fst snd]. split; [reflexivity | exact Hfetch].
Qed.

(** ** The download *)

Lemma deliverVideo_downloads key final videoUri w :
  error final = None -> truthy (videoUriOf final) = Some videoUri ->
  deliverVideo key final w
  = (videoBlob <- retryOperation (fetchVideo videoUri key) 3 1000 ;;
     ret (createObjectURL videoBlob)) w.
Proof. intros Herror Huri. unfold deliverVideo. now rewrite Herror, Huri. Qed.

(** The loop ends on [final] having added whole turns only. *)
Lemma video_run_polled apiKey assets config w key started w1 refreshes final :
  jobStarted apiKey assets config w key started w1 ->
  pollsUntil started refreshes final ->
  exists w2 polled,
    generateFashionVideo apiKey refreshes assets config w
    = tryCatch (deliverVideo key final) normalizeAuth w2
    /\ fetchAnswers w2 = fetchAnswers w1
    /\ trace w2 = (trace w1 ++ flat_map pollTurn polled)%list.
Proof.
  intros Hjob (Hstarted & Hdone & waits & rest & -> & Hwaits).
  destruct (pollLoop_reaches waits final rest started w1 Hstarted Hwaits Hdone)
    as (w2 & Hpoll & _ & _ & Hfetch).
  destruct (pollLoop_turns (waits ++ Ok final :: rest) started w1)
    as (polled & Etr & _). rewrite Hpoll in Etr. cbn [snd] in Etr.
  exists w2, polled. repeat split; [|exact Hfetch|exact Etr].
  rewrite (video_run_started _ _ _ _ _ _ _ _ Hjob).
  unfold tryCatch. now rewrite (awaitVideo_delivers _ _ _ _ _ _ Hpoll).
Qed.

Lemma video_delivery apiKey assets config w key started w1 refreshes final
    (videoUri : string) (response : FetchResponse) (more : list (Outcome FetchResponse))
    (payload : Blob) :
  jobStarted apiKey assets config w key started w1 ->
  pollsUntil started refreshes final ->
  error final = None ->
  truthy (videoUriOf final) = Some videoUri ->
  fetchAnswers w1 = Ok response :: more ->
  ok response = true ->
  blob response = Ok payload ->
  let run := generateFashionVideo apiKey refreshes assets config w in
  fst run = Resolved (createObjectURL payload)
  /\ exists polled,
       trace (snd run)
       = (trace w1 ++ flat_map pollTurn polled
          ++ [CallFetch (videoUri ++ "&key=" ++ key)])%list.
Proof.
  intros Hjob Hpolls Herror Huri Hanswers Hok Hblob run. subst run.
  destruct (video_run_polled _ _ _ _ _ _ _ _ _ Hjob Hpolls)
    as (w2 & polled & -> & Hfetch & Htrace).
  rewrite tryCatch_normalizeAuth, (deliverVideo_downloads _ _ _ _ Herror Huri).
  unfold bind, retryOperation.
  rewrite (retryLoop_resolved _ 3 1000%Z payload w2 _ 0 2
             (eq_trans (fetchVideo_delivered videoUri key w2 response more
                          (eq_trans Hfetch Hanswers) Hok)
                       (f_equal (fun c => (settle c, _)) Hblob))).
  cbn [ret fst snd trace]. split; [reflexivity|].
  exists polled. rewrite Htrace, <- app_assoc. reflexivity.
Qed.

(** X8.  A finished job with a video URI whose download is answered at once:
    the run resolves to the object URL of the downloaded blob; after the
    creation it has only polled and then sent one request, to the URI with
    "&key=" and the API key appended. *)
Theorem video_delivered apiKey assets config w key started w1 refreshes final
    (videoUri : string) (response : FetchResponse) (more : list (Outcome FetchResponse))
    (payload : Blob) :
  jobStarted apiKey assets config w key started w1 ->
  pollsUntil started refreshes final ->
  error final = None ->
  truthy (videoUriOf final) = Some videoUri ->
  fetchAnswers w1 = Ok response :: more ->
  ok response = true ->
  blob response = Ok payload ->
  let run := generateFashionVideo apiKey refreshes assets config w in
  fst run = Resolved (createObjectURL payload)
  /\ exists polled,
       trace (snd run)
       = (trace w1 ++ flat_map pollTurn polled
          ++ [CallFetch (videoUri ++ "&key=" ++ key)])%list.
Proof. apply video_delivery. Qed.

(** X9.  A download answered with a refusal whose status is not one the wrapper
    retries ends the run at once with "Download failed: <status>" as the
    closing [catch] leaves or replaces it: a 404 reaches the caller as the
    expired-key error. *)
Theorem video_download_refused apiKey assets config w key started w1 refreshes final
    (videoUri : string) (response : FetchResponse) (more : list (Outcome FetchResponse)) :
  jobStarted apiKey assets config w key started w1 ->
  pollsUntil started refreshes final ->
  error final = None ->
  truthy (videoUriOf final) = Some videoUri ->
  fetchAnswers w1 = Ok response :: more ->
  ok response = false ->
  isRetryable (downloadFailed response) = false ->
  let run := generateFashionVideo apiKey refreshes assets config w in
  fst run = Rejected (normalized (downloadFailed response))
  /\ fetchAnswers (snd run) = more.
Proof.
  intros Hjob Hpolls Herror Huri Hanswers Hok Hfatal run. subst run.
  destruct (video_run_polled _ _ _ _ _ _ _ _ _ Hjob Hpolls)
    as (w2 & polled & -> & Hfetch & Htrace).
  rewrite tryCatch_normalizeAuth, (deliverVideo_downloads _ _ _ _ Herror Huri).
  unfold bind, retryOperation.
  rewrite (retryLoop_fatal _ 3 1000%Z (downloadFailed response) w2 _ 0 2
             (fetchVideo_refused videoUri key w2 response more
                (eq_trans Hfetch Hanswers) Hok) Hfatal).
  cbn [fst snd fetchAnswers]. split; reflexivity.
Qed.

(** X10.  Two refused downloads with a retried status and then the video: the run
    resolves to its object URL, having fetched three times with 1000 ms and
    2000 ms slept in between. *)
Theorem video_download_retried apiKey assets config w key started w1 refreshes final
    (videoUri : string) (first second third : FetchResponse)
    (more : list (Outcome FetchResponse)) (payload : Blob) :
  jobStarted apiKey assets config w key started w1 ->
  pollsUntil started refreshes final ->
  error final = None ->
  truthy (videoUriOf final) = Some videoUri ->
  fetchAnswers w1 = Ok first :: Ok second :: Ok third :: more ->
  ok first = false -> isRetryable (downloadFailed first) = true ->
  ok second = false -> isRetryable (downloadFailed second) = true ->
  ok third = true -> blob third = Ok payload ->
  let run := generateFashionVideo apiKey refreshes assets config w in
  let request := CallFetch (videoUri ++ "&key=" ++ key) in
  fst run = Resolved (createObjectURL payload)
  /\ exists polled,
       trace (snd run)
       = (trace w1 ++ flat_map pollTurn polled
          ++ [request; Timer 1000; request; Timer 2000; request])%list.
Proof.
  intros Hjob Hpolls Herror Huri Hanswers Hok1 Hre1 Hok2 Hre2 Hok3 Hblob run request.
  subst run request.
  destruct (video_run_polled _ _ _ _ _ _ _ _ _ Hjob Hpolls)
    as (w2 & polled & -> & Hfetch & Htrace).
  rewrite tryCatch_normalizeAuth, (deliverVideo_downloads _ _ _ _ Herror Huri).
  unfold bind, retryOperation.
  rewrite (retryLoop_retry _ 3 1000%Z (downloadFailed first) w2 _ 0 2
             (fetchVideo_refused videoUri key w2 first _ (eq_trans Hfetch Hanswers) Hok1)
             Hre1 ltac:(lia)).
  erewrite (retryLoop_retry _ 3 1000%Z);
    [ | apply fetchVideo_refused; [reflexivity | exact Hok2] | exact Hre2 | lia ].
  erewrite (retryLoop_resolved _ 3 1000%Z);
    [ | erewrite fetchVideo_delivered; [rewrite Hblob | | exact Hok3]; reflexivity ].
  cbn [ret fst snd trace]. split; [reflexivity|].
  exists polled. unfold setTimeout, World_clock, record. cbn [trace].
  rewrite Htrace, <- !app_assoc. reflexivity.
Qed.

(** X11.  Three refused downloads with a retried status: the third refusal ends
    the run, as the closing [catch] leaves or replaces it; there is no
    fourth request and no timer after the third. *)
Theorem video_download_exhausted apiKey assets config w key started w1 refreshes final
    (videoUri : string) (first second third : FetchResponse)
    (more : list (Outcome FetchResponse)) :
  jobStarted apiKey assets config w key started w1 ->
  pollsUntil started refreshes final ->
  error final = None ->
  truthy (videoUriOf final) = Some videoUri ->
  fetchAnswers w1 = Ok first :: Ok second :: Ok third :: more ->
  ok first = false -> isRetryable (downloadFailed first) = true ->
  ok second = false -> isRetryable (downloadFailed second) = true ->
  ok third = false ->
  let run := generateFashionVideo apiKey refreshes assets config w in
  let request := CallFetch (videoUri ++ "&key=" ++ key) in
  fst run = Rejected (normalized (downloadFailed third))
  /\ fetchAnswers (snd run) = more
  /\ exists polled,
       trace (snd run)
       = (trace w1 ++ flat_map pollTurn polled
          ++ [request; Timer 1000; request; Timer 2000; request])%list.
Proof.
  intros Hjob Hpolls Herror Huri Hanswers Hok1 Hre1 Hok2 Hre2 Hok3 run request.
  subst run request.
  destruct (video_run_polled _ _ _ _ _ _ _ _ _ Hjob Hpolls)
    as (w2 & polled & -> & Hfetch & Htrace).
  rewrite tryCatch_normalizeAuth, (deliverVideo_downloads _ _ _ _ Herror Huri).
  unfold bind, retryOperation.
  rewrite (retryLoop_retry _ 3 1000%Z (downloadFailed first) w2 _ 0 2
             (fetchVideo_refused videoUri key w2 first _ (eq_trans Hfetch Hanswers) Hok1)
             Hre1 ltac:(lia)).
  erewrite (retryLoop_retry _ 3 1000%Z);
    [ | apply fetchVideo_refused; [reflexivity | exact Hok2] | exact Hre2 | lia ].
  erewrite (retryLoop_last _ 3 1000%Z);
    [ | apply fetchVideo_refused; [reflexivity | exact Hok3] | reflexivity ].
  cbn [fst snd trace fetchAnswers]. repeat split.
  exists polled. unfold setTimeout, World_clock, record. cbn [trace].
  rewrite Htrace, <- !app_assoc. reflexivity.
Qed.

(** ** Which assets matter *)

Lemma buildCommonPrompt_threshold (config : GenerationConfig) (n m : nat) :
  (1 <? n)%nat = (1 <? m)%nat -> buildCommonPrompt config n = buildCommonPrompt config m.
Proof. intro E. unfold buildCommonPrompt. now rewrite E. Qed.

(** X12.  With top, bottom and shoes filled, the accessories slot has no effect
    on video generation: whatever it holds, readable or not, the run is the
    same, call for call. *)
Theorem video_ignores_fourth_asset (apiKey : option string)
    (refreshes : list (Outcome Operation)) (config : GenerationConfig) (w : World)
    (topFile bottomFile shoesFile : File) (extra extra' : option File) :
  generateFashionVideo apiKey refreshes
    (mkAssets (Some topFile) (Some bottomFile) (Some shoesFile) extra) config w
  = generateFashionVideo apiKey refreshes
      (mkAssets (Some topFile) (Some bottomFile) (Some shoesFile) extra') config w.
Proof.
  assert (H : forall slot4,
            generateFashionVideo apiKey refreshes
              (mkAssets (Some topFile) (Some bottomFile) (Some shoesFile) slot4) config w
            = generateFashionVideo apiKey refreshes
                (mkAssets (Some topFile) (Some bottomFile) (Some shoesFile) None) config w).
  { intros [accessory|]; [|reflexivity].
    unfold generateFashionVideo, orderedFiles. cbn [definedOnly top bottom shoes accessories].
    destruct (truthy apiKey) as [key|]; [|reflexivity].
    cbv zeta. unfold videoPrompt.
    rewrite (buildCommonPrompt_threshold config
               (length [topFile; bottomFile; shoesFile; accessory])
               (length [topFile; bottomFile; shoesFile])) by reflexivity.
    reflexivity. }
  now rewrite (H extra), (H extra').
Qed.

(** ** Inputs that stop a run before any call *)

(** X13.  With a key configured, a file that cannot be read stops the run before
    any call, with the reader's error event as it is: for a video, when it
    is among the first three files in slot order; for an image, wherever it
    is. *)
Theorem unreadable_asset_rejected_before_any_call (atob : string -> string + string)
    (apiKey : option string) (refreshes : list (Outcome Operation))
    (assets : UploadedAssets) (config : GenerationConfig) (w : World) :
  truthy apiKey <> None ->
  (forallb readable (firstn 3 (orderedFiles assets)) = false ->
   generateFashionVideo apiKey refreshes assets config w = (Rejected readerErrorEvent, w))
  /\ (forallb readable (orderedFiles assets) = false ->
      generateFashionImage atob apiKey assets config w = (Rejected readerErrorEvent, w)).
Proof.
  intro Hkey. destruct (truthy apiKey) as [key|] eqn:Ekey; [clear Hkey|contradiction].
  split; intro Hread.
  - unfold generateFashionVideo. rewrite Ekey.
    destruct (orderedFiles assets) as [|file0 [|file1 rest]]; [discriminate Hread| |].
    + unfold tryCatch, bind at 1. rewrite createVideoOperation_single.
      simpl in Hread. rewrite andb_true_r in Hread. rewrite Hread.
      now rewrite normalizeAuth_run.
    + unfold tryCatch, bind at 1. rewrite createVideoOperation_multi, Hread.
      now rewrite normalizeAuth_run.
  - unfold generateFashionImage. rewrite Ekey.
    destruct (orderedFiles assets) as [|file0 others] eqn:Hfiles; [discriminate Hread|].
    unfold bind at 1. now rewrite inlineParts_run, Hread.
Qed.

(** X14.  Without an API key in the environment (absent or empty), both entry
    points are rejected with "API Key not found." whatever the assets, and
    leave the world untouched: nothing is read, called or awaited. *)
Theorem missing_key_rejected_before_any_call (atob : string -> string + string)
    (apiKey : option string) (refreshes : list (Outcome Operation))
    (assets : UploadedAssets) (config : GenerationConfig) (w : World) :
  apiKey = None \/ apiKey = Some "" ->
  generateFashionVideo apiKey refreshes assets config w
  = (Rejected (newError "API Key not found."), w)
  /\ generateFashionImage atob apiKey assets config w
     = (Rejected (newError "API Key not found."), w).
Proof. intros [-> | ->]; split; reflexivity. Qed.

(** ** Budgets: how many calls, how long a wait *)

Lemma countOf_app kind (l1 l2 : list Event) :
  countOf kind (l1 ++ l2) = countOf kind l1 + countOf kind l2.
Proof. unfold countOf. now rewrite filter_app, length_app. Qed.

Lemma emitsOnly_at {A} Q (m : M World A) w new :
  emitsOnly Q m -> trace (snd (m w)) = (trace w ++ new)%list -> Forall Q new.
Proof.
  intros H E. destruct (H w) as (new' & E' & F). rewrite E in E'.
  apply app_inv_head in E'. now subst.
Qed.

Lemma emitsAtMost_at {A} kind n (m : M World A) w new :
  emitsAtMost kind n m -> trace (snd (m w)) = (trace w ++ new)%list ->
  countOf kind new <= n.
Proof.
  intros H E. destruct (H w) as (new' & E' & F). rewrite E in E'.
  apply app_inv_head in E'. now subst.
Qed.

Lemma emitsAtMost_weaken {A} kind n n' (m : M World A) :
  n <= n' -> emitsAtMost kind n m -> emitsAtMost kind n' m.
Proof. intros Hle H w. destruct (H w) as (new & E & F). exists new. split; [assumption|lia]. Qed.

Lemma emitsAtMost_silent {A} kind (m : M World A) :
  (forall w, snd (m w) = w) -> emitsAtMost kind 0 m.
Proof. intros H w. exists []. rewrite H, app_nil_r. split; reflexivity. Qed.

Lemma emitsAtMost_none {A} kind (m : M World A) :
  emitsOnly (fun ev => kind ev = false) m -> emitsAtMost kind 0 m.
Proof.
  intros H w. destruct (H w) as (new & E & F). exists new. split; [assumption|].
  clear E. unfold countOf. induction F as [|ev l Hev _ IH]; [reflexivity|].
  simpl. now rewrite Hev.
Qed.

Lemma emitsAtMost_bind {A B} kind n1 n2 (m : M World A) (k : A -> M World B) :
  emitsAtMost kind n1 m -> (forall a, emitsAtMost kind n2 (k a)) ->
  emitsAtMost kind (n1 + n2) (bind m k).
Proof.
  intros Hm Hk w. unfold bind. destruct (Hm w) as (new & E & F).
  destruct (m w) as [[a|e|] w1]; cbn [snd] in *;
    try (exists new; split; [assumption | lia]).
  destruct (Hk a w1) as (new2 & E2 & F2).
  exists (new ++ new2)%list. rewrite E2, E, <- app_assoc, countOf_app.
  split; [reflexivity | lia].
Qed.

Lemma emitsAtMost_tryCatch {A} kind n1 n2 (m : M World A) handler :
  emitsAtMost kind n1 m -> (forall e, emitsAtMost kind n2 (handler e)) ->
  emitsAtMost kind (n1 + n2) (tryCatch m handler).
Proof.
  intros Hm Hh w. unfold tryCatch. destruct (Hm w) as (new & E & F).
  destruct (m w) as [[a|e|] w1]; cbn [snd] in *;
    try (exists new; split; [assumption | lia]).
  destruct (Hh e w1) as (new2 & E2 & F2).
  exists (new ++ new2)%list. rewrite E2, E, <- app_assoc, countOf_app.
  split; [reflexivity | lia].
Qed.

Lemma emitsAtMost_retryLoop {T} kind (fn : M World T) retries baseDelay :
  emitsAtMost kind 1 fn -> (forall ms, kind (Timer ms) = false) ->
  forall remaining i, emitsAtMost kind remaining (retryLoop fn retries baseDelay i remaining).
Proof.
  intros Hfn Ht. induction remaining as [|r IH]; intro i; simpl.
  - apply emitsAtMost_silent. reflexivity.
  - change (S r) with (1 + r). apply emitsAtMost_tryCatch; [assumption|]. intro e.
    destruct (negb (isRetryable e) || (i =? retries - 1)%nat).
    + apply (emitsAtMost_weaken kind 0); [lia|]. apply emitsAtMost_silent. reflexivity.
    + change r with (0 + r). apply emitsAtMost_bind; [|intros _; apply IH].
      apply emitsAtMost_none. apply emitsOnly_sleep, Ht.
Qed.

Lemma emitsAtMost_one_event {A} kind (m : M World A) :
  (forall w, exists ev, trace (snd (m w)) = (trace w ++ [ev])%list) ->
  emitsAtMost kind 1 m.
Proof.
  intros H w. destruct (H w) as (ev & E). exists [ev]. split; [assumption|].
  unfold countOf. simpl. destruct (kind ev); simpl; lia.
Qed.

Lemma generateVideos_one_event request w :
  exists ev, trace (snd (generateVideos request w)) = (trace w ++ [ev])%list.
Proof. eexists. unfold generateVideos. simpl. destruct (videoAnswers w); reflexivity. Qed.

Lemma generateContent_one_event request w :
  exists ev, trace (snd (generateContent request w)) = (trace w ++ [ev])%list.
Proof. eexists. unfold generateContent. simpl. destruct (contentAnswers w); reflexivity. Qed.

Lemma fetchVideo_one_event videoUri key w :
  exists ev, trace (snd (fetchVideo videoUri key w)) = (trace w ++ [ev])%list.
Proof.
  eexists. unfold fetchVideo, bind, fetch. simpl.
  destruct (fetchAnswers w) as [|[r|e] rest]; cbn [settle snd trace]; try reflexivity.
  destruct (negb (ok r)); reflexivity.
Qed.

(** The delays a retry loop sleeps are those of the indices it can reach. *)
Lemma emitsOnly_retryLoop_timed {T} (Q : Event -> Prop) (fn : M World T) retries baseDelay :
  emitsOnly Q fn ->
  (forall j, S j < retries -> Q (Timer (baseDelay * 2 ^ Z.of_nat j)%Z)) ->
  forall remaining i, i + remaining <= retries ->
    emitsOnly Q (retryLoop fn retries baseDelay i remaining).
Proof.
  intros Hfn Ht. induction remaining as [|r IH]; intros i Hi; simpl.
  - apply emitsOnly_throw.
  - apply emitsOnly_tryCatch; [assumption|]. intro e.
    destruct (Nat.eqb_spec i (retries - 1)) as [E|N].
    + rewrite orb_true_r. apply emitsOnly_throw.
    + destruct (negb (isRetryable e)); [apply emitsOnly_throw|]. simpl.
      apply emitsOnly_bind; [apply emitsOnly_sleep, Ht; lia|].
      intros _. apply IH. lia.
Qed.

Lemma createVideoOperation_cases fullPrompt file0 others config :
  exists request, forall w,
    createVideoOperation fullPrompt file0 others config w
    = retryOperation (generateVideos request) 5 2000 w
    \/ createVideoOperation fullPrompt file0 others config w = (Rejected readerErrorEvent, w).
Proof.
  destruct others as [|file1 rest].
  - eexists. intro w. rewrite createVideoOperation_single.
    destruct (readable file0); [left; reflexivity | right; reflexivity].
  - eexists. intro w. rewrite createVideoOperation_multi.
    destruct (forallb readable _); [left; reflexivity | right; reflexivity].
Qed.

Lemma emitsOnly_createVideoOperation (Q : Event -> Prop) fullPrompt file0 others config :
  (forall r, Q (CallGenerateVideos r)) ->
  (forall j, S j < 5 -> Q (Timer (2000 * 2 ^ Z.of_nat j)%Z)) ->
  emitsOnly Q (createVideoOperation fullPrompt file0 others config).
Proof.
  intros Hc Ht w.
  destruct (createVideoOperation_cases fullPrompt file0 others config) as (request & H).
  destruct (H w) as [E|E]; rewrite E; [|apply extends_refl].
  apply emitsOnly_retryLoop_timed; [now apply emitsOnly_generateVideos | assumption | lia].
Qed.

Lemma emitsAtMost_createVideoOperation kind fullPrompt file0 others config :
  (forall ms, kind (Timer ms) = false) ->
  emitsAtMost kind 5 (createVideoOperation fullPrompt file0 others config).
Proof.
  intros Ht w.
  destruct (createVideoOperation_cases fullPrompt file0 others config) as (request & H).
  destruct (H w) as [E|E]; rewrite E.
  - apply emitsAtMost_retryLoop; [|assumption].
    apply emitsAtMost_one_event, generateVideos_one_event.
  - exists []. rewrite app_nil_r. split; [reflexivity | unfold countOf; simpl; lia].
Qed.

Lemma emitsOnly_deliverVideo (Q : Event -> Prop) key operation :
  (forall url, Q (CallFetch url)) ->
  (forall j, S j < 3 -> Q (Timer (1000 * 2 ^ Z.of_nat j)%Z)) ->
  emitsOnly Q (deliverVideo key operation).
Proof.
  intros Hf Ht. unfold deliverVideo.
  destruct (error operation); [apply emitsOnly_throw|].
  destruct (truthy (videoUriOf operation)); [|apply emitsOnly_throw].
  apply emitsOnly_bind; [|intro; apply emitsOnly_ret].
  apply emitsOnly_retryLoop_timed; [now apply emitsOnly_fetchVideo | assumption | lia].
Qed.

Lemma awaitVideo_as_delivery refreshes key operation :
  awaitVideo refreshes key operation
  = bind (pollLoop refreshes operation) (deliverVideo key).
Proof. reflexivity. Qed.

Lemma backoff_2000_in_videoWaits j : S j < 5 -> In (2000 * 2 ^ Z.of_nat j)%Z videoWaits.
Proof.
  intro H. do 4 (destruct j as [|j]; [simpl; tauto|]). lia.
Qed.

Lemma backoff_1000_in_videoWaits j : S j < 3 -> In (1000 * 2 ^ Z.of_nat j)%Z videoWaits.
Proof.
  intro H. do 2 (destruct j as [|j]; [simpl; tauto|]). lia.
Qed.

Lemma emitsOnly_pollLoop_turns (Q : Event -> Prop) refreshes operation :
  Q (Timer 5000) -> (forall op, Q (CallGetVideosOperation op)) ->
  emitsOnly Q (pollLoop refreshes operation).
Proof.
  intros Ht Hc w. destruct (pollLoop_turns refreshes operation w) as (polled & E & _).
  exists (flat_map pollTurn polled). split; [exact E|].
  clear E. induction polled as [|op polled IH]; simpl; repeat constructor; auto.
Qed.

Lemma emitsOnly_generateFashionVideo (Q : Event -> Prop) apiKey refreshes assets config :
  (forall r, Q (CallGenerateVideos r)) ->
  (forall op, Q (CallGetVideosOperation op)) ->
  (forall url, Q (CallFetch url)) ->
  (forall ms, In ms videoWaits -> Q (Timer ms)) ->
  emitsOnly Q (generateFashionVideo apiKey refreshes assets config).
Proof.
  intros Hc Hr Hf Ht. unfold generateFashionVideo.
  destruct (truthy apiKey) as [key|]; [|apply emitsOnly_throw].
  destruct (orderedFiles assets) as [|file0 others]; [apply emitsOnly_throw|].
  apply emitsOnly_tryCatch; [|intro; apply emitsOnly_normalizeAuth].
  apply emitsOnly_bind.
  - apply emitsOnly_createVideoOperation; [assumption|].
    intros j Hj. apply Ht. now apply backoff_2000_in_videoWaits.
  - intro op. rewrite awaitVideo_as_delivery. apply emitsOnly_bind.
    + apply emitsOnly_pollLoop_turns; [|assumption].
      apply Ht. simpl. tauto.
    + intro final. apply emitsOnly_deliverVideo; [assumption|].
      intros j Hj. apply Ht. now apply backoff_1000_in_videoWaits.
Qed.

Lemma emitsAtMost_throw {A} kind n e : emitsAtMost kind n (@throw World A e).
Proof.
  apply (emitsAtMost_weaken kind 0); [lia|]. apply emitsAtMost_silent. reflexivity.
Qed.

Lemma emitsAtMost_normalizeAuth {A} kind e : emitsAtMost kind 0 (@normalizeAuth A e).
Proof.
  apply emitsAtMost_silent. intro w. rewrite normalizeAuth_run. reflexivity.
Qed.

Lemma emitsAtMost_video kind nc np nd apiKey refreshes assets config :
  (forall fullPrompt file0 others,
      emitsAtMost kind nc (createVideoOperation fullPrompt file0 others config)) ->
  (forall operation, emitsAtMost kind np (pollLoop refreshes operation)) ->
  (forall key operation, emitsAtMost kind nd (deliverVideo key operation)) ->
  emitsAtMost kind (nc + (np + nd))
    (generateFashionVideo apiKey refreshes assets config).
Proof.
  intros Hc Hp Hd. unfold generateFashionVideo.
  destruct (truthy apiKey) as [key|]; [|apply emitsAtMost_throw].
  destruct (orderedFiles assets) as [|file0 others]; [apply emitsAtMost_throw|].
  cbv zeta.
  apply (emitsAtMost_weaken kind (nc + (np + nd) + 0)); [lia|].
  apply emitsAtMost_tryCatch; [|intro; apply emitsAtMost_normalizeAuth].
  apply emitsAtMost_bind; [apply Hc|]. intro op.
  rewrite awaitVideo_as_delivery. apply emitsAtMost_bind; [apply Hp | intro; apply Hd].
Qed.

Lemma countOf_refresh_turns polled :
  countOf isRefresh (flat_map pollTurn polled) = length polled.
Proof.
  unfold countOf. induction polled as [|op polled IH]; [reflexivity|].
  simpl. now rewrite IH.
Qed.

Lemma emitsAtMost_deliverVideo_fetch key operation :
  emitsAtMost isFetch 3 (deliverVideo key operation).
Proof.
  unfold deliverVideo.
  destruct (error operation); [apply emitsAtMost_throw|].
  destruct (truthy (videoUriOf operation)); [|apply emitsAtMost_throw].
  change 3 with (3 + 0). apply emitsAtMost_bind.
  - apply emitsAtMost_retryLoop; [|reflexivity].
    apply emitsAtMost_one_event. intro w. apply fetchVideo_one_event.
  - intro. apply emitsAtMost_silent. reflexivity.
Qed.

(** X15.  What one video run costs.  Whatever the service answers, a run of
    [generateFashionVideo] sends at most 5 creation calls, at most one status
    request more than it gets answers, and at most 3 download requests; it
    never calls the image model; and every timer it sets is the five-second
    polling interval or a backoff delay, none longer than 16 seconds. *)
Theorem video_call_budget (apiKey : option string) (refreshes : list (Outcome Operation))
    (assets : UploadedAssets) (config : GenerationConfig) (w : World) :
  exists new,
    trace (snd (generateFashionVideo apiKey refreshes assets config w))
    = (trace w ++ new)%list
    /\ countOf isCreation new <= 5
    /\ countOf isRefresh new <= S (length refreshes)
    /\ countOf isFetch new <= 3
    /\ countOf isContentCall new = 0
    /\ Forall videoEvent new
    /\ Forall (fun ev => forall ms, ev = Timer ms -> (ms <= 16000)%Z) new.
Proof.
  assert (Hall : emitsOnly videoEvent (generateFashionVideo apiKey refreshes assets config)).
  { apply emitsOnly_generateFashionVideo; intros; simpl; auto. }
  destruct (Hall w) as (new & E & Hnew). exists new. split; [exact E|].
  split; [|split; [|split; [|split; [|split]]]].
  - apply (emitsAtMost_at isCreation 5 (generateFashionVideo apiKey refreshes assets config) w new);
      [|exact E].
    change 5 with (5 + (0 + 0)). apply emitsAtMost_video.
    + intros. now apply emitsAtMost_createVideoOperation.
    + intro. apply emitsAtMost_none. now apply emitsOnly_pollLoop_turns.
    + intros. apply emitsAtMost_none. now apply emitsOnly_deliverVideo.
  - apply (emitsAtMost_at isRefresh (S (length refreshes)) (generateFashionVideo apiKey refreshes assets config) w new);
      [|exact E].
    apply (emitsAtMost_weaken isRefresh (0 + (S (length refreshes) + 0))); [lia|].
    apply emitsAtMost_video.
    + intros. apply emitsAtMost_none. now apply emitsOnly_createVideoOperation.
    + intros op w0. destruct (pollLoop_turns refreshes op w0) as (polled & Et & Hlen & _).
      exists (flat_map pollTurn polled). split; [exact Et|].
      now rewrite countOf_refresh_turns.
    + intros. apply emitsAtMost_none. now apply emitsOnly_deliverVideo.
  - apply (emitsAtMost_at isFetch 3 (generateFashionVideo apiKey refreshes assets config) w new);
      [|exact E].
    change 3 with (0 + (0 + 3)). apply emitsAtMost_video.
    + intros. apply emitsAtMost_none. now apply emitsOnly_createVideoOperation.
    + intro. apply emitsAtMost_none. now apply emitsOnly_pollLoop_turns.
    + intros. apply emitsAtMost_deliverVideo_fetch.
  - assert (H0 : countOf isContentCall new <= 0); [|lia].
    apply (emitsAtMost_at isContentCall 0 (generateFashionVideo apiKey refreshes assets config) w new);
      [|exact E].
    apply emitsAtMost_none. now apply emitsOnly_generateFashionVideo.
  - exact Hnew.
  - apply (Forall_impl _ (P := videoEvent)); [|exact Hnew].
    intros ev Hev ms ->. simpl in Hev. unfold videoWaits in Hev. simpl in Hev.
    intuition lia.
Qed.

(** ** The image request *)

Lemma extractImage_silent atob (response : GenerateContentResponse) (w : World) :
  snd (extractImage atob response w) = w.
Proof.
  rewrite extractImage_run. destruct (firstInline response) as [found|]; [|reflexivity].
  unfold materialize. now destruct (atob (interpolate (data found))).
Qed.

Lemma inlineParts_yields {W} (files : list File) :
  yields (fun built => built = map inlinePartOf files) (@inlineParts W files).
Proof.
  intros w a w' E. rewrite inlineParts_run in E.
  destruct (forallb readable files); now inversion E.
Qed.

Lemma inlineParts_silent {W} (files : list File) (w : W) : snd (inlineParts files w) = w.
Proof. rewrite inlineParts_run. now destruct (forallb readable files). Qed.

Lemma startsWith_generateContent request :
  startsWith (CallGenerateContent request) (generateContent request).
Proof.
  intro w. exists []. unfold generateContent. simpl. now destruct (contentAnswers w).
Qed.

Lemma generateFashionImage_run atob apiKey assets config w :
  truthy apiKey <> None -> orderedFiles assets <> [] ->
  forallb readable (orderedFiles assets) = true ->
  generateFashionImage atob apiKey assets config w
  = tryCatch
      (response <- retryOperation
                     (generateContent (imageRequest config (requestParts assets config)))
                     5 2000 ;;
       extractImage atob response)
      (fun thrown => throw thrown) w.
Proof.
  intros Hkey Hfiles Hread. unfold generateFashionImage, requestParts.
  destruct (truthy apiKey) as [key|]; [|contradiction].
  destruct (orderedFiles assets) as [|file0 others] eqn:E; [contradiction|].
  unfold bind at 1. now rewrite inlineParts_run, Hread.
Qed.

Lemma emitsOnly_generateFashionImage (Q : Event -> Prop) atob apiKey assets config :
  Q (CallGenerateContent (imageRequest config (requestParts assets config))) ->
  (forall j, S j < 5 -> Q (Timer (2000 * 2 ^ Z.of_nat j)%Z)) ->
  emitsOnly Q (generateFashionImage atob apiKey assets config).
Proof.
  intros Hc Ht. unfold generateFashionImage.
  destruct (truthy apiKey) as [key|]; [|apply emitsOnly_throw].
  destruct (orderedFiles assets) as [|file0 others] eqn:E; [apply emitsOnly_throw|].
  apply emitsOnly_bind_yields
    with (P := fun built => built = map inlinePartOf (file0 :: others)).
  - apply emitsOnly_silent. intro. apply inlineParts_silent.
  - apply inlineParts_yields.
  - intros built ->. cbv zeta.
    apply emitsOnly_tryCatch; [|intro; apply emitsOnly_throw].
    apply emitsOnly_bind.
    + apply emitsOnly_retryLoop_timed; [|assumption|lia].
      apply emitsOnly_generateContent.
      unfold requestParts in Hc. rewrite E in Hc. exact Hc.
    + intro r. apply emitsOnly_silent. intro. apply extractImage_silent.
Qed.

Lemma emitsAtMost_generateFashionImage atob apiKey assets config :
  emitsAtMost isContentCall 5 (generateFashionImage atob apiKey assets config).
Proof.
  unfold generateFashionImage.
  destruct (truthy apiKey) as [key|]; [|apply emitsAtMost_throw].
  destruct (orderedFiles assets) as [|file0 others]; [apply emitsAtMost_throw|].
  change 5 with (0 + 5). apply emitsAtMost_bind.
  - apply emitsAtMost_silent. intro. apply inlineParts_silent.
  - intro built. cbv zeta. change 5 with (5 + 0 + 0).
    apply emitsAtMost_tryCatch; [|intro; apply emitsAtMost_silent; reflexivity].
    apply emitsAtMost_bind.
    + apply emitsAtMost_retryLoop; [|reflexivity].
      apply emitsAtMost_one_event. intro. apply generateContent_one_event.
    + intro. apply emitsAtMost_silent. intro. apply extractImage_silent.
Qed.

(** X16.  What one image run sends.  Every call to the image model carries all the
    uploaded files, in slot order and without the cap of three, followed by
    one text part with the prompt, at the aspect ratio of the configuration
    and size 2K; there are at most 5 such calls, separated by backoff delays
    only, and no video, status or download request; with a key and readable
    files, the call is the first thing the run does. *)
Theorem image_request_carries_all_assets (atob : string -> string + string)
    (apiKey : option string) (assets : UploadedAssets) (config : GenerationConfig)
    (w : World) :
  let request := imageRequest config (requestParts assets config) in
  let fullPrompt :=
    buildCommonPrompt config (length (orderedFiles assets))
    ++ " Generate a high-quality fashion photograph." in
  ContentRequest.contents request
  = (map inlinePartOf (orderedFiles assets) ++ [mkPart None (Some fullPrompt)])%list
  /\ ContentRequest.aspectRatio request = aspectRatio config
  /\ ContentRequest.imageSize request = "2K"
  /\ exists new,
       trace (snd (generateFashionImage atob apiKey assets config w)) = (trace w ++ new)%list
       /\ Forall (imageEvent assets config) new
       /\ countOf isContentCall new <= 5
       /\ (truthy apiKey <> None -> orderedFiles assets <> [] ->
           forallb readable (orderedFiles assets) = true ->
           exists more, new = CallGenerateContent request :: more).
Proof.
  cbv zeta. split; [reflexivity|].
  split; [unfold imageRequest; cbn [ContentRequest.aspectRatio];
          now destruct (aspectRatio config)|].
  split; [reflexivity|].
  assert (Hall : emitsOnly (imageEvent assets config)
                   (generateFashionImage atob apiKey assets config)).
  { apply emitsOnly_generateFashionImage; [reflexivity|].
    intros j Hj. do 4 (destruct j as [|j]; [simpl; tauto|]). lia. }
  destruct (Hall w) as (new & E & Hnew). exists new.
  split; [exact E|]. split; [exact Hnew|]. split.
  - apply (emitsAtMost_at isContentCall 5 (generateFashionImage atob apiKey assets config) w new);
      [|exact E].
    apply emitsAtMost_generateFashionImage.
  - intros Hkey Hfiles Hread.
    assert (Hs : startsWith
                   (CallGenerateContent (imageRequest config (requestParts assets config)))
                   (tryCatch
                      (response <- retryOperation
                                     (generateContent
                                        (imageRequest config (requestParts assets config)))
                                     5 2000 ;;
                       extractImage atob response)
                      (fun thrown => throw thrown))).
    { apply startsWith_tryCatch; [|intro; apply emitsOnly_throw].
      apply startsWith_then.
      - apply startsWith_retryOperation; [apply startsWith_generateContent|].
        now apply emitsOnly_generateContent.
      - intro r. apply emitsOnly_silent. intro. apply extractImage_silent. }
    destruct (Hs w) as (more & Em).
    rewrite <- (generateFashionImage_run atob apiKey assets config w Hkey Hfiles Hread) in Em.
    rewrite E in Em. apply app_inv_head in Em. exists more. exact Em.
Qed.

(** ** Prompt builder: what goes in, what does not *)

Lemma prefix_refl (s : string) : prefix s s = true.
Proof. rewrite <- (append_nil_r s) at 2. apply prefix_append. Qed.

Lemma includes_refl (s : string) : includes s s = true.
Proof. destruct s as [|c s]; [reflexivity|]. now rewrite includes_cons, prefix_refl. Qed.

Lemma includes_inside (a n b : string) : includes (a ++ n ++ b) n = true.
Proof. apply includes_app_r, includes_app_l, includes_refl. Qed.

(** X17.  On every host, the prompt opens with "Fashion content. " and
    contains, verbatim, what the two lookups yield, joined with the style as
    "<persona> with a <adjective> body type in a <style> setting. ": the
    table's entry, else the text of the member of [Object.prototype] the key
    names, else the fallback (for the persona, "a <gender> model").  It
    also contains the material instruction (the described material when
    there is a description, the generic one when it is empty), and the
    camera angle with the fidelity text. *)
Theorem prompt_mentions_selection (config : GenerationConfig) (assetCount : nat) :
  let fullPrompt := buildCommonPrompt config assetCount in
  prefix "Fashion content. " fullPrompt = true
  /\ includes fullPrompt
       (baseModelDescOf config ++ " with a " ++ bodyAdjectiveOf config
        ++ " body type in a " ++ style config ++ " setting. ") = true
  /\ includes fullPrompt (materialInstruction config) = true
  /\ (materialDesc config <> "" ->
      includes fullPrompt ("The clothing is made of " ++ materialDesc config ++ ". ") = true)
  /\ (materialDesc config = "" ->
      includes fullPrompt "Preserve the exact fabric texture" = true)
  /\ includes fullPrompt ("Camera Angle: " ++ cameraAngle config ++ fidelityBoilerplate) = true
  /\ (forall text,
        lookup MODEL_DESCRIPTIONS (modelId config) = Some text \/
        lookup MODEL_DESCRIPTIONS (modelId config) = None
        /\ inherited (modelId config) = Some text ->
        baseModelDescOf config = text)
  /\ (lookup MODEL_DESCRIPTIONS (modelId config) = None ->
      inherited (modelId config) = None ->
      baseModelDescOf config = "a " ++ genderText (gender config) ++ " model").
Proof.
  cbv zeta.
  set (outfit := if (1 <? assetCount)%nat then completeOutfit else exactOutfit).
  assert (E : buildCommonPrompt config assetCount
              = "Fashion content. "
                ++ (baseModelDescOf config ++ " with a " ++ bodyAdjectiveOf config
                    ++ " body type in a " ++ style config ++ " setting. ")
                ++ outfit ++ materialInstruction config
                ++ ("Camera Angle: " ++ cameraAngle config ++ fidelityBoilerplate) ++ "").
  { unfold buildCommonPrompt, outfit. fold (baseModelDescOf config).
    fold (bodyAdjectiveOf config). cbv zeta.
    destruct (1 <? assetCount)%nat; rewrite ?append_assoc, ?append_nil_r; reflexivity. }
  assert (Hmaterial : includes (buildCommonPrompt config assetCount)
                        (materialInstruction config) = true).
  { rewrite E. do 3 apply includes_app_r. apply includes_app_l, includes_refl. }
  split; [rewrite E; apply prefix_append|].
  split; [rewrite E; apply includes_inside|].
  split; [exact Hmaterial|].
  split; [|split; [|split; [|split]]].
  - intro Hdesc. rewrite E. do 3 apply includes_app_r. apply includes_app_l.
    unfold materialInstruction. destruct (materialDesc config) as [|c desc]; [contradiction|].
    rewrite <- (append_nil_r ("The clothing is made of " ++ String c desc ++ ". ")).
    replace ("The clothing is made of " ++ String c desc
             ++ ". Accurately render the physical properties, weight, and texture of this material. ")
      with (("The clothing is made of " ++ String c desc ++ ". ")
            ++ "Accurately render the physical properties, weight, and texture of this material. ")
      by (rewrite !append_assoc; reflexivity).
    rewrite append_nil_r. apply includes_app_l, includes_refl.
  - intro Hdesc. rewrite E. do 3 apply includes_app_r. apply includes_app_l.
    unfold materialInstruction. rewrite Hdesc. vm_compute. reflexivity.
  - rewrite E. do 4 apply includes_app_r. apply includes_app_l, includes_refl.
  - intros text [Hown|[Hnone Hinherited]]; unfold baseModelDescOf, lookupOr.
    + rewrite Hown. destruct text; [exfalso|reflexivity].
      unfold lookup, MODEL_DESCRIPTIONS, find in Hown. cbn [fst snd] in Hown.
      repeat match type of Hown with
             | context [String.eqb ?a ?b] => destruct (String.eqb a b)
             end; discriminate Hown.
    + now rewrite Hnone, Hinherited.
  - intros Hnone Hinherited. unfold baseModelDescOf, lookupOr.
    now rewrite Hnone, Hinherited.
Qed.

Lemma lookupOr_known (key fallback fallback' : string) :
  lookup MODEL_DESCRIPTIONS key <> None ->
  lookupOr MODEL_DESCRIPTIONS key fallback = lookupOr MODEL_DESCRIPTIONS key fallback'.
Proof.
  unfold lookupOr, lookup.
  destruct (find (fun kv => (fst kv =? key)%string) MODEL_DESCRIPTIONS) as [kv|] eqn:E;
    [|contradiction].
  intros _. apply find_some in E. destruct E as [Hin _].
  simpl in Hin.
  repeat (destruct Hin as [<-|Hin]; [reflexivity|]). contradiction.
Qed.

(** X18.  The prompt depends on the configuration through the model id, the body
    type, the style, the camera angle and the material description only, the
    gender counting just for a model id the table does not know; and on the
    asset count only through whether it exceeds one.  The free-text prompt
    seed, the mode and the aspect ratio never reach it. *)
Theorem prompt_depends_only_on (c1 c2 : GenerationConfig) (n m : nat) :
  samePromptInputs c1 c2 ->
  lookup MODEL_DESCRIPTIONS (modelId c1) <> None \/ gender c1 = gender c2 ->
  (1 <? n)%nat = (1 <? m)%nat ->
  buildCommonPrompt c1 n = buildCommonPrompt c2 m.
Proof.
  intros (Hid & Hbody & Hstyle & Hcam & Hmat) Hgender Hcount.
  unfold buildCommonPrompt, materialInstruction.
  rewrite <- Hid, <- Hbody, <- Hstyle, <- Hcam, <- Hmat, <- Hcount.
  destruct Hgender as [Hknown | <-]; [|reflexivity].
  now rewrite (lookupOr_known (modelId c1) ("a " ++ genderText (gender c1) ++ " model")
                 ("a " ++ genderText (gender c2) ++ " model") Hknown).
Qed.

(** ** Data URLs *)

Lemma includes_comma_cons (c : ascii) (s : string) :
  includes (String c s) "," = false -> Ascii.eqb c "," = false /\ includes s "," = false.
Proof.
  rewrite includes_cons. intro H. apply orb_false_iff in H. destruct H as [Hp Hs].
  split; [|exact Hs].
  destruct (Ascii.eqb_spec c ","%char) as [->|]; [|reflexivity].
  simpl in Hp. destruct s; discriminate Hp.
Qed.

Lemma split_cons (sep c : ascii) (s : string) :
  split sep (String c s)
  = if Ascii.eqb c sep then EmptyString :: split sep s
    else match split sep s with
         | piece :: pieces => String c piece :: pieces
         | [] => [String c EmptyString]
         end.
Proof. reflexivity. Qed.

Lemma split_no_comma (s : string) : includes s "," = false -> split "," s = [s].
Proof.
  induction s as [|c s IH]; intro H; [reflexivity|].
  apply includes_comma_cons in H. destruct H as [Hc Hs].
  rewrite split_cons, Hc, (IH Hs). reflexivity.
Qed.

Lemma split_header (header tail : string) :
  includes header "," = false ->
  split "," (header ++ "," ++ tail) = header :: split "," tail.
Proof.
  induction header as [|c header IH]; intro H; [reflexivity|].
  apply includes_comma_cons in H. destruct H as [Hc Hs].
  change (split "," (String c (header ++ "," ++ tail)) = String c header :: split "," tail).
  rewrite split_cons, Hc, (IH Hs). reflexivity.
Qed.

(** X19.  [blobToBase64] strips the header of the data URL: for a data URL made
    of a header and a payload, neither containing a comma, it resolves to
    the payload alone, also when more comma-separated text follows; for a
    text with no comma at all it resolves to [undefined].  It leaves the
    world as it is. *)
Theorem blobToBase64_strips_header (W : Type) (type header payload rest : string) (w : W) :
  includes header "," = false ->
  includes payload "," = false ->
  blobToBase64 (mkFile type (Some (header ++ "," ++ payload))) w
  = (Resolved (Some payload), w)
  /\ blobToBase64 (mkFile type (Some (header ++ "," ++ payload ++ "," ++ rest))) w
     = (Resolved (Some payload), w)
  /\ blobToBase64 (mkFile type (Some header)) w = (Resolved None, w).
Proof.
  intros Hh Hp. unfold blobToBase64, ret. cbn [dataURL].
  rewrite !split_header, (split_no_comma payload), (split_no_comma header) by assumption.
  repeat split.
Qed.

(** ** The application shell *)

(** X20.  Pressing Generate with no asset, or with no key selected, never reaches
    the service: the world, the status, the URL and the message stay as they
    are; without a key the handler only asks the host for one, and takes
    the key as selected exactly when that request resolves. *)
Theorem handleGenerate_guards (apiKey : option string)
    (refreshes : list (Outcome Operation)) (window : Window) (st : App.State) (w : World) :
  keyCount (App.assets st) = 0 \/ App.hasApiKey st = false ->
  let after := fst (App.handleGenerate apiKey refreshes window st w) in
  snd (App.handleGenerate apiKey refreshes window st w) = w
  /\ App.status after = App.status st
  /\ App.videoUrl after = App.videoUrl st
  /\ App.errorMsg after = App.errorMsg st
  /\ App.assets after = App.assets st
  /\ (keyCount (App.assets st) = 0 -> after = st)
  /\ (keyCount (App.assets st) <> 0 ->
      (App.hasApiKey after = true <-> exists u, promptSelectApiKey window = Resolved u)).
Proof.
  intros Hguard after. subst after. unfold App.handleGenerate. cbv zeta.
  destruct (Nat.eqb_spec (keyCount (App.assets st)) 0) as [E|N].
  - repeat split; try reflexivity; intros; contradiction.
  - destruct Hguard as [Hz|Hno]; [contradiction|]. rewrite Hno. cbn [negb fst snd].
    unfold App.handleKeySelection.
    destruct (promptSelectApiKey window) as [u|e|] eqn:Ep; cbn [fst snd].
    + do 5 (split; [reflexivity|]). split; [intro; contradiction|].
      intros _. split; [intros _; now exists u | reflexivity].
    + do 5 (split; [reflexivity|]). split; [intro; contradiction|].
      intros _. split; [intro Ht; rewrite Hno in Ht; discriminate Ht
                       | intros (u & Hu); discriminate Hu].
    + do 5 (split; [reflexivity|]). split; [intro; contradiction|].
      intros _. split; [intro Ht; rewrite Hno in Ht; discriminate Ht
                       | intros (u & Hu); discriminate Hu].
Qed.

(** X21.  The display follows the run.  Once both guards are passed, the
    handler leaves the status at [success] exactly when the service run
    resolved, at [error] exactly when it was rejected, and at [generating]
    exactly when it is still pending.  In every case the display stays
    coherent, with the URL and no message in [success], a message and no URL
    in [error] and neither otherwise, so that nothing of an earlier run
    survives a new one; and the status [uploading], set on the way, is never
    the one the handler leaves. *)
Theorem handleGenerate_keeps_display_coherent (apiKey : option string)
    (refreshes : list (Outcome Operation)) (window : Window) (st : App.State) (w : World) :
  displayCoherent st ->
  App.status st <> App.uploading ->
  let run := generateFashionVideo apiKey refreshes (App.assets st) (App.config st) w in
  let after := fst (App.handleGenerate apiKey refreshes window st w) in
  displayCoherent after
  /\ App.status after <> App.uploading
  /\ (keyCount (App.assets st) <> 0 -> App.hasApiKey st = true ->
      (App.status after = App.success <-> exists url, fst run = Resolved url)
      /\ (App.status after = App.error <-> exists thrown, fst run = Rejected thrown)
      /\ (App.status after = App.generating <-> fst run = Pending)).
Proof.
  intros Hst Hup run after. subst run after. unfold App.handleGenerate. cbv zeta.
  destruct (keyCount (App.assets st) =? 0)%nat eqn:Ecount.
  - split; [assumption|]. split; [assumption|].
    intro Hcount. apply Nat.eqb_eq in Ecount. contradiction.
  - destruct (App.hasApiKey st) eqn:Ekey; cbn [negb].
    + cbn [App.assets App.config App.setStatus App.setErrorMsg App.setVideoUrl].
      destruct (generateFashionVideo apiKey refreshes (App.assets st) (App.config st) w)
        as [[url|thrown|] w']; cbn [fst].
      * unfold displayCoherent. cbn.
        repeat split; try discriminate; eauto; intros (x & Hx); discriminate Hx.
      * destruct (messageIncludes thrown "API Key"); unfold displayCoherent; cbn;
          repeat split; try discriminate; eauto; intros (x & Hx); discriminate Hx.
      * unfold displayCoherent. cbn.
        repeat split; try discriminate; intros (x & Hx); discriminate Hx.
    + unfold App.handleKeySelection.
      destruct (promptSelectApiKey window); (split; [assumption|]);
        (split; [assumption|]); intros _ Hkey; discriminate Hkey.
Qed.

(** X22.  An expired credential, end to end.  When the guarded part of the service
    run fails with an error whose message carries "Requested entity was not
    found" or "404", the handler leaves the application in [error], showing
    the expired-key message, with the key no longer taken as selected; the
    next press of Generate then asks for a key and does not reach the
    service. *)
Theorem expired_key_resets_selection (apiKey : option string) (key : string)
    (refreshes : list (Outcome Operation)) (window : Window) (st : App.State)
    (w : World) (file0 : File) (others : list File) (thrown : JsError) :
  App.hasApiKey st = true ->
  truthy apiKey = Some key ->
  orderedFiles (App.assets st) = file0 :: others ->
  fst ((operation <- createVideoOperation (videoPrompt (App.config st)
                                              (length (file0 :: others)))
                       file0 others (App.config st) ;;
        awaitVideo refreshes key operation) w) = Rejected thrown ->
  messageIncludes thrown "Requested entity was not found"
  || messageIncludes thrown "404" = true ->
  let after := fst (App.handleGenerate apiKey refreshes window st w) in
  App.status after = App.error
  /\ App.errorMsg after = Some authErrorMessage
  /\ App.videoUrl after = None
  /\ App.hasApiKey after = false
  /\ forall apiKey' refreshes' w',
       snd (App.handleGenerate apiKey' refreshes' window after w') = w'.
Proof.
  intros Hselected Hkey Hfiles Hinner Hexpired after.
  assert (Hrun : fst (generateFashionVideo apiKey refreshes (App.assets st)
                        (App.config st) w) = Rejected (newError authErrorMessage)).
  { rewrite (generateFashionVideo_normalizes apiKey key refreshes (App.assets st)
               (App.config st) w file0 others thrown Hkey Hfiles Hinner).
    now rewrite Hexpired. }
  assert (Eafter : after
                   = App.mkState (App.assets st) App.error None (Some authErrorMessage)
                       false (App.config st)).
  { subst after. unfold App.handleGenerate, keyCount. rewrite Hfiles, Hselected.
    cbn [length Nat.eqb negb]. cbv zeta.
    cbn [App.assets App.config App.setStatus App.setErrorMsg App.setVideoUrl].
    destruct (generateFashionVideo apiKey refreshes (App.assets st) (App.config st) w)
      as [[url|e|] w']; cbn [fst] in Hrun; try discriminate Hrun.
    inversion Hrun; subst. reflexivity. }
  rewrite Eafter. repeat split.
  intros apiKey' refreshes' w'. unfold App.handleGenerate, keyCount.
  cbn [App.assets App.hasApiKey negb]. rewrite Hfiles. cbn [length Nat.eqb].
  reflexivity.
Qed.

Lemma emitsOnly_impl {A} (Q Q' : Event -> Prop) (m : M World A) :
  (forall ev, Q ev -> Q' ev) -> emitsOnly Q m -> emitsOnly Q' m.
Proof.
  intros HQ H w. destruct (H w) as (new & E & F). exists new. split; [assumption|].
  eapply Forall_impl; eassumption.
Qed.

Lemma emitsOnly_asksRatio apiKey refreshes assets config :
  emitsOnly
    (asksRatio (if (1 <? keyCount assets)%nat then ratio_16_9 else aspectRatio config))
    (generateFashionVideo apiKey refreshes assets config).
Proof.
  unfold generateFashionVideo, keyCount.
  destruct (truthy apiKey) as [key|]; [|apply emitsOnly_throw].
  destruct (orderedFiles assets) as [|file0 [|file1 rest]]; [apply emitsOnly_throw| |].
  - apply (emitsOnly_impl
             (createsOnly (singleImageRequest (videoPrompt config 1) (base64Of file0)
                             file0 config))).
    + intros ev H r E. now rewrite (H r E).
    + apply emitsOnly_video_run. intro w0. rewrite createVideoOperation_single.
      destruct (readable file0); auto.
  - apply (emitsOnly_impl
             (createsOnly (multiImageRequest
                             (videoPrompt config (length (file0 :: file1 :: rest)))
                             (map referenceOf (firstn 3 (file0 :: file1 :: rest)))))).
    + intros ev H r E. now rewrite (H r E).
    + apply emitsOnly_video_run. intro w0. rewrite createVideoOperation_multi.
      destruct (forallb readable _); auto.
Qed.

(** X23.  The result pane is laid out for the ratio the service asks for: every
    creation call that a press of Generate leads to carries the effective
    aspect ratio of the application state, 16:9 with several assets and the
    configured ratio with one. *)
Theorem preview_ratio_matches_creation_calls (apiKey : option string)
    (refreshes : list (Outcome Operation)) (window : Window) (st : App.State) (w : World) :
  extends (asksRatio (App.effectiveAspectRatio st)) w
    (snd (App.handleGenerate apiKey refreshes window st w)).
Proof.
  unfold App.handleGenerate. cbv zeta.
  destruct (keyCount (App.assets st) =? 0)%nat; [apply extends_refl|].
  destruct (negb (App.hasApiKey st)); [apply extends_refl|].
  pose proof (emitsOnly_asksRatio apiKey refreshes (App.assets st) (App.config st) w) as H.
  unfold App.effectiveAspectRatio, App.isMultiAsset.
  cbn [App.assets App.config App.setStatus App.setErrorMsg App.setVideoUrl].
  destruct (generateFashionVideo apiKey refreshes (App.assets st) (App.config st) w)
    as [[url|thrown|] w']; [ | destruct (messageIncludes thrown "API Key") | ]; exact H.
Qed.

(** ** The configuration panel *)

Lemma availableModels_gender config m :
  In m (availableModels config) -> ModelCharacter.gender m = gender config.
Proof.
  unfold availableModels. rewrite filter_In. intros [_ H].
  destruct (ModelCharacter.gender m), (gender config); (reflexivity || discriminate H).
Qed.

(** X24.  Through the panel the persona always fits the gender: starting from a
    persona of the selected gender, every update the controls can produce
    leaves a persona of the (new) selected gender; a change of gender
    selects the first persona of that gender, and sets the gender asked
    for. *)
Theorem updateConfig_keeps_persona_coherent (config : GenerationConfig)
    (update : ConfigUpdate) :
  personaCoherent config ->
  offered config update ->
  personaCoherent (updateConfig config update)
  /\ (forall value, update = setGender value ->
        gender (updateConfig config update) = value
        /\ (value <> gender config ->
            modelId (updateConfig config update)
            = match value with female => "sofia" | male => "david" end)).
Proof.
  intros (m & Hin & Hid & Hgender) Hoffered. split.
  - destruct update as [v|v|v|v|v|v|v|v|v];
      try (exists m; repeat split; assumption).
    + unfold updateConfig.
      destruct (sameGender v (gender config)) eqn:Esame; cbn [negb].
      * exists m. repeat split; try assumption. cbn.
        rewrite Hgender. destruct v, (gender config); (reflexivity || discriminate Esame).
      * destruct v; cbn.
        -- exists (ModelCharacter.mk "sofia" "Sofia" female
                     "Caucasian female model, blonde hair").
           repeat split. simpl. tauto.
        -- exists (ModelCharacter.mk "david" "David" male
                     "Caucasian male model, short brown hair").
           repeat split. simpl. tauto.
    + change (In v (map ModelCharacter.id (availableModels config))) in Hoffered.
      apply in_map_iff in Hoffered.
      destruct Hoffered as (m' & Hid' & Hin').
      exists m'. split; [|split].
      * unfold availableModels in Hin'. now apply filter_In in Hin'.
      * exact Hid'.
      * cbn. now apply availableModels_gender.
  - intros value ->. unfold updateConfig.
    destruct (sameGender value (gender config)) eqn:Esame; cbn [negb].
    + split; [reflexivity|]. intro Hne. exfalso. apply Hne.
      destruct value, (gender config); (reflexivity || discriminate Esame).
    + destruct value; split; reflexivity.
Qed.

(** X25.  For a persona of the panel, the service never falls back to the generic
    phrase: the prompt's persona phrase is the table's description for that
    id, and it says "female" exactly when the selected gender is female. *)
Theorem coherent_persona_is_described (config : GenerationConfig) :
  personaCoherent config ->
  lookup MODEL_DESCRIPTIONS (modelId config) = Some (baseModelDescOf config)
  /\ includes (baseModelDescOf config) "female" = sameGender (gender config) female.
Proof.
  intros (m & Hin & Hid & Hgender). unfold baseModelDescOf. rewrite <- Hid, <- Hgender.
  simpl in Hin.
  repeat (destruct Hin as [<-|Hin]; [split; vm_compute; reflexivity|]).
  contradiction.
Qed.

(** ** Retried calls in the world *)

Lemma retriedCalls_cons call baseDelay first k :
  retriedCalls call baseDelay first (S k)
  = call :: Timer (baseDelay * 2 ^ Z.of_nat first)%Z
    :: retriedCalls call baseDelay (S first) k.
Proof. reflexivity. Qed.

(** Transient failures of the creation call, none of them the last attempt:
    each is followed by its backoff delay and the next attempt. *)
Lemma retryLoop_generateVideos_skips request (es : list JsError) :
  forall (tail : list (Outcome Operation)) (i remaining : nat) tr ca fa,
    Forall transient es -> i + length es < 5 ->
    retryLoop (generateVideos request) 5 2000 i (length es + S remaining)
      (mkWorld tr (map Fail es ++ tail) ca fa)
    = retryLoop (generateVideos request) 5 2000 (i + length es) (S remaining)
        (mkWorld (tr ++ retriedCalls (CallGenerateVideos request) 2000 i (length es))
           tail ca fa).
Proof.
  induction es as [|e es IH]; intros tail i remaining tr ca fa Hes Hlt.
  - simpl. unfold retriedCalls. simpl. now rewrite Nat.add_0_r, app_nil_r.
  - inversion Hes as [|? ? He Hes']; subst.
    change (length (e :: es) + S remaining) with (S (length es + S remaining)).
    erewrite (retryLoop_retry (generateVideos request) 5 2000%Z e);
      [ | reflexivity | exact He | simpl in Hlt; lia ].
    unfold setTimeout, World_clock, record. cbn [trace videoAnswers contentAnswers fetchAnswers].
    rewrite (IH tail (S i) remaining) by (assumption || simpl in Hlt; lia).
    cbn [length]. rewrite retriedCalls_cons, Nat.add_succ_r.
    rewrite <- !app_assoc. reflexivity.
Qed.

Lemma retryLoop_generateContent_skips request (es : list JsError) :
  forall (tail : list (Outcome GenerateContentResponse)) (i remaining : nat) tr va fa,
    Forall transient es -> i + length es < 5 ->
    retryLoop (generateContent request) 5 2000 i (length es + S remaining)
      (mkWorld tr va (map Fail es ++ tail) fa)
    = retryLoop (generateContent request) 5 2000 (i + length es) (S remaining)
        (mkWorld (tr ++ retriedCalls (CallGenerateContent request) 2000 i (length es))
           va tail fa).
Proof.
  induction es as [|e es IH]; intros tail i remaining tr va fa Hes Hlt.
  - simpl. unfold retriedCalls. simpl. now rewrite Nat.add_0_r, app_nil_r.
  - inversion Hes as [|? ? He Hes']; subst.
    change (length (e :: es) + S remaining) with (S (length es + S remaining)).
    erewrite (retryLoop_retry (generateContent request) 5 2000%Z e);
      [ | reflexivity | exact He | simpl in Hlt; lia ].
    unfold setTimeout, World_clock, record. cbn [trace videoAnswers contentAnswers fetchAnswers].
    rewrite (IH tail (S i) remaining) by (assumption || simpl in Hlt; lia).
    cbn [length]. rewrite retriedCalls_cons, Nat.add_succ_r.
    rewrite <- !app_assoc. reflexivity.
Qed.

Lemma retryOperation_generateVideos_settles request (es : list JsError)
    (answer : Outcome Operation) (more : list (Outcome Operation)) (w : World) :
  videoAnswers w = (map Fail es ++ answer :: more)%list ->
  Forall transient es -> length es < 5 ->
  match answer with
  | Ok _ => True
  | Fail e => isRetryable e = false \/ length es = 4
  end ->
  retryOperation (generateVideos request) 5 2000 w
  = (settle answer,
     mkWorld (trace w ++ retriedCalls (CallGenerateVideos request) 2000 0 (length es)
              ++ [CallGenerateVideos request])
       more (contentAnswers w) (fetchAnswers w)).
Proof.
  intros Hanswers Hes Hlt Hlast. destruct w as [tr va ca fa]. cbn in Hanswers. subst va.
  cbn [trace contentAnswers fetchAnswers]. unfold retryOperation.
  pose proof (retryLoop_generateVideos_skips request es (answer :: more) 0
                (4 - length es) tr ca fa Hes ltac:(lia)) as Hskip.
  replace (length es + S (4 - length es)) with 5 in Hskip by lia.
  rewrite Hskip. cbn [Nat.add]. rewrite app_assoc.
  destruct answer as [started|e].
  - erewrite retryLoop_resolved; [reflexivity|]. reflexivity.
  - destruct (isRetryable e) eqn:He.
    + destruct Hlast as [Hf|Hfour]; [discriminate Hf|].
      erewrite retryLoop_last; [reflexivity | reflexivity | lia].
    + erewrite retryLoop_fatal; [reflexivity | reflexivity | exact He].
Qed.

Lemma retryOperation_generateContent_settles request (es : list JsError)
    (answer : Outcome GenerateContentResponse)
    (more : list (Outcome GenerateContentResponse)) (w : World) :
  contentAnswers w = (map Fail es ++ answer :: more)%list ->
  Forall transient es -> length es < 5 ->
  match answer with
  | Ok _ => True
  | Fail e => isRetryable e = false \/ length es = 4
  end ->
  retryOperation (generateContent request) 5 2000 w
  = (settle answer,
     mkWorld (trace w ++ retriedCalls (CallGenerateContent request) 2000 0 (length es)
              ++ [CallGenerateContent request])
       (videoAnswers w) more (fetchAnswers w)).
Proof.
  intros Hanswers Hes Hlt Hlast. destruct w as [tr va ca fa]. cbn in Hanswers. subst ca.
  cbn [trace videoAnswers fetchAnswers]. unfold retryOperation.
  pose proof (retryLoop_generateContent_skips request es (answer :: more) 0
                (4 - length es) tr va fa Hes ltac:(lia)) as Hskip.
  replace (length es + S (4 - length es)) with 5 in Hskip by lia.
  rewrite Hskip. cbn [Nat.add]. rewrite app_assoc.
  destruct answer as [response|e].
  - erewrite retryLoop_resolved; [reflexivity|]. reflexivity.
  - destruct (isRetryable e) eqn:He.
    + destruct Hlast as [Hf|Hfour]; [discriminate Hf|].
      erewrite retryLoop_last; [reflexivity | reflexivity | lia].
    + erewrite retryLoop_fatal; [reflexivity | reflexivity | exact He].
Qed.

Lemma createVideoOperation_readable assets config file0 others w :
  orderedFiles assets = file0 :: others ->
  forallb readable (firstn 3 (file0 :: others)) = true ->
  createVideoOperation (videoPrompt config (length (file0 :: others))) file0 others config w
  = retryOperation (generateVideos (creationRequest assets config)) 5 2000 w.
Proof.
  intros Hfiles Hread. unfold creationRequest. rewrite Hfiles.
  destruct others as [|file1 rest].
  - rewrite createVideoOperation_single. simpl in Hread.
    rewrite andb_true_r in Hread. now rewrite Hread.
  - rewrite createVideoOperation_multi, Hread.
    unfold multiReferenceRequest. now rewrite Hfiles.
Qed.

(** X26.  The creation call is retried through transient failures: after up to
    four of them, each followed by its backoff delay (2, 4, 8, 16 seconds),
    the job the call finally returns is the one the run goes on with, and
    only creation calls and those timers have been added to the trace. *)
Theorem video_creation_retried (apiKey : option string) (key : string)
    (assets : UploadedAssets) (config : GenerationConfig) (w : World)
    (es : list JsError) (started : Operation) (more : list (Outcome Operation)) :
  truthy apiKey = Some key ->
  orderedFiles assets <> [] ->
  forallb readable (firstn 3 (orderedFiles assets)) = true ->
  videoAnswers w = (map Fail es ++ Ok started :: more)%list ->
  Forall transient es ->
  length es < 5 ->
  let call := CallGenerateVideos (creationRequest assets config) in
  let w1 := mkWorld (trace w ++ retriedCalls call 2000 0 (length es) ++ [call])
              more (contentAnswers w) (fetchAnswers w) in
  jobStarted apiKey assets config w key started w1
  /\ forall refreshes,
       generateFashionVideo apiKey refreshes assets config w
       = tryCatch (awaitVideo refreshes key started) normalizeAuth w1.
Proof.
  intros Hkey Hfiles Hread Hanswers Hes Hlt call w1.
  assert (Hjob : jobStarted apiKey assets config w key started w1).
  { split; [exact Hkey|].
    destruct (orderedFiles assets) as [|file0 others] eqn:E; [contradiction|].
    exists file0, others. split; [reflexivity|].
    rewrite (createVideoOperation_readable assets config file0 others w E Hread).
    now rewrite (retryOperation_generateVideos_settles _ es (Ok started) more w
                   Hanswers Hes Hlt I). }
  split; [exact Hjob|]. intro refreshes. now apply video_run_started.
Qed.

(** X27.  A creation call that fails for good, with an error that is not transient
    or as the fifth transient failure in a row, ends the run with that error
    as the closing [catch] leaves or replaces it; nothing is polled or
    fetched. *)
Theorem video_creation_failure (apiKey : option string) (key : string)
    (refreshes : list (Outcome Operation))
    (assets : UploadedAssets) (config : GenerationConfig) (w : World)
    (es : list JsError) (thrown : JsError) (more : list (Outcome Operation)) :
  truthy apiKey = Some key ->
  orderedFiles assets <> [] ->
  forallb readable (firstn 3 (orderedFiles assets)) = true ->
  videoAnswers w = (map Fail es ++ Fail thrown :: more)%list ->
  Forall transient es ->
  (length es < 5 /\ isRetryable thrown = false) \/ length es = 4 ->
  let call := CallGenerateVideos (creationRequest assets config) in
  generateFashionVideo apiKey refreshes assets config w
  = (Rejected (normalized thrown),
     mkWorld (trace w ++ retriedCalls call 2000 0 (length es) ++ [call])
       more (contentAnswers w) (fetchAnswers w)).
Proof.
  intros Hkey Hfiles Hread Hanswers Hes Hlast call. subst call.
  unfold generateFashionVideo. rewrite Hkey.
  destruct (orderedFiles assets) as [|file0 others] eqn:E; [contradiction|].
  cbv zeta. unfold tryCatch, bind at 1.
  rewrite (createVideoOperation_readable assets config file0 others w E Hread).
  rewrite (retryOperation_generateVideos_settles _ es (Fail thrown) more w Hanswers Hes);
    [ | lia | tauto ].
  cbn [settle]. now rewrite normalizeAuth_run.
Qed.

(** X28.  The image request survives transient failures and the run then
    ends by what the response holds: after up to four transient failures,
    each followed by its backoff delay, the response that arrives decides
    the outcome.  That is the object URL of a blob of the decoded bytes of
    its first inline payload, typed as the [Blob] constructor keeps the
    payload's media type; the decoder's [InvalidCharacterError] when [atob]
    refuses that payload; or "No image data found in response." for a
    response without an inline payload.  Only calls to the image model and
    those timers have been added to the trace. *)
Theorem image_survives_transient_failures (atob : string -> string + string)
    (apiKey : option string) (assets : UploadedAssets) (config : GenerationConfig)
    (w : World) (es : list JsError) (response : GenerateContentResponse)
    (more : list (Outcome GenerateContentResponse)) :
  truthy apiKey <> None ->
  orderedFiles assets <> [] ->
  forallb readable (orderedFiles assets) = true ->
  contentAnswers w = (map Fail es ++ Ok response :: more)%list ->
  Forall transient es ->
  length es < 5 ->
  let call := CallGenerateContent (imageRequest config (requestParts assets config)) in
  generateFashionImage atob apiKey assets config w
  = (imageOutcome atob response,
     mkWorld (trace w ++ retriedCalls call 2000 0 (length es) ++ [call])
       (videoAnswers w) more (fetchAnswers w)).
Proof.
  intros Hkey Hfiles Hread Hanswers Hes Hlt call. subst call.
  rewrite (generateFashionImage_run atob apiKey assets config w Hkey Hfiles Hread).
  unfold tryCatch, bind.
  rewrite (retryOperation_generateContent_settles _ es (Ok response) more w
             Hanswers Hes Hlt I).
  cbn [settle]. rewrite extractImage_run. unfold imageOutcome.
  destruct (firstInline response) as [found|]; [|reflexivity].
  unfold materialize, mimeTypeOrPng.
  now destruct (atob (interpolate (data found))).
Qed.

(** X29.  An image request that fails for good, with an error that is not
    transient or as the fifth transient failure in a row, ends the run with
    that very error: the image entry point passes on whatever it is rejected
    with, unchanged. *)
Theorem image_failure_passed_unchanged (atob : string -> string + string)
    (apiKey : option string) (assets : UploadedAssets) (config : GenerationConfig)
    (w : World) (es : list JsError) (thrown : JsError)
    (more : list (Outcome GenerateContentResponse)) :
  truthy apiKey <> None ->
  orderedFiles assets <> [] ->
  forallb readable (orderedFiles assets) = true ->
  contentAnswers w = (map Fail es ++ Fail thrown :: more)%list ->
  Forall transient es ->
  (length es < 5 /\ isRetryable thrown = false) \/ length es = 4 ->
  let call := CallGenerateContent (imageRequest config (requestParts assets config)) in
  generateFashionImage atob apiKey assets config w
  = (Rejected thrown,
     mkWorld (trace w ++ retriedCalls call 2000 0 (length es) ++ [call])
       (videoAnswers w) more (fetchAnswers w)).
Proof.
  intros Hkey Hfiles Hread Hanswers Hes Hlast call. subst call.
  rewrite (generateFashionImage_run atob apiKey assets config w Hkey Hfiles Hread).
  unfold tryCatch, bind.
  rewrite (retryOperation_generateContent_settles _ es (Fail thrown) more w Hanswers Hes);
    [ reflexivity | lia | tauto ].
Qed.

(** ** From the press of the button to the result *)

(** X30.  A successful generation, end to end: with a key selected, a press of
    Generate whose job is started, polled to a done operation with a video
    URI and downloaded at once leaves the application in [success] with the
    object URL of the downloaded video and no error message, the key still
    taken as selected. *)
Theorem generate_success_end_to_end (apiKey : option string) (key : string)
    (window : Window) (st : App.State) (w w1 : World)
    (started final : Operation) (refreshes : list (Outcome Operation))
    (videoUri : string) (response : FetchResponse) (more : list (Outcome FetchResponse))
    (payload : Blob) :
  App.hasApiKey st = true ->
  jobStarted apiKey (App.assets st) (App.config st) w key started w1 ->
  pollsUntil started refreshes final ->
  error final = None ->
  truthy (videoUriOf final) = Some videoUri ->
  fetchAnswers w1 = Ok response :: more ->
  ok response = true ->
  blob response = Ok payload ->
  let after := fst (App.handleGenerate apiKey refreshes window st w) in
  App.status after = App.success
  /\ App.videoUrl after = Some (createObjectURL payload)
  /\ App.errorMsg after = None
  /\ App.hasApiKey after = true.
Proof.
  intros Hselected Hjob Hpolls Herror Huri Hanswers Hok Hblob after. subst after.
  pose proof (proj1 (video_delivery apiKey (App.assets st) (App.config st) w key started
                       w1 refreshes final videoUri response more payload
                       Hjob Hpolls Herror Huri Hanswers Hok Hblob)) as Hrun.
  destruct Hjob as (_ & file0 & others & Hfiles & _).
  unfold App.handleGenerate, keyCount. rewrite Hfiles, Hselected.
  cbn [length Nat.eqb negb]. cbv zeta.
  cbn [App.assets App.config App.setStatus App.setErrorMsg App.setVideoUrl].
  destruct (generateFashionVideo apiKey refreshes (App.assets st) (App.config st) w)
    as [[url|e|] w']; cbn [fst] in Hrun; try discriminate Hrun.
  inversion Hrun; subst. cbn. repeat split; exact Hselected.
Qed.

End Properties.

(** * Instances of the properties

    The properties at concrete inputs, on the sample host, and the inputs
    at which a reading of the design document fails. *)

#[local] Existing Instance browser.

Lemma retryOperation_backoff_witness :
  Forall transient [e503; e503]
  /\ retryOperation invoke 5 2000 (fresh [Fail e503; Fail e503; Ok 7%nat])
     = (Resolved 7%nat, mkProbe [] 3 [2000; 4000]%Z).
Proof.
  assert (H : Forall transient [e503; e503]) by (repeat constructor).
  split; [exact H|].
  apply (proj1 (retryOperation_backoff nat 5 2000 [e503; e503] [] H) 7%nat).
  simpl; lia.
Defined.

(** With two attempts, an operation that fails twice with a transient error
    and would succeed the third time is invoked twice, and its second error
    propagates. *)
Lemma retryOperation_two_attempts_counterexample :
  let run := retryOperation invoke 2 2000 (fresh [Fail e503; Fail e503; Ok 7%nat]) in
  (1 <= 2)%nat /\ transient e503
  /\ run = (Rejected e503, mkProbe [Ok 7%nat] 2 [2000%Z])
  /\ fst run <> Resolved 7%nat
  /\ calls (snd run) <> 3%nat.
Proof.
  cbv zeta. repeat split; try reflexivity; try lia; vm_compute; discriminate.
Qed.

Lemma multi_asset_video_call_witness :
  2 <= length (orderedFiles fourAssets)
  /\ VideosRequest.referenceImages
       (VideosRequest.config (multiReferenceRequest fourAssets sampleConfig))
     = Some [referenceOf (pngFile "VE9Q"); referenceOf (pngFile "Qk9U");
             referenceOf (pngFile "U0hP")].
Proof.
  assert (H : 2 <= length (orderedFiles fourAssets)) by (simpl; lia).
  split; [exact H|].
  exact (proj1 (multi_asset_video_call (Some "key") [] fourAssets sampleConfig
                  emptyWorld H)).
Defined.

Lemma single_asset_video_call_witness :
  orderedFiles topOnly = [pngFile "VE9Q"]
  /\ VideosRequest.aspectRatio
       (VideosRequest.config (singleReferenceRequest (pngFile "VE9Q") sampleConfig))
     = ratio_9_16.
Proof.
  split; [reflexivity|].
  exact (proj1 (single_asset_video_call (Some "key") [] topOnly sampleConfig
                  emptyWorld (pngFile "VE9Q") eq_refl)).
Defined.

Lemma checkApiKeySelection_fallback_witness :
  lacksKeyCheck (mkWindow (Some (mkAIStudio None (Some (Resolved tt)))))
  /\ checkApiKeySelection (mkWindow (Some (mkAIStudio None (Some (Resolved tt)))))
     = Resolved true.
Proof.
  assert (H : lacksKeyCheck (mkWindow (Some (mkAIStudio None (Some (Resolved tt))))))
    by reflexivity.
  split; [exact H|].
  exact (checkApiKeySelection_fallback _ H).
Defined.

Lemma generation_failure_message_witness :
  fst (generateFashionVideo (Some "key") ([Ok pendingJob] ++ Ok (failedJob "quota exceeded") :: [])
         topOnly sampleConfig jobWorld)
  = Rejected (newError "Video generation failed: quota exceeded").
Proof.
  exact (generation_failure_message (Some "key") "key" topOnly sampleConfig jobWorld
           (mkWorld [CallGenerateVideos (singleReferenceRequest (pngFile "VE9Q") sampleConfig)]
              [] [] (fetchAnswers jobWorld))
           (pngFile "VE9Q") [] pendingJob (failedJob "quota exceeded")
           [Ok pendingJob] [] (mkOperationError (Some "quota exceeded"))
           eq_refl eq_refl eq_refl eq_refl
           (Forall_cons _ (eq_refl : keepsPolling (Ok pendingJob)) (Forall_nil _))
           eq_refl eq_refl).
Defined.

(** The message that reaches the caller is not the payload's message. *)
Lemma generation_failure_message_counterexample :
  let run := generateFashionVideo (Some "key") [Ok (failedJob "quota exceeded")]
               topOnly sampleConfig jobWorld in
  error (failedJob "quota exceeded") = Some (mkOperationError (Some "quota exceeded"))
  /\ fst run = Rejected (newError "Video generation failed: quota exceeded")
  /\ forall thrown, fst run = Rejected thrown -> message thrown <> Some "quota exceeded".
Proof.
  cbv zeta.
  assert (E : fst (generateFashionVideo (Some "key") [Ok (failedJob "quota exceeded")]
                     topOnly sampleConfig jobWorld)
              = Rejected (newError "Video generation failed: quota exceeded"))
    by (vm_compute; reflexivity).
  split; [reflexivity|]. split; [exact E|].
  intros thrown H. rewrite E in H. inversion H; subst. discriminate.
Qed.

Lemma no_assets_rejected_before_any_call_witness :
  orderedFiles noAssets = []
  /\ generateFashionVideo (Some "key") [] noAssets sampleConfig jobWorld
     = (Rejected (newError "Please upload at least one image."), jobWorld).
Proof.
  split; [reflexivity|].
  exact (proj1 (no_assets_rejected_before_any_call (fun s => inr s) (Some "key") []
                  noAssets sampleConfig jobWorld eq_refl)).
Defined.

(** Without a configured key the rejection is not the missing-assets one. *)
Lemma no_assets_without_key_counterexample :
  orderedFiles noAssets = []
  /\ generateFashionVideo None [] noAssets sampleConfig jobWorld
     = (Rejected (newError "API Key not found."), jobWorld)
  /\ generateFashionImage (fun s => inr s) None noAssets sampleConfig jobWorld
     = (Rejected (newError "API Key not found."), jobWorld)
  /\ newError "API Key not found." <> newError "Please upload at least one image.".
Proof. repeat split; discriminate. Qed.

(** The payload "iVBORw0KGgo=" of type "Image/JPEG" becomes a blob of the
    eight bytes of the PNG signature, of type "image/jpeg". *)
Lemma image_from_first_inline_payload_witness :
  fst (generateFashionImage Base64.atob (Some "key") topOnly sampleConfig
         (mkWorld [] [] [Ok sampleResponse] []))
  = Resolved (createObjectURL (mkBlob [137; 80; 78; 71; 13; 10; 26; 10] "image/jpeg")).
Proof.
  refine (proj1 (image_from_first_inline_payload Base64.atob (Some "key") topOnly
                   sampleConfig (mkWorld [] [] [Ok sampleResponse] [])
                   (mkWorld [CallGenerateContent
                               (imageRequest sampleConfig (requestParts topOnly sampleConfig))]
                      [] [] [])
                   sampleResponse _ _ eq_refl eq_refl)); discriminate.
Defined.

(** A response with an inline payload for which no handle is returned:
    the payload is not base64, and [atob] throws. *)
Lemma image_undecodable_payload_counterexample :
  firstInline garbledResponse
  = Some (mkInlineData (Some "not base64!") (Some "image/png"))
  /\ fst (generateFashionImage Base64.atob (Some "key") topOnly sampleConfig
            (mkWorld [] [] [Ok garbledResponse] []))
     = Rejected (invalidCharacterError Base64.notCorrectlyEncoded).
Proof. split; vm_compute; reflexivity. Qed.

(** With the model id "constructor" the persona phrase is the text of
    [Object.prototype.constructor]; the prompt for one asset has "exact
    outfit" and not "complete outfit". *)
Lemma prompt_outfit_phrasing_witness :
  1 <= 1
  /\ includes (buildCommonPrompt constructorConfig 1) "exact outfit" = true
  /\ includes (buildCommonPrompt constructorConfig 1) "complete outfit" = false.
Proof.
  assert (H : 1 <= 1) by lia.
  destruct (prompt_outfit_phrasing constructorConfig 1 H) as (_ & Hexact & Honly & _).
  split; [exact H|]. split; [apply Hexact; reflexivity|].
  destruct (includes (buildCommonPrompt constructorConfig 1) "complete outfit") eqn:E;
    [|reflexivity].
  exfalso. apply (Nat.lt_irrefl 1). apply Honly.
  - repeat split; reflexivity.
  - intros key text [->| ->] Htext; vm_compute in Htext; inversion Htext; reflexivity.
  - reflexivity.
Defined.

(** A material description that mentions a complete outfit puts the phrase
    into the prompt for a single asset. *)
Lemma prompt_outfit_phrasing_counterexample :
  includes (buildCommonPrompt denimConfig 1) "complete outfit" = true
  /\ ~ (1 < 1).
Proof. split; [vm_compute; reflexivity | lia]. Qed.


Lemma pollTolerates_isRetryable_witness :
  pollTolerates e503 = true /\ isRetryable e503 = true.
Proof.
  assert (H : pollTolerates e503 = true) by reflexivity.
  split; [exact H | exact (pollTolerates_isRetryable e503 H)].
Defined.

Lemma jobStarted_sample fetches :
  jobStarted (Some "key") topOnly sampleConfig (askingWorld fetches) "key" pendingJob
    (startedWorld fetches).
Proof.
  split; [reflexivity|]. exists (pngFile "VE9Q"), []. split; reflexivity.
Defined.

Lemma pollsUntil_sample final :
  done final = true -> pollsUntil pendingJob [Ok pendingJob; Fail e503; Ok final] final.
Proof.
  intro H. split; [reflexivity|]. split; [exact H|].
  exists [Ok pendingJob; Fail e503], []. split; [reflexivity|].
  repeat constructor.
Defined.

Lemma video_keeps_polling_witness :
  fst (generateFashionVideo (Some "key") [Ok pendingJob; Fail e503; Ok pendingJob]
         topOnly sampleConfig (askingWorld []))
  = Pending.
Proof.
  refine (proj1 (video_keeps_polling (Some "key") topOnly sampleConfig (askingWorld [])
                   "key" pendingJob (startedWorld [])
                   [Ok pendingJob; Fail e503; Ok pendingJob]
                   (jobStarted_sample []) eq_refl _)).
  repeat constructor.
Defined.

Lemma video_poll_failure_propagates_witness :
  fst (generateFashionVideo (Some "key") ([Ok pendingJob] ++ Fail e400 :: [Ok finishedJob])
         topOnly sampleConfig (askingWorld []))
  = Rejected e400.
Proof.
  refine (video_poll_failure_propagates (Some "key") topOnly sampleConfig (askingWorld [])
            "key" pendingJob (startedWorld []) [Ok pendingJob] [Ok finishedJob] e400
            (jobStarted_sample []) eq_refl _ eq_refl).
  repeat constructor.
Defined.

Lemma video_without_uri_rejected_witness :
  fst (generateFashionVideo (Some "key")
         [Ok pendingJob; Fail e503; Ok (mkOperation true None None "")]
         topOnly sampleConfig (askingWorld []))
  = Rejected (newError "No video URI returned.").
Proof.
  exact (proj1 (video_without_uri_rejected (Some "key") topOnly sampleConfig
                  (askingWorld []) "key" pendingJob (startedWorld [])
                  [Ok pendingJob; Fail e503; Ok (mkOperation true None None "")]
                  (mkOperation true None None "")
                  (jobStarted_sample [])
                  (pollsUntil_sample (mkOperation true None None "") eq_refl)
                  eq_refl eq_refl)).
Defined.

Lemma video_delivered_witness :
  fst (generateFashionVideo (Some "key") [Ok pendingJob; Fail e503; Ok finishedJob]
         topOnly sampleConfig (askingWorld [Ok (delivered sampleVideo)]))
  = Resolved (createObjectURL sampleVideo).
Proof.
  exact (proj1 (video_delivered (Some "key") topOnly sampleConfig
                  (askingWorld [Ok (delivered sampleVideo)]) "key" pendingJob
                  (startedWorld [Ok (delivered sampleVideo)])
                  [Ok pendingJob; Fail e503; Ok finishedJob] finishedJob
                  "https://media.example/v1?alt=media" (delivered sampleVideo) []
                  sampleVideo
                  (jobStarted_sample [Ok (delivered sampleVideo)])
                  (pollsUntil_sample finishedJob eq_refl)
                  eq_refl eq_refl eq_refl eq_refl eq_refl)).
Defined.

Lemma video_download_refused_witness :
  fst (generateFashionVideo (Some "key") [Ok pendingJob; Fail e503; Ok finishedJob]
         topOnly sampleConfig (askingWorld [Ok (refused 404); Ok (delivered sampleVideo)]))
  = Rejected (newError authErrorMessage).
Proof.
  exact (proj1 (video_download_refused (Some "key") topOnly sampleConfig
                  (askingWorld [Ok (refused 404); Ok (delivered sampleVideo)])
                  "key" pendingJob
                  (startedWorld [Ok (refused 404); Ok (delivered sampleVideo)])
                  [Ok pendingJob; Fail e503; Ok finishedJob] finishedJob
                  "https://media.example/v1?alt=media" (refused 404)
                  [Ok (delivered sampleVideo)]
                  (jobStarted_sample _) (pollsUntil_sample finishedJob eq_refl)
                  eq_refl eq_refl eq_refl eq_refl eq_refl)).
Defined.

Lemma video_download_retried_witness :
  fst (generateFashionVideo (Some "key") [Ok pendingJob; Fail e503; Ok finishedJob]
         topOnly sampleConfig
         (askingWorld [Ok (refused 503); Ok (refused 500); Ok (delivered sampleVideo)]))
  = Resolved (createObjectURL sampleVideo).
Proof.
  exact (proj1 (video_download_retried (Some "key") topOnly sampleConfig
                  (askingWorld [Ok (refused 503); Ok (refused 500); Ok (delivered sampleVideo)])
                  "key" pendingJob
                  (startedWorld [Ok (refused 503); Ok (refused 500); Ok (delivered sampleVideo)])
                  [Ok pendingJob; Fail e503; Ok finishedJob] finishedJob
                  "https://media.example/v1?alt=media"
                  (refused 503) (refused 500) (delivered sampleVideo) [] sampleVideo
                  (jobStarted_sample _) (pollsUntil_sample finishedJob eq_refl)
                  eq_refl eq_refl eq_refl eq_refl eq_refl eq_refl eq_refl eq_refl eq_refl)).
Defined.

Lemma video_download_exhausted_witness :
  fst (generateFashionVideo (Some "key") [Ok pendingJob; Fail e503; Ok finishedJob]
         topOnly sampleConfig
         (askingWorld [Ok (refused 503); Ok (refused 503); Ok (refused 503);
                       Ok (delivered sampleVideo)]))
  = Rejected (newError "Download failed: 503").
Proof.
  exact (proj1 (video_download_exhausted (Some "key") topOnly sampleConfig
                  (askingWorld [Ok (refused 503); Ok (refused 503); Ok (refused 503);
                                Ok (delivered sampleVideo)])
                  "key" pendingJob
                  (startedWorld [Ok (refused 503); Ok (refused 503); Ok (refused 503);
                                 Ok (delivered sampleVideo)])
                  [Ok pendingJob; Fail e503; Ok finishedJob] finishedJob
                  "https://media.example/v1?alt=media"
                  (refused 503) (refused 503) (refused 503) [Ok (delivered sampleVideo)]
                  (jobStarted_sample _) (pollsUntil_sample finishedJob eq_refl)
                  eq_refl eq_refl eq_refl eq_refl eq_refl eq_refl eq_refl eq_refl)).
Defined.

Lemma unreadable_asset_rejected_before_any_call_witness :
  generateFashionVideo (Some "key") []
    (mkAssets (Some (pngFile "VE9Q")) (Some unreadableFile) None None)
    sampleConfig jobWorld
  = (Rejected readerErrorEvent, jobWorld).
Proof.
  refine (proj1 (unreadable_asset_rejected_before_any_call (fun s => inr s) (Some "key") []
                   (mkAssets (Some (pngFile "VE9Q")) (Some unreadableFile) None None)
                   sampleConfig jobWorld _) eq_refl).
  discriminate.
Defined.

Lemma missing_key_rejected_before_any_call_witness :
  generateFashionVideo (Some "") [] fourAssets sampleConfig jobWorld
  = (Rejected (newError "API Key not found."), jobWorld).
Proof.
  exact (proj1 (missing_key_rejected_before_any_call (fun s => inr s) (Some "") []
                  fourAssets sampleConfig jobWorld (or_intror eq_refl))).
Defined.

Lemma image_request_carries_all_assets_witness :
  exists new more,
    trace (snd (generateFashionImage (fun s => inr s) (Some "key") topOnly sampleConfig
                  (mkWorld [] [] [Ok sampleResponse] [])))
    = (trace (mkWorld [] [] [Ok sampleResponse] []) ++ new)%list
    /\ new
       = CallGenerateContent (imageRequest sampleConfig (requestParts topOnly sampleConfig))
         :: more.
Proof.
  pose proof (image_request_carries_all_assets (fun s => inr s) (Some "key") topOnly
                sampleConfig (mkWorld [] [] [Ok sampleResponse] [])) as H.
  cbv zeta in H. destruct H as (_ & _ & _ & new & Htrace & _ & _ & Hfirst).
  destruct Hfirst as [more Hmore]; [discriminate | discriminate | reflexivity |].
  exists new, more. split; [exact Htrace | exact Hmore].
Defined.

(** With the model id "constructor" the prompt carries the text of
    [Object.prototype.constructor] where the persona would stand. *)
Lemma prompt_mentions_selection_witness :
  includes (buildCommonPrompt constructorConfig 1)
    "function Object() { [native code] } with a slender and thin body type in a runway setting. "
  = true.
Proof. exact (proj1 (proj2 (prompt_mentions_selection constructorConfig 1))). Defined.

Lemma prompt_depends_only_on_witness :
  buildCommonPrompt sampleConfig 2 = buildCommonPrompt otherConfig 4.
Proof.
  apply prompt_depends_only_on.
  - repeat split.
  - left. discriminate.
  - reflexivity.
Defined.

Lemma blobToBase64_strips_header_witness :
  @blobToBase64 World (pngFile "VE9Q") emptyWorld = (Resolved (Some "VE9Q"), emptyWorld).
Proof.
  exact (proj1 (blobToBase64_strips_header World "image/png" "data:image/png;base64"
                  "VE9Q" "" emptyWorld eq_refl eq_refl)).
Defined.

Lemma handleGenerate_guards_witness :
  snd (App.handleGenerate (Some "key") [] (mkWindow None)
         (App.mkState topOnly App.idle None None false sampleConfig) jobWorld)
  = jobWorld.
Proof.
  exact (proj1 (handleGenerate_guards (Some "key") [] (mkWindow None)
                  (App.mkState topOnly App.idle None None false sampleConfig) jobWorld
                  (or_intror eq_refl))).
Defined.

Lemma handleGenerate_keeps_display_coherent_witness :
  App.status
    (fst (App.handleGenerate (Some "key") [Ok pendingJob] (mkWindow None)
            (readyState topOnly) (askingWorld [])))
  = App.generating.
Proof.
  refine (proj2 (proj2 (proj2 (proj2 (proj2 (handleGenerate_keeps_display_coherent
                   (Some "key") [Ok pendingJob] (mkWindow None) (readyState topOnly)
                   (askingWorld []) _ _)) _ eq_refl))) eq_refl).
  - split; reflexivity.
  - discriminate.
  - discriminate.
Defined.

Lemma expired_key_resets_selection_witness :
  App.hasApiKey
    (fst (App.handleGenerate (Some "key") [] (mkWindow None) (readyState topOnly)
            (mkWorld [] [Fail notFound] [] [])))
  = false.
Proof.
  exact (proj1 (proj2 (proj2 (proj2
           (expired_key_resets_selection (Some "key") "key" [] (mkWindow None)
              (readyState topOnly) (mkWorld [] [Fail notFound] [] [])
              (pngFile "VE9Q") [] notFound eq_refl eq_refl eq_refl eq_refl eq_refl))))).
Defined.

Lemma updateConfig_keeps_persona_coherent_witness :
  personaCoherent (updateConfig sampleConfig (setGender male)).
Proof.
  refine (proj1 (updateConfig_keeps_persona_coherent sampleConfig (setGender male) _ I)).
  exists (ModelCharacter.mk "sofia" "Sofia" female "Caucasian female model, blonde hair").
  repeat split. simpl. tauto.
Defined.

Lemma coherent_persona_is_described_witness :
  lookup MODEL_DESCRIPTIONS "sofia" = Some (baseModelDescOf sampleConfig).
Proof.
  refine (proj1 (coherent_persona_is_described sampleConfig _)).
  exists (ModelCharacter.mk "sofia" "Sofia" female "Caucasian female model, blonde hair").
  repeat split. simpl. tauto.
Defined.

Lemma video_creation_retried_witness :
  jobStarted (Some "key") topOnly sampleConfig
    (mkWorld [] [Fail e503; Fail e429; Ok pendingJob] [] []) "key" pendingJob
    (mkWorld
       (let call := CallGenerateVideos (creationRequest topOnly sampleConfig) in
        [call; Timer 2000; call; Timer 4000; call])
       [] [] []).
Proof.
  refine (proj1 (video_creation_retried (Some "key") "key" topOnly sampleConfig
                   (mkWorld [] [Fail e503; Fail e429; Ok pendingJob] [] [])
                   [e503; e429] pendingJob [] eq_refl _ eq_refl eq_refl _ _)).
  - discriminate.
  - repeat constructor.
  - simpl. lia.
Defined.

Lemma video_creation_failure_witness :
  fst (generateFashionVideo (Some "key") [Ok finishedJob] topOnly sampleConfig
         (mkWorld [] [Fail e503; Fail e400; Ok pendingJob] [] []))
  = Rejected e400.
Proof.
  refine (f_equal fst
            (video_creation_failure (Some "key") "key" [Ok finishedJob] topOnly sampleConfig
               (mkWorld [] [Fail e503; Fail e400; Ok pendingJob] [] [])
               [e503] e400 [Ok pendingJob] eq_refl _ eq_refl eq_refl _ _)).
  - discriminate.
  - repeat constructor.
  - left. split; [simpl; lia | reflexivity].
Defined.

Lemma image_survives_transient_failures_witness :
  fst (generateFashionImage Base64.atob (Some "key") topOnly sampleConfig
         (mkWorld [] [] [Fail e503; Ok sampleResponse] []))
  = Resolved (createObjectURL (mkBlob [137; 80; 78; 71; 13; 10; 26; 10] "image/jpeg")).
Proof.
  refine (f_equal fst
            (image_survives_transient_failures Base64.atob (Some "key") topOnly
               sampleConfig (mkWorld [] [] [Fail e503; Ok sampleResponse] [])
               [e503] sampleResponse [] _ _ eq_refl eq_refl _ _)).
  - discriminate.
  - discriminate.
  - repeat constructor.
  - simpl. lia.
Defined.

Lemma image_failure_passed_unchanged_witness :
  fst (generateFashionImage (fun s => inr s) (Some "key") topOnly sampleConfig
         (mkWorld [] [] [Fail e503; Fail e400; Ok sampleResponse] []))
  = Rejected e400.
Proof.
  refine (f_equal fst
            (image_failure_passed_unchanged (fun s => inr s) (Some "key") topOnly
               sampleConfig (mkWorld [] [] [Fail e503; Fail e400; Ok sampleResponse] [])
               [e503] e400 [Ok sampleResponse] _ _ eq_refl eq_refl _ _)).
  - discriminate.
  - discriminate.
  - repeat constructor.
  - left. split; [simpl; lia | reflexivity].
Defined.

Lemma generate_success_end_to_end_witness :
  App.status
    (fst (App.handleGenerate (Some "key") [Ok pendingJob; Fail e503; Ok finishedJob]
            (mkWindow None) (readyState topOnly)
            (askingWorld [Ok (delivered sampleVideo)])))
  = App.success.
Proof.
  exact (proj1 (generate_success_end_to_end (Some "key") "key" (mkWindow None)
                  (readyState topOnly) (askingWorld [Ok (delivered sampleVideo)])
                  (startedWorld [Ok (delivered sampleVideo)])
                  pendingJob finishedJob [Ok pendingJob; Fail e503; Ok finishedJob]
                  "https://media.example/v1?alt=media" (delivered sampleVideo) []
                  sampleVideo eq_refl
                  (jobStarted_sample [Ok (delivered sampleVideo)])
                  (pollsUntil_sample finishedJob eq_refl)
                  eq_refl eq_refl eq_refl eq_refl eq_refl)).
Defined.
